(** * warper-ember: the virtualization range controller and the WASM gateway

    A shallow embedding of [components/virtualizer.gts] (the [Virtualizer]
    component) and [core/wasm.ts] (the engine gateway), with the properties
    stated about them.

    Numbers.  JavaScript numbers are modelled by the rationals [Q]: the
    finite values, with exact arithmetic.  [NaN], the infinities and rounding
    are outside the model.  Item counts and indices are integers [Z];
    [x | 0] is [JS.ToInt32].

    Objects.  The engine handles, the published range object and the
    animation-frame callbacks are identified by natural numbers handed out
    by counters of the [World]; two references are the same object exactly
    when their identifiers are equal. *)

From Stdlib Require Import ZArith QArith Qabs Qround Qminmax.
From Stdlib Require Import List Bool Lia Lqa String.
Import ListNotations.

Local Open Scope Z_scope.

(** ** JavaScript primitives used by the sources *)

Module JS.

(** [a ?? d] *)
Definition nullish {A : Type} (a : option A) (d : A) : A :=
  match a with
  | Some x => x
  | None => d
  end.

(** Truncation toward zero, the first step of [ToInt32]. *)
Definition trunc (q : Q) : Z :=
  if Qle_bool 0 q then Qfloor q else Qceiling q.

(** [q | 0]: truncate, wrap modulo 2^32 into the signed 32-bit range. *)
Definition ToInt32 (q : Q) : Z :=
  (trunc q + 2 ^ 31) mod 2 ^ 32 - 2 ^ 31.

(** [new Array<number>(n)]: the length of the fresh array, or [None] for the
    [RangeError] raised when [n] is not an array length. *)
Definition new_Array (n : Z) : option nat :=
  if (0 <=? n) && (n <? 2 ^ 32) then Some (Z.to_nat n) else None.

(** The indices [0 .. n-1] visited by [for (let i = 0; i < n; i++)]. *)
Definition indices (n : nat) : list Z :=
  map Z.of_nat (seq 0 n).

(** [x < y] and [x > y] on numbers. *)
Definition ltb (x y : Q) : bool := negb (Qle_bool y x).
Definition gtb (x y : Q) : bool := ltb y x.

(** [sizes.reduce((a, b) => a + b, 0)] *)
Definition sum (l : list Q) : Q := fold_left Qplus l 0%Q.

End JS.

(** ** The engine contract (the WASM classes, consumed as a black box) *)

Class Engine : Type := {
  QuantumUniform : Type;
  QuantumVariable : Type;
  (** [new wasm.QuantumUniform(count, size)] *)
  uniform_new : Z -> Q -> QuantumUniform;
  uniform_calc_range : QuantumUniform -> Q -> Q -> Z -> list Q;
  uniform_set_count : QuantumUniform -> Z -> QuantumUniform;
  (** [new wasm.QuantumVariable(new Float64Array(sizes))] *)
  variable_new : list Q -> QuantumVariable;
  variable_calc_range : QuantumVariable -> Q -> Q -> Z -> list Q;
  variable_get_offset : QuantumVariable -> Z -> Q;
  variable_get_size : QuantumVariable -> Z -> Q
}.

Module Controller.

Definition MAX_SAFE_SCROLL_HEIGHT : Q := 15000000%Q.

Record VirtualRange : Type := {
  startIndex : Z;
  endIndex : Z;
  items : list Z;
  offsets : list Q;
  sizes : list Q;
  totalHeight : Q;
  paddingTop : Q
}.

(** [VirtualizerSignature['Args']]; [height] is only used by the template. *)
Record Args : Type := {
  itemCount : Z;
  estimateSize : Z -> Q;
  overscan : option Z;
  horizontal : option bool
}.

(** What the controller reads from the scroll element. *)
Record HTMLElement : Type := {
  scrollLeft : Q;
  scrollTop : Q;
  clientWidth : Q;
  clientHeight : Q
}.

(** The surroundings at the time of a call: the current component arguments
    and the current layout of every DOM element. *)
Record Env : Type := {
  args : Args;
  dom : nat -> HTMLElement
}.

(** The callbacks the component hands to [requestAnimationFrame]. *)
Inductive Callback : Type :=
| CbAfterSetup     (* setupVirtualizer: if (this.element) calculateRange() *)
| CbRecompute      (* () => this.calculateRange() *)
| CbScrollStage1   (* handleScroll, outer callback *)
| CbScrollStage2.  (* handleScroll, inner callback *)

(** What a run leaves behind, oldest first: the calls made to the estimator,
    to the engine and to the frame scheduler, every entry into
    [calculateRange], every assignment to [this.range] and every
    [RangeError]. *)
Inductive Event : Type :=
| EvEstimate (i : Z)
| EvCreateUniform (h : nat) (count : Z) (size : Q)
| EvCreateVariable (h : nat) (szs : list Q)
| EvCalcRange (h : nat)
| EvGetOffset (h : nat) (i : Z)
| EvGetSize (h : nat) (i : Z)
| EvSetCount (h : nat) (count : Z)
| EvFree (h : nat)
| EvRecompute
| EvPublish (obj : nat) (r : VirtualRange) (count : Z)
| EvRangeError
| EvRequestFrame (id : nat) (cb : Callback)
| EvCancelFrame (id : nat)
| EvDestroy.

(** How a call of [calculateRange] or [handleItemCountChange] ended. *)
Inductive Outcome : Type :=
| NotReady      (* handleItemCountChange: !wasmReady || isLoading *)
| NoElement     (* if (!el) return *)
| Rescheduled   (* viewportSize <= 0 *)
| NoHandle      (* neither handle is set *)
| Skipped       (* the skip rule *)
| Threw         (* RangeError: Invalid array length *)
| Published.    (* this.range = {...} *)

Inductive Completion : Type :=
| Normal
| Raised (msg : string).

Definition emptyRange : VirtualRange :=
  {| startIndex := 0; endIndex := 0; items := []; offsets := []; sizes := [];
     totalHeight := 0%Q; paddingTop := 0%Q |}.

Section WithEngine.

Context {E : Engine}.

(** The fields of the component.  [rangeObj] is the identity of the object
    held in the tracked field [range]; a handle is held with its identity. *)
Record Virtualizer : Type := {
  isLoading : bool;
  error : option string;
  range : VirtualRange;
  rangeObj : nat;
  element : option nat;
  virtualizer : option (nat * QuantumVariable);
  uniformVirtualizer : option (nat * QuantumUniform);
  isUniform : bool;
  uniformSize : Q;
  scrollMultiplier : Q;
  lastStart : Z;
  lastEnd : Z;
  lastPaddingTop : Q;
  rafId : nat;
  rafPending : bool;
  wasmReady : bool
}.

(** The component together with what it shares with its surroundings: the
    queue of animation-frame callbacks not yet run, the allocation counters
    and the trace. *)
Record World : Type := {
  self : Virtualizer;
  frames : list (nat * Callback);
  nextFrame : nat;
  nextHandle : nat;
  nextObj : nat;
  trace : list Event
}.

(** Field assignments. *)

Definition set_isLoading (x : bool)
  (v : Virtualizer) : Virtualizer :=
  {| isLoading := x; error := error v; range := range v; rangeObj :=
     rangeObj v; element := element v; virtualizer := virtualizer v;
     uniformVirtualizer := uniformVirtualizer v; isUniform := isUniform v;
     uniformSize := uniformSize v; scrollMultiplier := scrollMultiplier v;
     lastStart := lastStart v; lastEnd := lastEnd v; lastPaddingTop :=
     lastPaddingTop v; rafId := rafId v; rafPending := rafPending v;
     wasmReady := wasmReady v |}.

Definition set_error (x : option string)
  (v : Virtualizer) : Virtualizer :=
  {| isLoading := isLoading v; error := x; range := range v; rangeObj :=
     rangeObj v; element := element v; virtualizer := virtualizer v;
     uniformVirtualizer := uniformVirtualizer v; isUniform := isUniform v;
     uniformSize := uniformSize v; scrollMultiplier := scrollMultiplier v;
     lastStart := lastStart v; lastEnd := lastEnd v; lastPaddingTop :=
     lastPaddingTop v; rafId := rafId v; rafPending := rafPending v;
     wasmReady := wasmReady v |}.

Definition set_range (o : nat) (r : VirtualRange) (v : Virtualizer) :
  Virtualizer :=
  {| isLoading := isLoading v; error := error v; range := r; rangeObj := o;
     element := element v; virtualizer := virtualizer v; uniformVirtualizer
     := uniformVirtualizer v; isUniform := isUniform v; uniformSize :=
     uniformSize v; scrollMultiplier := scrollMultiplier v; lastStart :=
     lastStart v; lastEnd := lastEnd v; lastPaddingTop := lastPaddingTop v;
     rafId := rafId v; rafPending := rafPending v; wasmReady := wasmReady v
     |}.

Definition set_element (x : option nat)
  (v : Virtualizer) : Virtualizer :=
  {| isLoading := isLoading v; error := error v; range := range v; rangeObj
     := rangeObj v; element := x; virtualizer := virtualizer v;
     uniformVirtualizer := uniformVirtualizer v; isUniform := isUniform v;
     uniformSize := uniformSize v; scrollMultiplier := scrollMultiplier v;
     lastStart := lastStart v; lastEnd := lastEnd v; lastPaddingTop :=
     lastPaddingTop v; rafId := rafId v; rafPending := rafPending v;
     wasmReady := wasmReady v |}.

Definition set_virtualizer (x : option (nat * QuantumVariable))
  (v : Virtualizer) : Virtualizer :=
  {| isLoading := isLoading v; error := error v; range := range v; rangeObj
     := rangeObj v; element := element v; virtualizer := x;
     uniformVirtualizer := uniformVirtualizer v; isUniform := isUniform v;
     uniformSize := uniformSize v; scrollMultiplier := scrollMultiplier v;
     lastStart := lastStart v; lastEnd := lastEnd v; lastPaddingTop :=
     lastPaddingTop v; rafId := rafId v; rafPending := rafPending v;
     wasmReady := wasmReady v |}.

Definition set_uniformVirtualizer (x : option (nat * QuantumUniform))
  (v : Virtualizer) : Virtualizer :=
  {| isLoading := isLoading v; error := error v; range := range v; rangeObj
     := rangeObj v; element := element v; virtualizer := virtualizer v;
     uniformVirtualizer := x; isUniform := isUniform v; uniformSize :=
     uniformSize v; scrollMultiplier := scrollMultiplier v; lastStart :=
     lastStart v; lastEnd := lastEnd v; lastPaddingTop := lastPaddingTop v;
     rafId := rafId v; rafPending := rafPending v; wasmReady := wasmReady v
     |}.

Definition set_isUniform (x : bool)
  (v : Virtualizer) : Virtualizer :=
  {| isLoading := isLoading v; error := error v; range := range v; rangeObj
     := rangeObj v; element := element v; virtualizer := virtualizer v;
     uniformVirtualizer := uniformVirtualizer v; isUniform := x; uniformSize
     := uniformSize v; scrollMultiplier := scrollMultiplier v; lastStart :=
     lastStart v; lastEnd := lastEnd v; lastPaddingTop := lastPaddingTop v;
     rafId := rafId v; rafPending := rafPending v; wasmReady := wasmReady v
     |}.

Definition set_uniformSize (x : Q)
  (v : Virtualizer) : Virtualizer :=
  {| isLoading := isLoading v; error := error v; range := range v; rangeObj
     := rangeObj v; element := element v; virtualizer := virtualizer v;
     uniformVirtualizer := uniformVirtualizer v; isUniform := isUniform v;
     uniformSize := x; scrollMultiplier := scrollMultiplier v; lastStart :=
     lastStart v; lastEnd := lastEnd v; lastPaddingTop := lastPaddingTop v;
     rafId := rafId v; rafPending := rafPending v; wasmReady := wasmReady v
     |}.

Definition set_scrollMultiplier (x : Q)
  (v : Virtualizer) : Virtualizer :=
  {| isLoading := isLoading v; error := error v; range := range v; rangeObj
     := rangeObj v; element := element v; virtualizer := virtualizer v;
     uniformVirtualizer := uniformVirtualizer v; isUniform := isUniform v;
     uniformSize := uniformSize v; scrollMultiplier := x; lastStart :=
     lastStart v; lastEnd := lastEnd v; lastPaddingTop := lastPaddingTop v;
     rafId := rafId v; rafPending := rafPending v; wasmReady := wasmReady v
     |}.

Definition set_lastStart (x : Z)
  (v : Virtualizer) : Virtualizer :=
  {| isLoading := isLoading v; error := error v; range := range v; rangeObj
     := rangeObj v; element := element v; virtualizer := virtualizer v;
     uniformVirtualizer := uniformVirtualizer v; isUniform := isUniform v;
     uniformSize := uniformSize v; scrollMultiplier := scrollMultiplier v;
     lastStart := x; lastEnd := lastEnd v; lastPaddingTop := lastPaddingTop
     v; rafId := rafId v; rafPending := rafPending v; wasmReady := wasmReady
     v |}.

Definition set_lastEnd (x : Z)
  (v : Virtualizer) : Virtualizer :=
  {| isLoading := isLoading v; error := error v; range := range v; rangeObj
     := rangeObj v; element := element v; virtualizer := virtualizer v;
     uniformVirtualizer := uniformVirtualizer v; isUniform := isUniform v;
     uniformSize := uniformSize v; scrollMultiplier := scrollMultiplier v;
     lastStart := lastStart v; lastEnd := x; lastPaddingTop :=
     lastPaddingTop v; rafId := rafId v; rafPending := rafPending v;
     wasmReady := wasmReady v |}.

Definition set_lastPaddingTop (x : Q)
  (v : Virtualizer) : Virtualizer :=
  {| isLoading := isLoading v; error := error v; range := range v; rangeObj
     := rangeObj v; element := element v; virtualizer := virtualizer v;
     uniformVirtualizer := uniformVirtualizer v; isUniform := isUniform v;
     uniformSize := uniformSize v; scrollMultiplier := scrollMultiplier v;
     lastStart := lastStart v; lastEnd := lastEnd v; lastPaddingTop := x;
     rafId := rafId v; rafPending := rafPending v; wasmReady := wasmReady v
     |}.

Definition set_rafId (x : nat)
  (v : Virtualizer) : Virtualizer :=
  {| isLoading := isLoading v; error := error v; range := range v; rangeObj
     := rangeObj v; element := element v; virtualizer := virtualizer v;
     uniformVirtualizer := uniformVirtualizer v; isUniform := isUniform v;
     uniformSize := uniformSize v; scrollMultiplier := scrollMultiplier v;
     lastStart := lastStart v; lastEnd := lastEnd v; lastPaddingTop :=
     lastPaddingTop v; rafId := x; rafPending := rafPending v; wasmReady :=
     wasmReady v |}.

Definition set_rafPending (x : bool)
  (v : Virtualizer) : Virtualizer :=
  {| isLoading := isLoading v; error := error v; range := range v; rangeObj
     := rangeObj v; element := element v; virtualizer := virtualizer v;
     uniformVirtualizer := uniformVirtualizer v; isUniform := isUniform v;
     uniformSize := uniformSize v; scrollMultiplier := scrollMultiplier v;
     lastStart := lastStart v; lastEnd := lastEnd v; lastPaddingTop :=
     lastPaddingTop v; rafId := rafId v; rafPending := x; wasmReady :=
     wasmReady v |}.

Definition set_wasmReady (x : bool)
  (v : Virtualizer) : Virtualizer :=
  {| isLoading := isLoading v; error := error v; range := range v; rangeObj
     := rangeObj v; element := element v; virtualizer := virtualizer v;
     uniformVirtualizer := uniformVirtualizer v; isUniform := isUniform v;
     uniformSize := uniformSize v; scrollMultiplier := scrollMultiplier v;
     lastStart := lastStart v; lastEnd := lastEnd v; lastPaddingTop :=
     lastPaddingTop v; rafId := rafId v; rafPending := rafPending v;
     wasmReady := x |}.

Definition with_self (x : Virtualizer) (w : World) : World :=
  {| self := x; frames := frames w; nextFrame := nextFrame w; nextHandle :=
     nextHandle w; nextObj := nextObj w; trace := trace w |}.

Definition with_frames (x : list (nat * Callback)) (w : World) : World :=
  {| self := self w; frames := x; nextFrame := nextFrame w; nextHandle :=
     nextHandle w; nextObj := nextObj w; trace := trace w |}.

Definition with_nextFrame (x : nat) (w : World) : World :=
  {| self := self w; frames := frames w; nextFrame := x; nextHandle :=
     nextHandle w; nextObj := nextObj w; trace := trace w |}.

Definition with_nextHandle (x : nat) (w : World) : World :=
  {| self := self w; frames := frames w; nextFrame := nextFrame w;
     nextHandle := x; nextObj := nextObj w; trace := trace w |}.

Definition with_nextObj (x : nat) (w : World) : World :=
  {| self := self w; frames := frames w; nextFrame := nextFrame w;
     nextHandle := nextHandle w; nextObj := x; trace := trace w |}.

Definition with_trace (x : list Event) (w : World) : World :=
  {| self := self w; frames := frames w; nextFrame := nextFrame w;
     nextHandle := nextHandle w; nextObj := nextObj w; trace := x |}.


Definition assign (f : Virtualizer -> Virtualizer) (w : World) : World :=
  with_self (f (self w)) w.

Definition emit (e : Event) (w : World) : World :=
  with_trace (trace w ++ [e]) w.

Definition emits (es : list Event) (w : World) : World :=
  with_trace (trace w ++ es) w.

(** The state of a freshly constructed component (the field initialisers);
    the initial range object has identity 0, frame handles start at 1. *)
Definition initial : World :=
  {| self :=
       {| isLoading := true; error := None; range := emptyRange;
          rangeObj := O; element := None; virtualizer := None;
          uniformVirtualizer := None; isUniform := false;
          uniformSize := 0%Q; scrollMultiplier := 1%Q; lastStart := -1;
          lastEnd := -1; lastPaddingTop := 0%Q; rafId := O;
          rafPending := false; wasmReady := false |};
     frames := []; nextFrame := 1%nat; nextHandle := O; nextObj := 1%nat;
     trace := [] |}.

(** ** The frame scheduler of the platform *)

Definition requestAnimationFrame (cb : Callback) (w : World) : nat * World :=
  let id := nextFrame w in
  (id, emit (EvRequestFrame id cb)
         (with_nextFrame (S id) (with_frames (frames w ++ [(id, cb)]) w))).

Definition cancelAnimationFrame (id : nat) (w : World) : World :=
  emit (EvCancelFrame id)
    (with_frames (filter (fun f => negb (Nat.eqb (fst f) id)) (frames w)) w).

(** ** Coordinate remapping *)

(** [scrollPos * this.scrollMultiplier] (line 204) *)
Definition toVirtual (this : Virtualizer) (domOffset : Q) : Q :=
  (domOffset * scrollMultiplier this)%Q.

(** [offset / this.scrollMultiplier] (lines 240 and 336) *)
Definition toDom (this : Virtualizer) (virtualOffset : Q) : Q :=
  (virtualOffset / scrollMultiplier this)%Q.

(** Lines 132-136 and 174-178. *)
Definition multiplierFor (virtualTotalHeight : Q) : Q :=
  if JS.gtb virtualTotalHeight MAX_SAFE_SCROLL_HEIGHT
  then (virtualTotalHeight / MAX_SAFE_SCROLL_HEIGHT)%Q
  else 1%Q.

(** ** [calculateRange] *)

(** Lines 194-197: the scroll position and the viewport extent along the
    configured axis. *)
Definition readViewport (a : Args) (el : HTMLElement) : Q * Q :=
  let horizontal := JS.nullish (horizontal a) false in
  let scrollPos := if horizontal then scrollLeft el else scrollTop el in
  let viewportSize := if horizontal then clientWidth el else clientHeight el in
  (scrollPos, viewportSize).

(** Lines 209-227: the handle asked for the range and its answer, [None]
    when no handle is set. *)
Definition queryRange (this : Virtualizer)
  (virtualScroll viewportSize : Q) (overscan : Z) : option (nat * list Q) :=
  match (if isUniform this then uniformVirtualizer this else None) with
  | Some (h, u) =>
      Some (h, uniform_calc_range u virtualScroll viewportSize overscan)
  | None =>
      match virtualizer this with
      | Some (h, v) =>
          Some (h, variable_calc_range v virtualScroll viewportSize overscan)
      | None => None
      end
  end.

(** Lines 233-238: the virtual offset of the first item, with the engine
    call it makes. *)
Definition firstOffset (this : Virtualizer) (start : Z) : Q * list Event :=
  if isUniform this then (inject_Z start * uniformSize this, [])%Q
  else
    match virtualizer this with
    | Some (h, v) => (variable_get_offset v start, [EvGetOffset h start])
    | None => (0%Q, [])
    end.

(** The candidate of a recomputation (lines 204-240): the clamped [start]
    and [end], [firstItemVirtualOffset], [newPaddingTop], and the engine
    calls made to obtain them. *)
Record Candidate : Type := {
  c_start : Z;
  c_end : Z;
  c_firstOffset : Q;
  c_paddingTop : Q;
  c_calls : list Event
}.

Definition candidate (a : Args) (this : Virtualizer)
  (scrollPos viewportSize : Q) : option Candidate :=
  let overscan := JS.nullish (overscan a) 3 in
  let virtualScroll := toVirtual this scrollPos in
  match queryRange this virtualScroll viewportSize overscan with
  | None => None
  | Some (h, info) =>
      let start := JS.ToInt32 (nth 0 info 0%Q) in
      let end_ := JS.ToInt32 (nth 1 info 0%Q) in
      let totalCount := itemCount a in
      let start := Z.max 0 start in
      let end_ := Z.min totalCount end_ in
      let (firstItemVirtualOffset, calls) := firstOffset this start in
      Some {| c_start := start; c_end := end_;
              c_firstOffset := firstItemVirtualOffset;
              c_paddingTop := toDom this firstItemVirtualOffset;
              c_calls := EvCalcRange h :: calls |}
  end.

(** Lines 243-247: the skip rule. *)
Definition unchanged (this : Virtualizer) (c : Candidate) : bool :=
  (c_start c =? lastStart this) && (c_end c =? lastEnd this)
  && JS.ltb (Qabs (c_paddingTop c - lastPaddingTop this)) (1 # 2).

(** Lines 256-274: the three arrays of the visible items, with the engine
    calls made to fill them.  Both branches fill every slot; were neither
    taken the arrays would keep their length. *)
Definition visibleItems (this : Virtualizer) (start : Z) (n : nat)
  (firstItemVirtualOffset : Q) : list Z * list Q * list Q * list Event :=
  if isUniform this then
    let size := uniformSize this in
    (map (fun i => start + i) (JS.indices n),
     map (fun i => (inject_Z i * size)%Q) (JS.indices n),
     map (fun _ => size) (JS.indices n), [])
  else
    match virtualizer this with
    | Some (h, v) =>
        (map (fun i => start + i) (JS.indices n),
         map (fun i => (variable_get_offset v (start + i)
                        - firstItemVirtualOffset)%Q) (JS.indices n),
         map (fun i => variable_get_size v (start + i)) (JS.indices n),
         flat_map (fun i => [EvGetOffset h (start + i);
                             EvGetSize h (start + i)]) (JS.indices n))
    | None =>
        (map (fun _ => 0) (JS.indices n), map (fun _ => 0%Q) (JS.indices n),
         map (fun _ => 0%Q) (JS.indices n), [])
    end.

(** Lines 276-280: [totalHeight] before the clamp. *)
Definition contentHeight (this : Virtualizer) (totalCount : Z) :
  Q * list Event :=
  if isUniform this then
    ((inject_Z totalCount * uniformSize this) / scrollMultiplier this, [])%Q
  else
    match virtualizer this with
    | Some (h, v) =>
        ((variable_get_offset v totalCount / scrollMultiplier this)%Q,
         [EvGetOffset h totalCount])
    | None => (0%Q, [])
    end.

Definition calculateRange (env : Env) (w0 : World) : World * Outcome :=
  let w := emit EvRecompute w0 in
  let this := self w in
  match element this with
  | None => (w, NoElement)
  | Some el =>
      let (scrollPos, viewportSize) := readViewport (args env) (dom env el) in
      if Qle_bool viewportSize 0 then
        (snd (requestAnimationFrame CbRecompute w), Rescheduled)
      else
        match candidate (args env) this scrollPos viewportSize with
        | None => (w, NoHandle)
        | Some c =>
            let w := emits (c_calls c) w in
            if unchanged this c then (w, Skipped)
            else
              let w := assign (set_lastStart (c_start c)) w in
              let w := assign (set_lastEnd (c_end c)) w in
              let w := assign (set_lastPaddingTop (c_paddingTop c)) w in
              let visibleCount := c_end c - c_start c in
              match JS.new_Array visibleCount with
              | None => (emit EvRangeError w, Threw)
              | Some n =>
                  let '(items, offsets, sizes, fills) :=
                    visibleItems this (c_start c) n (c_firstOffset c) in
                  let (totalHeight, look) :=
                    contentHeight this (itemCount (args env)) in
                  let r :=
                    {| startIndex := c_start c; endIndex := c_end c;
                       items := items; offsets := offsets; sizes := sizes;
                       totalHeight :=
                         Qmin totalHeight MAX_SAFE_SCROLL_HEIGHT;
                       paddingTop := c_paddingTop c |} in
                  let obj := nextObj w in
                  let w := emits (fills ++ look) w in
                  let w := with_nextObj (S obj) w in
                  let w := assign (set_range obj r) w in
                  (emit (EvPublish obj r (itemCount (args env))) w,
                   Published)
              end
        end
  end.

(** ** [setupVirtualizer] *)

(** Lines 150-157: the loop [for (let i = 1; i < checkCount; i++)] started
    at [i] with [n] iterations left; the verdict and the indices at which
    the estimator was called. *)
Fixpoint sampleSizes (est : Z -> Q) (firstSize : Q) (n : nat) (i : Z) :
  bool * list Z :=
  match n with
  | O => (true, [])
  | S n' =>
      if negb (Qeq_bool (est i) firstSize) then (false, [i])
      else
        let (b, called) := sampleSizes est firstSize n' (i + 1) in
        (b, i :: called)
  end.

(** [createUniformVirtualizer(count, size)] and [createVirtualizer(sizes)]
    of [core/wasm.ts], called once the gateway is ready: a fresh handle. *)
Definition createUniformVirtualizer (count : Z) (size : Q) (w : World) :
  (nat * QuantumUniform) * World :=
  let h := nextHandle w in
  ((h, uniform_new count size),
   emit (EvCreateUniform h count size) (with_nextHandle (S h) w)).

Definition createVirtualizer (szs : list Q) (w : World) :
  (nat * QuantumVariable) * World :=
  let h := nextHandle w in
  ((h, variable_new szs),
   emit (EvCreateVariable h szs) (with_nextHandle (S h) w)).

(** Lines 168-169 (and 123-124): [sizes[i] = estimateSize(i)] for every
    index below [count]. *)
Definition allSizes (est : Z -> Q) (n : nat) : list Q :=
  map est (JS.indices n).

(** Lines 174-186: the multiplier, the end of loading and the first
    recomputation, requested for the next frame. *)
Definition finishSetup (virtualTotalHeight : Q) (w : World) : World :=
  let w := assign (set_scrollMultiplier (multiplierFor virtualTotalHeight)) w in
  let w := assign (set_isLoading false) w in
  snd (requestAnimationFrame CbAfterSetup w).

Definition setupVirtualizer (env : Env) (w : World) : World * Completion :=
  let count := itemCount (args env) in
  let est := estimateSize (args env) in
  let firstSize := est 0 in
  let w := emit (EvEstimate 0) w in
  let checkCount := Z.min 10 count in
  let (uniform, called) :=
    sampleSizes est firstSize (Z.to_nat (checkCount - 1)) 1 in
  let w := emits (map EvEstimate called) w in
  let w := assign (set_isUniform uniform) w in
  let w := assign (set_uniformSize firstSize) w in
  if uniform then
    let (handle, w) := createUniformVirtualizer count firstSize w in
    let w := assign (set_uniformVirtualizer (Some handle)) w in
    (finishSetup (inject_Z count * firstSize)%Q w, Normal)
  else
    match JS.new_Array count with
    | None => (emit EvRangeError w, Raised "Invalid array length")
    | Some n =>
        let szs := allSizes est n in
        let w := emits (map EvEstimate (JS.indices n)) w in
        let (handle, w) := createVirtualizer szs w in
        let w := assign (set_virtualizer (Some handle)) w in
        (finishSetup (JS.sum szs) w, Normal)
    end.

(** [initialize] after the [await]: the gateway promise was fulfilled, or
    rejected with [err]. *)
Definition initialize_fulfilled (env : Env) (w : World) : World :=
  let w := assign (set_wasmReady true) w in
  match setupVirtualizer env w with
  | (w, Normal) => w
  | (w, Raised err) =>
      assign (set_isLoading false) (assign (set_error (Some err)) w)
  end.

Definition initialize_rejected (err : string) (w : World) : World :=
  assign (set_isLoading false) (assign (set_error (Some err)) w).

(** ** [handleItemCountChange] *)

(** Lines 132-140: the multiplier for the new virtual height, and the
    tracking of the last range reset. *)
Definition resetTracking (virtualTotalHeight : Q) (w : World) : World :=
  let w := assign (set_scrollMultiplier (multiplierFor virtualTotalHeight)) w in
  let w := assign (set_lastStart (-1)) w in
  assign (set_lastEnd (-1)) w.

(** Line 119: the count of the uniform handle [h], updated in place. *)
Definition setCount (h : nat) (u : QuantumUniform) (count : Z) (w : World) :
  World :=
  let w := emit (EvSetCount h count) w in
  assign (set_uniformVirtualizer (Some (h, uniform_set_count u count))) w.

(** Lines 123-126: the variable handle [h] replaced by one built from the
    sizes of [n] items. *)
Definition rebuild (h : nat) (est : Z -> Q) (n : nat) (w : World) : World :=
  let szs := allSizes est n in
  let w := emits (map EvEstimate (JS.indices n)) w in
  let w := emit (EvFree h) w in
  let (handle, w) := createVirtualizer szs w in
  assign (set_virtualizer (Some handle)) w.

Definition handleItemCountChange (env : Env) (w : World) : World * Outcome :=
  let this := self w in
  if negb (wasmReady this) || isLoading this then (w, NotReady)
  else
    let count := itemCount (args env) in
    match (if isUniform this then uniformVirtualizer this else None) with
    | Some (h, u) =>
        let w := setCount h u count w in
        calculateRange env
          (resetTracking (inject_Z count * uniformSize this)%Q w)
    | None =>
        match virtualizer this with
        | Some (h, _) =>
            match JS.new_Array count with
            | None => (emit EvRangeError w, Threw)
            | Some n =>
                let est := estimateSize (args env) in
                let w := rebuild h est n w in
                calculateRange env
                  (resetTracking (JS.sum (allSizes est n)) w)
            end
        | None => (w, NoHandle)
        end
    end.

(** ** The scroll scheduler, the element modifier and teardown *)

Definition handleScroll (w : World) : World :=
  if rafPending (self w) then w
  else
    let w := assign (set_rafPending true) w in
    snd (requestAnimationFrame CbScrollStage1 w).

(** The body of a callback when its frame comes. *)
Definition runCallback (env : Env) (cb : Callback) (w : World) : World :=
  match cb with
  | CbAfterSetup =>
      match element (self w) with
      | Some _ => fst (calculateRange env w)
      | None => w
      end
  | CbRecompute => fst (calculateRange env w)
  | CbScrollStage1 =>
      let (id, w) := requestAnimationFrame CbScrollStage2 w in
      assign (set_rafId id) w
  | CbScrollStage2 =>
      let w := assign (set_rafPending false) w in
      fst (calculateRange env w)
  end.

(** One animation frame: the callbacks queued when the frame starts are run
    in order; one cancelled meanwhile is not run, one requested meanwhile
    waits for the next frame. *)
Fixpoint runFrame (env : Env) (batch : list (nat * Callback)) (w : World) :
  World :=
  match batch with
  | [] => w
  | (id, cb) :: rest =>
      if existsb (fun f => Nat.eqb (fst f) id) (frames w) then
        let w :=
          with_frames
            (filter (fun f => negb (Nat.eqb (fst f) id)) (frames w)) w in
        runFrame env rest (runCallback env cb w)
      else runFrame env rest w
  end.

Definition animationFrame (env : Env) (w : World) : World :=
  runFrame env (frames w) w.

(** The modifier [scrollElementRef] applied to [el], and its destructor. *)
Definition scrollElementRef (el : nat) (w : World) : World :=
  match element (self w) with
  | Some old =>
      if Nat.eqb old el then w
      else
        let w := assign (set_element (Some el)) w in
        if negb (isLoading (self w))
        then snd (requestAnimationFrame CbRecompute w) else w
  | None =>
      let w := assign (set_element (Some el)) w in
      if negb (isLoading (self w))
      then snd (requestAnimationFrame CbRecompute w) else w
  end.

Definition scrollElementRef_destructor (w : World) : World :=
  assign (set_element None) w.

Definition freeHandle {H : Type} (handle : option (nat * H)) (w : World) :
  World :=
  match handle with
  | Some (h, _) => emit (EvFree h) w
  | None => w
  end.

Definition willDestroy (w : World) : World :=
  let w := emit EvDestroy w in
  let w :=
    if Nat.eqb (rafId (self w)) 0 then w
    else cancelAnimationFrame (rafId (self w)) w in
  let w := freeHandle (virtualizer (self w)) w in
  let w := freeHandle (uniformVirtualizer (self w)) w in
  let w := assign (set_virtualizer None) w in
  assign (set_uniformVirtualizer None) w.

(** [scrollToIndex]: the DOM offset handed to [el.scrollTo], [None] without
    an element. *)
Definition scrollToIndex (index : Z) (this : Virtualizer) : option Q :=
  match element this with
  | None => None
  | Some _ =>
      let offset :=
        if isUniform this then (inject_Z index * uniformSize this)%Q
        else
          match virtualizer this with
          | Some (_, v) => variable_get_offset v index
          | None => 0%Q
          end in
      Some (toDom this offset)
  end.

(** ** Lifetimes *)

(** What can happen to a component.  The gateway promise settles once, while
    the component is loading; scroll events arrive only from the element the
    listener is attached to. *)
Inductive Action : Type :=
| WasmFulfilled
| WasmRejected (err : string)
| Install (el : nat)
| Uninstall
| ItemCountEffect
| ScrollEvent
| Frame
| Destroy.

Definition step (env : Env) (a : Action) (w : World) : World :=
  match a with
  | WasmFulfilled =>
      if isLoading (self w) then initialize_fulfilled env w else w
  | WasmRejected err =>
      if isLoading (self w) then initialize_rejected err w else w
  | Install el => scrollElementRef el w
  | Uninstall => scrollElementRef_destructor w
  | ItemCountEffect => fst (handleItemCountChange env w)
  | ScrollEvent =>
      match element (self w) with
      | Some _ => handleScroll w
      | None => w
      end
  | Frame => animationFrame env w
  | Destroy => willDestroy w
  end.

Fixpoint run (script : list (Env * Action)) (w : World) : World :=
  match script with
  | [] => w
  | (env, a) :: rest => run rest (step env a w)
  end.

(** ** Reading states and traces *)

(** The handle an engine call is made on. *)
Definition handleOf (e : Event) : option nat :=
  match e with
  | EvCreateUniform h _ _ | EvCreateVariable h _ | EvCalcRange h
  | EvGetOffset h _ | EvGetSize h _ | EvSetCount h _ | EvFree h => Some h
  | _ => None
  end.

Definition isFreeOf (h : nat) (e : Event) : bool :=
  match e with
  | EvFree h' => Nat.eqb h h'
  | _ => false
  end.

(** How often [free()] was called on handle [h]. *)
Definition frees (h : nat) (t : list Event) : nat :=
  List.length (filter (isFreeOf h) t).

(** No engine call, and no second [free()], on a handle after its
    [free()]. *)
Definition NoUseAfterFree (t : list Event) : Prop :=
  forall t1 h t2, t = t1 ++ EvFree h :: t2 ->
  forall e, In e t2 -> handleOf e <> Some h.

(** The component holds handle [h] in one of its two fields. *)
Definition holds (this : Virtualizer) (h : nat) : Prop :=
  (exists v, virtualizer this = Some (h, v))
  \/ (exists u, uniformVirtualizer this = Some (h, u)).

(** The invariant of handle lifetimes: the trace is free of use after
    free; every handle freed or held was allocated; a held handle was never
    freed; the two fields hold different handles. *)
Definition Alive (w : World) : Prop :=
  NoUseAfterFree (trace w)
  /\ (forall h, In (EvFree h) (trace w) -> (h < nextHandle w)%nat)
  /\ (forall h, holds (self w) h ->
        (h < nextHandle w)%nat /\ ~ In (EvFree h) (trace w))
  /\ (forall hv v hu u,
        virtualizer (self w) = Some (hv, v) ->
        uniformVirtualizer (self w) = Some (hu, u) -> hv <> hu).

(** The invariant of a published range, for the item count read when it
    was published. *)
Definition rangeOk (count : Z) (r : VirtualRange) : Prop :=
  0 <= startIndex r /\ startIndex r <= endIndex r /\ endIndex r <= count
  /\ Z.of_nat (List.length (items r)) = endIndex r - startIndex r
  /\ Z.of_nat (List.length (offsets r)) = endIndex r - startIndex r
  /\ Z.of_nat (List.length (sizes r)) = endIndex r - startIndex r.

(** What [calculateRange], called in world [w] and leaving [w'], may add to
    the trace. *)
Definition calcEvent (env : Env) (w w' : World) (e : Event) : Prop :=
  match e with
  | EvRecompute | EvRangeError | EvRequestFrame _ _ => True
  | EvCalcRange h | EvGetOffset h _ | EvGetSize h _ => holds (self w) h
  | EvPublish o r n =>
      n = itemCount (args env) /\ rangeOk n r /\ r = range (self w')
      /\ o = rangeObj (self w') /\ (exists h, holds (self w) h)
      /\ totalHeight r
         = Qmin (fst (contentHeight (self w) n)) MAX_SAFE_SCROLL_HEIGHT
  | _ => False
  end.

(** The indices the estimator was called with, in order. *)
Definition estimatedAt (t : list Event) : list Z :=
  flat_map (fun e => match e with
                     | EvEstimate i => [i]
                     | _ => []
                     end) t.

(** Every publication in the trace satisfies [P]. *)
Definition publishes (P : VirtualRange -> Z -> Prop) (e : Event) : Prop :=
  match e with
  | EvPublish _ r n => P r n
  | _ => True
  end.

(** The estimator returns [c] at each of the first [min(10, n)] indices of
    [n] items. *)
Definition sampledAs (n : Z) (c : Q) (env : Env) : Prop :=
  itemCount (args env) = n
  /\ forall i, 0 <= i < Z.min 10 n -> (estimateSize (args env) i == c)%Q.

(** No variable handle is held, and either no uniform handle is held or the
    component is on the uniform path with item size [c] and multiplier 1. *)
Definition onUniformPathOf (c : Q) (this : Virtualizer) : Prop :=
  virtualizer this = None
  /\ (uniformVirtualizer this = None
      \/ (isUniform this = true /\ (uniformSize this == c)%Q
          /\ scrollMultiplier this = 1%Q)).

Definition heightIsProduct (n : Z) (c : Q) (r : VirtualRange) (_ : Z) :
  Prop :=
  (totalHeight r == inject_Z n * c)%Q.

Definition uniformInvariant (n : Z) (c : Q) (w : World) : Prop :=
  onUniformPathOf c (self w)
  /\ Forall (publishes (heightIsProduct n c)) (trace w).

End WithEngine.

End Controller.

(** ** Estimators that throw *)

(** [Controller.Args] holds an estimator that returns a number at every
    index.  A caller may pass one that throws; [setupVirtualizer] calls it
    inside the [try] of [initialize].  This module has [setupVirtualizer]
    and [initialize] for such estimators; for one that always returns they
    are the definitions of [Controller] ([setupVirtualizer_of_total]). *)
Module Fallible.

Import Controller.

(** What a call [this.args.estimateSize(i)] does: it returns a number, or
    throws an error with a message. *)
Definition Estimator : Type := Z -> string + Q.

(** An estimator that returns at every index. *)
Definition total (est : Z -> Q) : Estimator := fun i => inr (est i).


(** Lines 150-157: the loop [for (let i = 1; i < checkCount; i++)] started
    at [i] with [n] iterations left: the verdict, or the message of the
    call that threw, and the indices at which the estimator was called. *)
Fixpoint sampleSizes (est : Estimator) (firstSize : Q) (n : nat) (i : Z) :
  (string + bool) * list Z :=
  match n with
  | O => (inr true, [])
  | S n' =>
      match est i with
      | inl msg => (inl msg, [i])
      | inr size =>
          if negb (Qeq_bool size firstSize) then (inr false, [i])
          else
            let (b, called) := sampleSizes est firstSize n' (i + 1) in
            (b, i :: called)
      end
  end.

(** Lines 168-169: [sizes[i] = estimateSize(i)] for the indices [l] in
    order, up to the first call that throws. *)
Fixpoint allSizes (est : Estimator) (l : list Z) :
  (string + list Q) * list Z :=
  match l with
  | [] => (inr [], [])
  | i :: rest =>
      match est i with
      | inl msg => (inl msg, [i])
      | inr size =>
          let (r, called) := allSizes est rest in
          (match r with
           | inl msg => inl msg
           | inr szs => inr (size :: szs)
           end, i :: called)
      end
  end.

Section WithEngine.

Context {E : Engine}.

(** Lines 145-187, with [count] for [this.count] and [est] for
    [this.args.estimateSize]. *)
Definition setupVirtualizer (count : Z) (est : Estimator) (w : World) :
  World * Completion :=
  let w := emit (EvEstimate 0) w in
  match est 0 with
  | inl msg => (w, Raised msg)
  | inr firstSize =>
      let checkCount := Z.min 10 count in
      let (sampled, called) :=
        sampleSizes est firstSize (Z.to_nat (checkCount - 1)) 1 in
      let w := emits (map EvEstimate called) w in
      match sampled with
      | inl msg => (w, Raised msg)
      | inr uniform =>
          let w := assign (set_isUniform uniform) w in
          let w := assign (set_uniformSize firstSize) w in
          if uniform then
            let (handle, w) := createUniformVirtualizer count firstSize w in
            let w := assign (set_uniformVirtualizer (Some handle)) w in
            (finishSetup (inject_Z count * firstSize)%Q w, Normal)
          else
            match JS.new_Array count with
            | None => (emit EvRangeError w, Raised "Invalid array length")
            | Some n =>
                let (filled, called) := allSizes est (JS.indices n) in
                let w := emits (map EvEstimate called) w in
                match filled with
                | inl msg => (w, Raised msg)
                | inr szs =>
                    let (handle, w) := createVirtualizer szs w in
                    let w := assign (set_virtualizer (Some handle)) w in
                    (finishSetup (JS.sum szs) w, Normal)
                end
            end
      end
  end.

(** Lines 98-107, after the [await]: the gateway promise was fulfilled.
    What [setupVirtualizer] throws is caught and becomes [this.error]. *)
Definition initialize_fulfilled (count : Z) (est : Estimator) (w : World) :
  World :=
  let w := assign (set_wasmReady true) w in
  match setupVirtualizer count est w with
  | (w, Normal) => w
  | (w, Raised err) =>
      assign (set_isLoading false) (assign (set_error (Some err)) w)
  end.

End WithEngine.

End Fallible.

(** ** The engine gateway, [core/wasm.ts] *)

Module Gateway.

Inductive WasmStatus : Type := idle | initializing | ready | error.

(** The imported bindings as far as [initializeWasm] uses them: what
    [get_version()] and [bench_uniform(10000, 1000)] do, a value or a throw. *)
Record WasmModule : Type := {
  get_version : string + string;   (* thrown error + version *)
  bench_uniform : option Q         (* [None]: it throws *)
}.

Record WasmPerformanceStats : Type := {
  initTime : Q;
  memoryUsage : Q;
  isOptimized : bool;
  version : string;
  opsPerSecond : Q
}.

Inductive PromiseState : Type :=
| Pending
| Fulfilled
| Rejected (err : string).

(** A suspended run of the async function of [initializeWasm]: the promise
    it will settle, its [startTime], and the [await] it is parked at. *)
Inductive Await : Type :=
| AwaitImport
| AwaitInit.

Record Task : Type := {
  t_promise : nat;
  t_startTime : Q;
  t_await : Await
}.

(** The module-level variables, the promises handed out so far, the
    suspended tasks and the number of [import()] calls started. *)
Record State : Type := {
  wasmModule : option WasmModule;
  wasmStatus : WasmStatus;
  wasmError : option string;
  initializationPromise : option nat;
  performanceStats : WasmPerformanceStats;
  promises : list (nat * PromiseState);
  tasks : list Task;
  loads : nat
}.

Definition initial : State :=
  {| wasmModule := None; wasmStatus := idle; wasmError := None;
     initializationPromise := None;
     performanceStats :=
       {| initTime := 0%Q; memoryUsage := 0%Q; isOptimized := false;
          version := "0.0.0"; opsPerSecond := 0%Q |};
     promises := []; tasks := []; loads := O |}.

Definition setStatus (status : WasmStatus) (err : option string)
  (g : State) : State :=
  {| wasmModule := wasmModule g; wasmStatus := status; wasmError := err;
     initializationPromise := initializationPromise g;
     performanceStats := performanceStats g; promises := promises g;
     tasks := tasks g; loads := loads g |}.

Definition set_initializationPromise (p : option nat) (g : State) : State :=
  {| wasmModule := wasmModule g; wasmStatus := wasmStatus g;
     wasmError := wasmError g; initializationPromise := p;
     performanceStats := performanceStats g; promises := promises g;
     tasks := tasks g; loads := loads g |}.

Definition set_wasmModule (m : option WasmModule) (g : State) : State :=
  {| wasmModule := m; wasmStatus := wasmStatus g; wasmError := wasmError g;
     initializationPromise := initializationPromise g;
     performanceStats := performanceStats g; promises := promises g;
     tasks := tasks g; loads := loads g |}.

Definition set_performanceStats (st : WasmPerformanceStats) (g : State) :
  State :=
  {| wasmModule := wasmModule g; wasmStatus := wasmStatus g;
     wasmError := wasmError g;
     initializationPromise := initializationPromise g;
     performanceStats := st; promises := promises g; tasks := tasks g;
     loads := loads g |}.

Definition set_promises (ps : list (nat * PromiseState)) (g : State) : State :=
  {| wasmModule := wasmModule g; wasmStatus := wasmStatus g;
     wasmError := wasmError g;
     initializationPromise := initializationPromise g;
     performanceStats := performanceStats g; promises := ps;
     tasks := tasks g; loads := loads g |}.

Definition set_tasks (ts : list Task) (g : State) : State :=
  {| wasmModule := wasmModule g; wasmStatus := wasmStatus g;
     wasmError := wasmError g;
     initializationPromise := initializationPromise g;
     performanceStats := performanceStats g; promises := promises g;
     tasks := ts; loads := loads g |}.

Definition set_loads (n : nat) (g : State) : State :=
  {| wasmModule := wasmModule g; wasmStatus := wasmStatus g;
     wasmError := wasmError g;
     initializationPromise := initializationPromise g;
     performanceStats := performanceStats g; promises := promises g;
     tasks := tasks g; loads := n |}.

(** Promises are numbered in the order of their creation. *)
Definition newPromise (st : PromiseState) (g : State) : nat * State :=
  let p := List.length (promises g) in
  (p, set_promises (promises g ++ [(p, st)]) g).

Definition promiseState (p : nat) (g : State) : option PromiseState :=
  option_map snd (find (fun e => Nat.eqb (fst e) p) (promises g)).

Definition settle (p : nat) (st : PromiseState) (g : State) : State :=
  set_promises
    (map (fun e => if Nat.eqb (fst e) p then (p, st) else e) (promises g)) g.

Definition status_eqb (a b : WasmStatus) : bool :=
  match a, b with
  | idle, idle | initializing, initializing | ready, ready
  | error, error => true
  | _, _ => false
  end.

(** [initializeWasm()], called when [performance.now()] reads [now]: the
    promise returned.  The async function runs up to its first [await], so
    the [import()] is started before [initializationPromise] is assigned. *)
Definition initializeWasm (now : Q) (g : State) : nat * State :=
  match initializationPromise g with
  | Some p => (p, g)
  | None =>
      if status_eqb (wasmStatus g) ready then newPromise Fulfilled g
      else
        let g := setStatus initializing None g in
        let startTime := now in
        let (p, g) := newPromise Pending g in
        let g := set_loads (S (loads g)) g in
        let g :=
          set_tasks
            (tasks g ++ [{| t_promise := p; t_startTime := startTime;
                            t_await := AwaitImport |}]) g in
        (p, set_initializationPromise (Some p) g)
  end.

Definition dropTask (p : nat) (g : State) : State :=
  set_tasks (filter (fun t => negb (Nat.eqb (t_promise t) p)) (tasks g)) g.

(** The [catch] block followed by [finally], for the task of promise [p]. *)
Definition failed (p : nat) (err : string) (g : State) : State :=
  let g := setStatus error (Some err) g in
  let g := set_initializationPromise None g in
  dropTask p (settle p (Rejected err) g).

(** The task parked at [await import(...)] resumes. *)
Definition importSettled (t : Task) (r : string + WasmModule) (g : State) :
  State :=
  match r with
  | inl err => failed (t_promise t) err g
  | inr bindings =>
      let g := set_wasmModule (Some bindings) g in
      set_tasks
        (map (fun t' =>
                if Nat.eqb (t_promise t') (t_promise t)
                then {| t_promise := t_promise t;
                        t_startTime := t_startTime t;
                        t_await := AwaitInit |}
                else t') (tasks g)) g
  end.

(** The task parked at [await wasmInit()] resumes at time [now]. *)
Definition initSettled (t : Task) (r : option string) (now : Q)
  (g : State) : State :=
  match r with
  | Some err => failed (t_promise t) err g
  | None =>
      let endTime := now in
      let st := performanceStats g in
      let st :=
        {| initTime := (endTime - t_startTime t)%Q;
           memoryUsage := memoryUsage st; isOptimized := true;
           version := version st; opsPerSecond := opsPerSecond st |} in
      let g := set_performanceStats st g in
      match wasmModule g with
      | None => failed (t_promise t) "TypeError" g
      | Some m =>
          match get_version m with
          | inl err => failed (t_promise t) err g
          | inr v =>
              let st :=
                {| initTime := initTime st; memoryUsage := memoryUsage st;
                   isOptimized := isOptimized st; version := v;
                   opsPerSecond :=
                     match bench_uniform m with
                     | Some ops => ops
                     | None => 0%Q
                     end |} in
              let g := set_performanceStats st g in
              let g := setStatus ready None g in
              let g := set_initializationPromise None g in
              dropTask (t_promise t) (settle (t_promise t) Fulfilled g)
          end
      end
  end.

(** What happens to the gateway: a caller calls [initializeWasm], or the
    awaited operation of the task of promise [p] settles. *)
Inductive Input : Type :=
| Call (now : Q)
| ImportSettles (p : nat) (r : string + WasmModule)
| InitSettles (p : nat) (r : option string) (now : Q).

Definition taskOf (p : nat) (g : State) : option Task :=
  find (fun t => Nat.eqb (t_promise t) p) (tasks g).

Definition step (i : Input) (g : State) : State :=
  match i with
  | Call now => snd (initializeWasm now g)
  | ImportSettles p r =>
      match taskOf p g with
      | Some t =>
          match t_await t with
          | AwaitImport => importSettled t r g
          | AwaitInit => g
          end
      | None => g
      end
  | InitSettles p r now =>
      match taskOf p g with
      | Some t =>
          match t_await t with
          | AwaitInit => initSettled t r now g
          | AwaitImport => g
          end
      | None => g
      end
  end.

Fixpoint run (script : list Input) (g : State) : State :=
  match script with
  | [] => g
  | i :: rest => run rest (step i g)
  end.

(** ** Reading gateway states *)

(** The in-flight marker and the suspended tasks agree: a marked promise is
    pending, it is the promise of the one suspended task, and the status is
    [initializing]; without a mark nothing is suspended and the status is
    not [initializing].  Promises are numbered consecutively. *)
Definition Consistent (g : State) : Prop :=
  map fst (promises g) = seq 0 (List.length (promises g))
  /\ match initializationPromise g with
     | Some p =>
         wasmStatus g = initializing
         /\ promiseState p g = Some Pending
         /\ exists t, tasks g = [t] /\ t_promise t = p
     | None => wasmStatus g <> initializing /\ tasks g = []
     end.

(** The initialization of promise [p] failed with [err]. *)
Definition failedWith (p : nat) (err : string) (g : State) : Prop :=
  wasmStatus g = error /\ wasmError g = Some err
  /\ initializationPromise g = None
  /\ promiseState p g = Some (Rejected err) /\ tasks g = [].

(** The initialization of promise [p] completed. *)
Definition succeeded (p : nat) (g : State) : Prop :=
  wasmStatus g = ready /\ wasmError g = None
  /\ initializationPromise g = None
  /\ promiseState p g = Some Fulfilled /\ tasks g = [].

(** A call started a fresh load whose promise is [q]. *)
Definition startedLoad (now : Q) (q : nat) (g g' : State) : Prop :=
  loads g' = S (loads g) /\ promiseState q g = None
  /\ promiseState q g' = Some Pending
  /\ initializationPromise g' = Some q /\ wasmStatus g' = initializing
  /\ tasks g' = [{| t_promise := q; t_startTime := now;
                   t_await := AwaitImport |}].

(** [getWasmModule]: the bindings, or the thrown error. *)
Definition getWasmModule (g : State) : string + WasmModule :=
  match wasmModule g with
  | Some m =>
      if status_eqb (wasmStatus g) ready then inr m
      else inl "WASM not initialized. Call initializeWasm() first."%string
  | None => inl "WASM not initialized. Call initializeWasm() first."%string
  end.

End Gateway.

(** ** A plain engine and a page, to exercise the controller *)

Module Probe.

Import Controller.

(** Prefix sums stand in for the engine's index structure. *)
Definition offsetOf (szs : list Q) (i : Z) : Q :=
  JS.sum (firstn (Z.to_nat i) szs).

Definition uniformRange (count : Z) (size scroll viewport : Q)
  (overscan : Z) : list Q :=
  let first := Qfloor (scroll / size) in
  let last := Qceiling ((scroll + viewport) / size) in
  let start := Z.min count (Z.max 0 (first - overscan)) in
  [inject_Z start; inject_Z (Z.max start (Z.min count (last + overscan)))].

Definition variableRange (szs : list Q) (scroll viewport : Q)
  (overscan : Z) : list Q :=
  let count := List.length szs in
  let before :=
    filter (fun i => Qle_bool (offsetOf szs (i + 1)) scroll)
      (JS.indices count) in
  let upto :=
    filter (fun i => JS.ltb (offsetOf szs i) (scroll + viewport))
      (JS.indices count) in
  [inject_Z (Z.max 0 (Z.of_nat (List.length before) - overscan));
   inject_Z (Z.min (Z.of_nat count)
               (Z.of_nat (List.length upto) + overscan))].

Definition engine : Engine :=
  {| QuantumUniform := Z * Q;
     QuantumVariable := list Q;
     uniform_new := fun count size => (count, size);
     uniform_calc_range := fun u => uniformRange (fst u) (snd u);
     uniform_set_count := fun u count => (count, snd u);
     variable_new := fun szs => szs;
     variable_calc_range := variableRange;
     variable_get_offset := offsetOf;
     variable_get_size := fun szs i => nth (Z.to_nat i) szs 0%Q |}.

(** An engine that answers every range query with the inverted pair
    [(5, 3)]. *)
Definition inverted : Engine :=
  {| QuantumUniform := Z * Q;
     QuantumVariable := list Q;
     uniform_new := fun count size => (count, size);
     uniform_calc_range := fun _ _ _ _ => [5%Q; 3%Q];
     uniform_set_count := fun u count => (count, snd u);
     variable_new := fun szs => szs;
     variable_calc_range := fun _ _ _ _ => [5%Q; 3%Q];
     variable_get_offset := offsetOf;
     variable_get_size := fun szs i => nth (Z.to_nat i) szs 0%Q |}.

(** A page whose elements are all 400 pixels high and wide and scrolled to
    [pos]. *)
Definition page (pos : Q) : nat -> HTMLElement :=
  fun _ => {| scrollLeft := pos; scrollTop := pos;
              clientWidth := 400%Q; clientHeight := 400%Q |}.

(** A page not laid out yet. *)
Definition blank : nat -> HTMLElement :=
  fun _ => {| scrollLeft := 0%Q; scrollTop := 0%Q;
              clientWidth := 0%Q; clientHeight := 0%Q |}.

Definition rows (count : Z) (est : Z -> Q) : Args :=
  {| itemCount := count; estimateSize := est; overscan := None;
     horizontal := None |}.

Definition fixed (c : Q) : Z -> Q := fun _ => c.

Definition alternating : Z -> Q :=
  fun i => if Z.even i then 40%Q else 60%Q.

Definition at_ (a : Args) (pos : Q) : Env :=
  {| args := a; dom := page pos |}.

(** The surroundings used below: lists of rows 50 pixels high on a page
    scrolled to the top, a striped list, and a list on a blank page. *)
Definition e1000 : Env := at_ (rows 1000 (fixed 50)) 0.
Definition e2000 : Env := at_ (rows 2000 (fixed 50)) 0.
Definition eMillion : Env := at_ (rows 1000000 (fixed 50)) 0.
Definition eEmpty : Env := at_ (rows 0 (fixed 50)) 0.
Definition eStripes : Env := at_ (rows 20 alternating) 0.
Definition eStripes30 : Env := at_ (rows 30 alternating) 0.
Definition eBlank : Env := {| args := rows 1000 (fixed 50); dom := blank |}.

(** A component mounted on element 7 whose engine became ready and whose
    first frame has run. *)
Definition mounted : list (Env * Action) :=
  [(e1000, Install 7%nat); (e1000, WasmFulfilled); (e1000, Frame)].

Definition mountedWorld : World (E := engine) := run mounted initial.

(** The range it published, and the candidate a recomputation there arrives
    at again. *)
Definition firstRange : VirtualRange :=
  Eval vm_compute in range (self (run (E := engine) mounted initial)).

Definition sameCandidate : Candidate :=
  {| c_start := 0; c_end := 11; c_firstOffset := 0%Q; c_paddingTop := 0%Q;
     c_calls := [EvCalcRange 0] |}.

(** The same component after a scroll event, before and after the first
    stage of the scheduler has run. *)
Definition scrolled : list (Env * Action) :=
  mounted ++ [(e1000, ScrollEvent)].

Definition scrolledOnce : list (Env * Action) :=
  scrolled ++ [(e1000, Frame)].

(** A striped list mounted, and a list mounted on a blank page. *)
Definition mountedStripes : list (Env * Action) :=
  [(eStripes, Install 7%nat); (eStripes, WasmFulfilled); (eStripes, Frame)].

Definition mountedBlank : list (Env * Action) :=
  [(eBlank, Install 7%nat); (eBlank, WasmFulfilled)].

(** Gateway scripts: a call; a call whose import fails. *)
Definition calling : list Gateway.Input := [Gateway.Call 0%Q].

Definition failing : list Gateway.Input :=
  [Gateway.Call 0%Q; Gateway.ImportSettles 0 (inl "network"%string)].

Definition bindings : Gateway.WasmModule :=
  {| Gateway.get_version := inr "1.0.0"%string;
     Gateway.bench_uniform := Some 1000000%Q |}.

Definition loaded : list Gateway.Input :=
  [Gateway.Call 0%Q; Gateway.ImportSettles 0 (inr bindings);
   Gateway.InitSettles 0 None 12%Q].

End Probe.

(** ** Reading lifetimes: the predicates of the further properties *)

Module Invariants.

Import Controller.

(** The items of a range are the consecutive indices from [startIndex] up
    to [endIndex]. *)
Definition consecutive (r : VirtualRange) : Prop :=
  items r
  = map (fun i => startIndex r + i)
      (JS.indices (Z.to_nat (endIndex r - startIndex r))).

(** The first offset of a range, when there is one, is 0. *)
Definition anchored (r : VirtualRange) : Prop :=
  forall o, nth_error (offsets r) 0 = Some o -> (o == 0)%Q.

(** The height of a range is within the safe scroll height. *)
Definition capped (r : VirtualRange) : Prop :=
  (totalHeight r <= MAX_SAFE_SCROLL_HEIGHT)%Q.

(** An event that involves neither the estimator nor the engine nor the
    tracked range: an entry into [calculateRange], a call of the frame
    scheduler, the teardown. *)
Definition quietEvent (e : Event) : Prop :=
  match e with
  | EvRecompute | EvRequestFrame _ _ | EvCancelFrame _ | EvDestroy => True
  | _ => False
  end.

(** The component has done nothing yet: it holds the initial range and no
    handle, and its trace is quiet. *)
Definition dormant {E : Engine} (w : World) : Prop :=
  range (self w) = emptyRange /\ rangeObj (self w) = O
  /\ virtualizer (self w) = None /\ uniformVirtualizer (self w) = None
  /\ Forall quietEvent (trace w).




(** No call on a handle and no publication. *)
Definition engineFree (e : Event) : Prop :=
  handleOf e = None /\ publishes (fun _ _ => False) e.

(** The estimator was called at most ten times, and no variable handle is
    held. *)
Definition sampledOnly {E : Engine} (w : World) : Prop :=
  virtualizer (self w) = None
  /\ (List.length (estimatedAt (trace w)) <= 10)%nat.

(** The two callbacks of [handleScroll]. *)
Definition isScrollCallback (cb : Callback) : bool :=
  match cb with
  | CbScrollStage1 | CbScrollStage2 => true
  | _ => false
  end.

(** How many callbacks of the scroll scheduler are queued. *)
Definition scheduled (fs : list (nat * Callback)) : nat :=
  List.length (filter (fun f => isScrollCallback (snd f)) fs).

(** [dequeue id w]: the callback of frame handle [id] leaves the queue. *)
Definition dequeue {E : Engine} (id : nat) (w : World) : World :=
  with_frames (filter (fun f => negb (Nat.eqb (fst f) id)) (frames w)) w.

(** The queue and the latch agree.  Frame handles are distinct and older
    than the next one; at most one scroll callback is queued, and none
    when the latch is clear; while the component is [live] (not torn down),
    a set latch has its callback queued. *)
Definition Coalesced {E : Engine} (live : bool) (w : World) : Prop :=
  NoDup (map fst (frames w))
  /\ (forall f, In f (frames w) -> (fst f < nextFrame w)%nat)
  /\ (scheduled (frames w) <= 1)%nat
  /\ (rafPending (self w) = false -> scheduled (frames w) = O)
  /\ (live = true -> rafPending (self w) = true ->
      scheduled (frames w) = 1%nat).

(** [w'] has the latch of [w] and its queue, with at most one callback
    added that is not of the scroll scheduler. *)
Definition appended {E : Engine} (w w' : World) : Prop :=
  rafPending (self w') = rafPending (self w)
  /\ ((frames w' = frames w /\ nextFrame w' = nextFrame w)
      \/ exists cb, isScrollCallback cb = false
                    /\ frames w' = frames w ++ [(nextFrame w, cb)]
                    /\ nextFrame w' = S (nextFrame w)).

(** The callbacks of a frame's batch are still the ones queued under their
    handles, and their handles are older than the next one. *)
Definition batchOk {E : Engine} (batch : list (nat * Callback)) (w : World) :
  Prop :=
  forall id cb, In (id, cb) batch ->
    (id < nextFrame w)%nat
    /\ forall cb', In (id, cb') (frames w) -> cb' = cb.

(** [w'] queues nothing of [w] anew: its callbacks are those of [w] or
    have younger handles. *)
Definition later {E : Engine} (w w' : World) : Prop :=
  (nextFrame w <= nextFrame w')%nat
  /\ forall f, In f (frames w') ->
       In f (frames w) \/ (nextFrame w <= fst f)%nat.

(** The range objects assigned to [this.range], oldest first, each with
    its identity. *)
Definition publications (t : list Event) : list (nat * VirtualRange) :=
  flat_map (fun e => match e with
                     | EvPublish o r _ => [(o, r)]
                     | _ => []
                     end) t.

(** The identities in [l] increase strictly and are at least [lo]. *)
Fixpoint increasingFrom (lo : nat) (l : list nat) : Prop :=
  match l with
  | [] => True
  | x :: l' => (lo <= x)%nat /\ increasingFrom (S x) l'
  end.

(** The range objects are numbered in the order of their publication, all
    are older than the next one allocated, and the component holds the
    last of them, or the initial range when there is none. *)
Definition Fresh {E : Engine} (w : World) : Prop :=
  increasingFrom 1 (map fst (publications (trace w)))
  /\ Forall (fun o => (o < nextObj w)%nat) (map fst (publications (trace w)))
  /\ (1 <= nextObj w)%nat
  /\ (rangeObj (self w), range (self w))
     = last (publications (trace w)) (O, emptyRange).

End Invariants.

(** ** The other exports of [core/wasm.ts] *)

Module Exports.

(** [WasmStatusInfo] *)
Record WasmStatusInfo : Type := {
  status : Gateway.WasmStatus;
  error : option string;
  initTime : Q;
  memoryUsage : Q;
  isOptimized : bool;
  version : string;
  opsPerSecond : Q
}.

(** [getWasmStatus] (lines 155-159): the status, the error and the
    performance statistics spread into one object. *)
Definition getWasmStatus (g : Gateway.State) : WasmStatusInfo :=
  {| status := Gateway.wasmStatus g;
     error := Gateway.wasmError g;
     initTime := Gateway.initTime (Gateway.performanceStats g);
     memoryUsage := Gateway.memoryUsage (Gateway.performanceStats g);
     isOptimized := Gateway.isOptimized (Gateway.performanceStats g);
     version := Gateway.version (Gateway.performanceStats g);
     opsPerSecond := Gateway.opsPerSecond (Gateway.performanceStats g) |}.

(** [get_version] (lines 161-164): what [getWasmModule] throws, or what the
    bindings' [get_version()] does. *)
Definition get_version (g : Gateway.State) : string + string :=
  match Gateway.getWasmModule g with
  | inl err => inl err
  | inr wasm => Gateway.get_version wasm
  end.

Section WithEngine.

Context {E : Engine}.

(** [createVirtualizer] (lines 141-145) and [createUniformVirtualizer]
    (lines 147-153): what [getWasmModule] throws, or a new engine object. *)
Definition createVirtualizer (szs : list Q) (g : Gateway.State) :
  string + QuantumVariable :=
  match Gateway.getWasmModule g with
  | inl err => inl err
  | inr _ => inr (variable_new szs)
  end.

Definition createUniformVirtualizer (count : Z) (size : Q)
  (g : Gateway.State) : string + QuantumUniform :=
  match Gateway.getWasmModule g with
  | inl err => inl err
  | inr _ => inr (uniform_new count size)
  end.

End WithEngine.

(** The gateway is sound: it is consistent; it holds an error exactly with
    the status [error]; with the status [ready] it holds the bindings, and
    the statistics are theirs; a fulfilled promise was handed out only with
    the status [ready]; with the status [idle] nothing was ever loaded. *)
Definition Sound (g : Gateway.State) : Prop :=
  Gateway.Consistent g
  /\ match Gateway.wasmError g with
     | Some _ => Gateway.wasmStatus g = Gateway.error
     | None => Gateway.wasmStatus g <> Gateway.error
     end
  /\ (Gateway.wasmStatus g = Gateway.ready ->
      exists m v,
        Gateway.wasmModule g = Some m /\ Gateway.get_version m = inr v
        /\ Gateway.version (Gateway.performanceStats g) = v
        /\ Gateway.isOptimized (Gateway.performanceStats g) = true
        /\ Gateway.opsPerSecond (Gateway.performanceStats g)
           = match Gateway.bench_uniform m with
             | Some ops => ops
             | None => 0%Q
             end)
  /\ (forall p, Gateway.promiseState p g = Some Gateway.Fulfilled ->
                Gateway.wasmStatus g = Gateway.ready)
  /\ (Gateway.wasmStatus g = Gateway.idle ->
      Gateway.loads g = O /\ Gateway.wasmModule g = None
      /\ Gateway.performanceStats g
         = Gateway.performanceStats Gateway.initial).

End Exports.

(** ** The components that render the range,
    [components/warper-component.gts] *)

Module Rendering.

Import Controller.

(** [array[index]] *)
Definition at_index {A : Type} (l : list A) (index : Z) : option A :=
  if index <? 0 then None else nth_error l (Z.to_nat index).

(** [a ?? b] where [b] may itself be [undefined] *)
Definition orElse {A : Type} (a b : option A) : option A :=
  match a with
  | Some _ => a
  | None => b
  end.

(** The numbers [rowStyleAt] writes into the style of a row:
    [translateY(${offset}px)] and [height:${size}px]. *)
Record RowStyle : Type := {
  translateY : Q;
  height : Q
}.

(** What a row yields as its item: in items mode [items[index]], which is
    [undefined] beyond the array; otherwise the index itself. *)
Inductive Yielded (T : Type) : Type :=
| Item (x : option T)
| Index (i : Z).

Arguments Item {T} x.
Arguments Index {T} i.

(** What [WarperComponent] shows inside the scroll container. *)
Inductive View : Type :=
| ErrorBlock (err : string)
| LoadingBlock
| Rows (r : VirtualRange).

Section Core.

Context {T : Type}.

(** [WarperComponent.itemCount] (lines 101-103):
    [this.args.itemCount ?? this.args.items?.length ?? 0]. *)
Definition itemCount (itemCountArg : option Z) (items : option (list T)) : Z :=
  JS.nullish
    (orElse itemCountArg
       (option_map (fun l => Z.of_nat (List.length l)) items))
    0.

(** [WarperCoreComponent.isItemsMode] (lines 48-50) *)
Definition isItemsMode (items : option (list T)) : bool :=
  match items with
  | Some _ => true
  | None => false
  end.

(** [WarperCoreComponent.getItem] (lines 52-57) *)
Definition getItem (items : option (list T)) (index : Z) : Yielded T :=
  if isItemsMode items then Item (at_index (JS.nullish items []) index)
  else Index index.

(** [WarperCoreComponent.rowStyleAt] (lines 40-46) *)
Definition rowStyleAt (r : VirtualRange) (i : nat) : RowStyle :=
  let offset := JS.nullish (nth_error (offsets r) i) 0%Q in
  let size := JS.nullish (nth_error (sizes r) i) 0%Q in
  {| translateY := offset; height := size |}.

(** [WarperCoreComponent.innerStyle] (lines 26-31): the height written,
    [this.args.range.totalHeight || 1]. *)
Definition innerHeight (r : VirtualRange) : Q :=
  if Qeq_bool (totalHeight r) 0 then 1%Q else totalHeight r.

(** The rows of the template (lines 62-66): for each entry [index] of
    [@range.items], at position [i], a row styled by [rowStyleAt i] that
    yields [getItem index] and [index]. *)
Definition rows (r : VirtualRange) (items : option (list T)) :
  list (RowStyle * Yielded T * Z) :=
  map (fun p => (rowStyleAt r (fst p), getItem items (snd p), snd p))
    (combine (seq 0 (List.length (Controller.items r))) (Controller.items r)).

End Core.

(** The template of [WarperComponent] (lines 120-146): the error block
    when there is an error, else the loading block while loading, else the
    rows of the range. *)
Definition view {E : Engine} (this : Virtualizer) : View :=
  match error this with
  | Some err => ErrorBlock err
  | None => if isLoading this then LoadingBlock else Rows (range this)
  end.

End Rendering.

(** ** Further scripts, to exercise the properties of lifetimes *)

Module Trial.

Import Controller.
Import Probe.

(** A component attached and scrolled while its engine is still loading. *)
Definition waiting : list (Env * Action) :=
  [(e1000, Install 7%nat); (e1000, ScrollEvent); (e1000, Frame);
   (e1000, ItemCountEffect)].

(** What may happen to a component after its load or its setup failed. *)
Definition afterwards : list (Env * Action) :=
  [(e1000, Frame); (e1000, ItemCountEffect); (e1000, ScrollEvent);
   (e1000, Frame); (e1000, Frame)].

(** A striped list of [2^32] rows: no valid array length. *)
Definition eHuge : Env := at_ (rows (2 ^ 32) alternating) 0.


(** An array of a thousand items. *)
Definition thousandItems : list nat := seq 0 1000.

(** Calls and settlements that reach a gateway after it became ready. *)
Definition lateInputs : list Gateway.Input :=
  [Gateway.Call 20%Q; Gateway.ImportSettles 0 (inl "late"%string);
   Gateway.InitSettles 1 (Some "late"%string) 21%Q; Gateway.Call 22%Q].

End Trial.

(** * Properties *)

Import Controller.

(** ** Numbers *)

Lemma ltb_lt (x y : Q) : JS.ltb x y = true <-> (x < y)%Q.
Proof.
  unfold JS.ltb. rewrite negb_true_iff. split; intro H.
  - apply Qnot_le_lt. intro L. apply Qle_bool_iff in L. congruence.
  - destruct (Qle_bool y x) eqn:L; [|reflexivity].
    apply Qle_bool_iff in L. exfalso. exact (Qlt_not_le _ _ H L).
Qed.

Lemma ltb_ge (x y : Q) : JS.ltb x y = false <-> (y <= x)%Q.
Proof.
  unfold JS.ltb. rewrite negb_false_iff. apply Qle_bool_iff.
Qed.

Lemma multiplierFor_small (v : Q) :
  (v <= MAX_SAFE_SCROLL_HEIGHT)%Q -> multiplierFor v = 1%Q.
Proof.
  intro H. unfold multiplierFor, JS.gtb.
  apply ltb_ge in H. rewrite H. reflexivity.
Qed.

Lemma multiplierFor_large (v : Q) :
  (MAX_SAFE_SCROLL_HEIGHT < v)%Q ->
  multiplierFor v = (v / MAX_SAFE_SCROLL_HEIGHT)%Q.
Proof.
  intro H. unfold multiplierFor, JS.gtb.
  apply ltb_lt in H. rewrite H. reflexivity.
Qed.

Lemma multiplierFor_ge_1 (v : Q) : (1 <= multiplierFor v)%Q.
Proof.
  unfold multiplierFor, JS.gtb.
  destruct (JS.ltb MAX_SAFE_SCROLL_HEIGHT v) eqn:H.
  - apply ltb_lt in H. apply Qle_shift_div_l.
    + reflexivity.
    + rewrite Qmult_1_l. apply Qlt_le_weak. exact H.
  - apply Qle_refl.
Qed.

Lemma new_Array_Some (n : Z) (k : nat) :
  JS.new_Array n = Some k -> 0 <= n /\ Z.of_nat k = n.
Proof.
  unfold JS.new_Array. destruct (0 <=? n) eqn:H0; cbn [andb]; [|discriminate].
  destruct (n <? 2 ^ 32); [|discriminate]. intro H. inversion H.
  apply Z.leb_le in H0. split; [exact H0 | apply Z2Nat.id; exact H0].
Qed.

Lemma indices_length (n : nat) : List.length (JS.indices n) = n.
Proof. unfold JS.indices. rewrite length_map, length_seq. reflexivity. Qed.

(** ** The effect of [calculateRange] *)

Ltac norm :=
  cbn [self frames nextFrame nextHandle nextObj trace
       isLoading error range rangeObj element virtualizer uniformVirtualizer
       isUniform uniformSize scrollMultiplier lastStart lastEnd
       lastPaddingTop rafId rafPending wasmReady
       set_isLoading set_error set_range set_element set_virtualizer
       set_uniformVirtualizer set_isUniform set_uniformSize
       set_scrollMultiplier set_lastStart set_lastEnd set_lastPaddingTop
       set_rafId set_rafPending set_wasmReady
       with_self with_frames with_nextFrame with_nextHandle with_nextObj
       with_trace assign emit emits requestAnimationFrame
       cancelAnimationFrame freeHandle fst snd] in *.

Section CalculateRange.

Context {E : Engine}.

Lemma visibleItems_length (this : Virtualizer) start n off its offs szs fills :
  visibleItems this start n off = (its, offs, szs, fills) ->
  List.length its = n /\ List.length offs = n /\ List.length szs = n.
Proof.
  unfold visibleItems.
  destruct (isUniform this); [|destruct (virtualizer this) as [[h v]|]];
    intro H; inversion H; subst; rewrite !length_map, !indices_length; auto.
Qed.

Lemma visibleItems_calls (w w' : World) env start n off its offs szs fills :
  visibleItems (self w) start n off = (its, offs, szs, fills) ->
  Forall (calcEvent env w w') fills.
Proof.
  unfold visibleItems.
  destruct (isUniform (self w)).
  - intro H. inversion H. constructor.
  - destruct (virtualizer (self w)) as [[h v]|] eqn:Hv;
      intro H; inversion H; [|constructor].
    apply Forall_flat_map. apply Forall_forall. intros i _.
    assert (Hh : holds (self w) h) by (left; exists v; exact Hv).
    apply Forall_cons; [exact Hh|].
    apply Forall_cons; [exact Hh|apply Forall_nil].
Qed.

Lemma contentHeight_calls (w w' : World) env n :
  Forall (calcEvent env w w') (snd (contentHeight (self w) n)).
Proof.
  unfold contentHeight.
  destruct (isUniform (self w)); [constructor|].
  destruct (virtualizer (self w)) as [[h v]|] eqn:Hv; [|constructor].
  apply Forall_cons; [|apply Forall_nil].
  left. exists v. exact Hv.
Qed.

Lemma candidate_bounds a (this : Virtualizer) sp vp c :
  candidate a this sp vp = Some c -> 0 <= c_start c /\ c_end c <= itemCount a.
Proof.
  unfold candidate.
  destruct (queryRange _ _ _ _) as [[h info]|]; [|discriminate].
  destruct (firstOffset _ _). intro H. inversion H. cbn. lia.
Qed.

Lemma candidate_calls (w w' : World) env sp vp c :
  candidate (args env) (self w) sp vp = Some c ->
  Forall (calcEvent env w w') (c_calls c).
Proof.
  unfold candidate, queryRange, firstOffset.
  destruct (isUniform (self w)) eqn:Hu.
  - destruct (uniformVirtualizer (self w)) as [[h u]|] eqn:Hh.
    + intro H. inversion H. cbn [c_calls].
      apply Forall_cons; [|apply Forall_nil].
      right. exists u. exact Hh.
    + destruct (virtualizer (self w)) as [[h v]|] eqn:Hv; [|discriminate].
      intro H. inversion H. cbn [c_calls].
      apply Forall_cons; [|apply Forall_nil].
      left. exists v. exact Hv.
  - destruct (virtualizer (self w)) as [[h v]|] eqn:Hv; [|discriminate].
    intro H. inversion H. cbn [c_calls].
    assert (Hh : holds (self w) h) by (left; exists v; exact Hv).
    apply Forall_cons; [exact Hh|].
    apply Forall_cons; [exact Hh|apply Forall_nil].
Qed.

Lemma candidate_holds a (this : Virtualizer) sp vp c :
  candidate a this sp vp = Some c -> exists h, holds this h.
Proof.
  unfold candidate, queryRange. intro H.
  destruct (isUniform this).
  - destruct (uniformVirtualizer this) as [[h u]|] eqn:Hh.
    + exists h. right. exists u. exact Hh.
    + destruct (virtualizer this) as [[h v]|] eqn:Hv; [|discriminate].
      exists h. left. exists v. exact Hv.
  - destruct (virtualizer this) as [[h v]|] eqn:Hv; [|discriminate].
    exists h. left. exists v. exact Hv.
Qed.

(** [calculateRange] only adds to the trace, and what it adds are calls on
    handles the component holds and at most sound publications. *)
Lemma calculateRange_trace env (w : World) :
  exists evs,
    trace (fst (calculateRange env w)) = trace w ++ evs
    /\ Forall (calcEvent env w (fst (calculateRange env w))) evs.
Proof.
  unfold calculateRange. norm.
  destruct (element (self w)) as [el|];
    [|exists [EvRecompute]; split;
      [reflexivity|apply Forall_cons; [exact I|apply Forall_nil]]].
  destruct (readViewport _ _) as [sp vp].
  destruct (Qle_bool vp 0).
  { norm. eexists. rewrite <- app_assoc. split; [reflexivity|].
    apply Forall_cons; [exact I|].
    apply Forall_cons; [exact I|apply Forall_nil]. }
  destruct (candidate _ _ _ _) as [c|] eqn:Hc;
    [|exists [EvRecompute]; split;
      [reflexivity|apply Forall_cons; [exact I|apply Forall_nil]]].
  destruct (unchanged _ _).
  { norm. eexists. rewrite <- app_assoc. split; [reflexivity|].
    constructor; [exact I|]. eapply candidate_calls; eassumption. }
  destruct (JS.new_Array _) as [n|] eqn:Hn.
  - destruct (visibleItems _ _ _ _) as [[[its offs] szs] fills] eqn:Hv.
    destruct (contentHeight _ _) as [th look] eqn:Hh.
    norm. eexists. rewrite <- !app_assoc. split; [reflexivity|].
    constructor; [exact I|].
    apply Forall_app. split; [eapply candidate_calls; eassumption|].
    apply Forall_app. split.
    { eapply (visibleItems_calls w). exact Hv. }
    apply Forall_app. split.
    { match goal with
      | |- Forall (calcEvent _ _ ?w') _ =>
          pose proof (contentHeight_calls w w' env (itemCount (args env)))
            as Hl
      end.
      rewrite Hh in Hl. exact Hl. }
    apply Forall_cons; [|apply Forall_nil]. cbn [calcEvent]. norm.
    rewrite Hh. cbn [fst totalHeight].
    pose proof (candidate_holds _ _ _ _ _ Hc) as Hheld.
    apply candidate_bounds in Hc. apply new_Array_Some in Hn.
    apply visibleItems_length in Hv. destruct Hv as (H1 & H2 & H3).
    unfold rangeOk. cbn [startIndex endIndex items offsets sizes].
    rewrite H1, H2, H3.
    repeat split; try reflexivity; try exact Hheld; lia.
  - norm. eexists. rewrite <- !app_assoc. split; [reflexivity|].
    constructor; [exact I|].
    apply Forall_app. split; [eapply candidate_calls; eassumption|].
    apply Forall_cons; [exact I|apply Forall_nil].
Qed.
End CalculateRange.

Section CalculateRangeFrame.

Context {E : Engine}.

(** [calculateRange] leaves the handles, the path, the multiplier, the
    element and the readiness flags as they are. *)
Lemma calculateRange_static env (w : World) :
  let w' := fst (calculateRange env w) in
  virtualizer (self w') = virtualizer (self w)
  /\ uniformVirtualizer (self w') = uniformVirtualizer (self w)
  /\ isUniform (self w') = isUniform (self w)
  /\ uniformSize (self w') = uniformSize (self w)
  /\ scrollMultiplier (self w') = scrollMultiplier (self w)
  /\ nextHandle w' = nextHandle w
  /\ isLoading (self w') = isLoading (self w)
  /\ wasmReady (self w') = wasmReady (self w)
  /\ element (self w') = element (self w).
Proof.
  unfold calculateRange. norm.
  destruct (element (self w)) as [el|] eqn:He; [|norm; rewrite He; tauto].
  destruct (readViewport _ _) as [sp vp].
  destruct (Qle_bool vp 0); [norm; rewrite He; tauto|].
  destruct (candidate _ _ _ _) as [c|]; [|norm; rewrite He; tauto].
  destruct (unchanged _ _); [norm; rewrite He; tauto|].
  destruct (JS.new_Array _) as [n|]; [|norm; rewrite He; tauto].
  destruct (visibleItems _ _ _ _) as [[[its offs] szs] fills].
  destruct (contentHeight _ _) as [th look].
  norm. rewrite He. tauto.
Qed.

End CalculateRangeFrame.

(** ** Invariants of lifetimes *)

Section Preservation.

Context {E : Engine}.

Variable Inv : World -> Prop.
Variable envOk : Env -> Prop.

Hypothesis Inv_calculateRange :
  forall env w, envOk env -> Inv w -> Inv (fst (calculateRange env w)).
Hypothesis Inv_handleItemCountChange :
  forall env w, envOk env -> Inv w -> Inv (fst (handleItemCountChange env w)).
Hypothesis Inv_fulfilled :
  forall env w, envOk env -> Inv w -> Inv (initialize_fulfilled env w).
Hypothesis Inv_rejected :
  forall err w, Inv w -> Inv (initialize_rejected err w).
Hypothesis Inv_willDestroy : forall w, Inv w -> Inv (willDestroy w).
Hypothesis Inv_element :
  forall el w, Inv w -> Inv (assign (set_element el) w).
Hypothesis Inv_rafPending :
  forall b w, Inv w -> Inv (assign (set_rafPending b) w).
Hypothesis Inv_rafId :
  forall id w, Inv w -> Inv (assign (set_rafId id) w).
Hypothesis Inv_frames :
  forall fs w, Inv w -> Inv (with_frames fs w).
Hypothesis Inv_request :
  forall cb w, Inv w -> Inv (snd (requestAnimationFrame cb w)).

Lemma Inv_runCallback env cb w :
  envOk env -> Inv w -> Inv (runCallback env cb w).
Proof.
  intros He Hw. destruct cb; cbn [runCallback].
  - destruct (element (self w)); [apply Inv_calculateRange|]; assumption.
  - apply Inv_calculateRange; assumption.
  - pose proof (Inv_request CbScrollStage2 w Hw) as Hr.
    destruct (requestAnimationFrame CbScrollStage2 w) as [id w1].
    apply Inv_rafId. exact Hr.
  - apply Inv_calculateRange; [assumption|]. apply Inv_rafPending. exact Hw.
Qed.

Lemma Inv_runFrame env batch :
  envOk env -> forall w, Inv w -> Inv (runFrame env batch w).
Proof.
  intro He. induction batch as [|[id cb] rest IH]; intros w Hw.
  - exact Hw.
  - cbn [runFrame]. destruct (existsb _ (frames w)).
    + apply IH. apply Inv_runCallback; [exact He|].
      apply Inv_frames. exact Hw.
    + apply IH. exact Hw.
Qed.

Lemma Inv_step env a w : envOk env -> Inv w -> Inv (step env a w).
Proof.
  intros He Hw. destruct a; cbn [step].
  - destruct (isLoading (self w)); [apply Inv_fulfilled|]; assumption.
  - destruct (isLoading (self w)); [apply Inv_rejected|]; assumption.
  - unfold scrollElementRef.
    set (w1 := assign (set_element (Some el)) w).
    assert (Hgo : Inv (if negb (isLoading (self w1))
                       then snd (requestAnimationFrame CbRecompute w1)
                       else w1)).
    { subst w1.
      destruct (negb _); [apply Inv_request|]; apply Inv_element; exact Hw. }
    destruct (element (self w)) as [old|]; [|exact Hgo].
    destruct (Nat.eqb old el); [exact Hw|exact Hgo].
  - apply Inv_element. exact Hw.
  - apply Inv_handleItemCountChange; assumption.
  - destruct (element (self w)); [|exact Hw]. unfold handleScroll.
    destruct (rafPending (self w)); [exact Hw|].
    apply Inv_request. apply Inv_rafPending. exact Hw.
  - apply Inv_runFrame; assumption.
  - apply Inv_willDestroy. exact Hw.
Qed.

Lemma Inv_run script :
  (forall env act, In (env, act) script -> envOk env) ->
  forall w, Inv w -> Inv (run script w).
Proof.
  induction script as [|[env a] rest IH]; intros Hs w Hw.
  - exact Hw.
  - cbn [run]. apply IH.
    + intros env' act' Hin. apply (Hs env' act'). right. exact Hin.
    + apply Inv_step; [|exact Hw]. apply (Hs env a). left. reflexivity.
Qed.

End Preservation.

(** ** Publications *)

Section Publications.

Context {E : Engine}.

Variable P : VirtualRange -> Z -> Prop.

Lemma publishes_estimates (l : list Z) :
  Forall (publishes P) (map EvEstimate l).
Proof.
  apply Forall_forall. intros e He. apply in_map_iff in He.
  destruct He as (i & <- & _). exact I.
Qed.

Lemma publishes_snoc t e :
  Forall (publishes P) t -> publishes P e -> Forall (publishes P) (t ++ [e]).
Proof.
  intros Ht He. apply Forall_app. split; [exact Ht|].
  apply Forall_cons; [exact He|apply Forall_nil].
Qed.

Lemma publishes_setupVirtualizer env (w : World) :
  Forall (publishes P) (trace w) ->
  Forall (publishes P) (trace (fst (setupVirtualizer env w))).
Proof.
  intro Hw. unfold setupVirtualizer.
  destruct (sampleSizes _ _ _ _) as [uniform called].
  assert (H1 : Forall (publishes P)
                 ((trace w ++ [EvEstimate 0]) ++ map EvEstimate called)).
  { apply Forall_app. split; [|apply publishes_estimates].
    apply publishes_snoc; [exact Hw|exact I]. }
  destruct uniform.
  - unfold createUniformVirtualizer. norm.
    repeat (apply publishes_snoc; [|exact I]). exact H1.
  - destruct (JS.new_Array _) as [n|].
    + unfold createVirtualizer. norm.
      repeat (apply publishes_snoc; [|exact I]).
      apply Forall_app. split; [exact H1|apply publishes_estimates].
    + norm. apply publishes_snoc; [exact H1|exact I].
Qed.

Lemma publishes_fulfilled env (w : World) :
  Forall (publishes P) (trace w) ->
  Forall (publishes P) (trace (initialize_fulfilled env w)).
Proof.
  intro Hw. unfold initialize_fulfilled.
  pose proof (publishes_setupVirtualizer env
                (assign (set_wasmReady true) w) Hw) as H.
  destruct (setupVirtualizer env _) as [w1 [|err]]; exact H.
Qed.

Lemma publishes_willDestroy (w : World) :
  Forall (publishes P) (trace w) ->
  Forall (publishes P) (trace (willDestroy w)).
Proof.
  intro Hw. unfold willDestroy. norm.
  destruct (Nat.eqb (rafId (self w)) 0); norm;
    destruct (virtualizer (self w)) as [[hv v]|]; norm;
    destruct (uniformVirtualizer (self w)) as [[hu u]|]; norm;
    repeat (apply publishes_snoc; [|exact I]); exact Hw.
Qed.

(** Before it recomputes, [handleItemCountChange] adds no publication. *)
Lemma publishes_handleItemCountChange env (w : World) :
  (forall w2, Forall (publishes P) (trace w2) ->
     Forall (publishes P) (trace (fst (calculateRange env w2)))) ->
  Forall (publishes P) (trace w) ->
  Forall (publishes P) (trace (fst (handleItemCountChange env w))).
Proof.
  intros Hcalc Hw. unfold handleItemCountChange.
  destruct (negb (wasmReady (self w)) || isLoading (self w)); [exact Hw|].
  destruct (if isUniform (self w) then uniformVirtualizer (self w) else None)
    as [[h u]|].
  - apply Hcalc. unfold resetTracking, setCount. norm.
    apply publishes_snoc; [exact Hw|exact I].
  - destruct (virtualizer (self w)) as [[h v]|]; [|exact Hw].
    destruct (JS.new_Array _) as [n|].
    + apply Hcalc. unfold resetTracking, rebuild, createVirtualizer. norm.
      repeat (apply publishes_snoc; [|exact I]).
      apply Forall_app. split; [exact Hw|apply publishes_estimates].
    + norm. apply publishes_snoc; [exact Hw|exact I].
Qed.

(** A property of publications that [calculateRange] establishes in every
    world holds of every publication of every lifetime. *)
Lemma publishes_run :
  (forall env w e,
     calcEvent env w (fst (calculateRange env w)) e -> publishes P e) ->
  forall script, Forall (publishes P) (trace (run script initial)).
Proof.
  intros HP script.
  assert (Hcalc : forall env (w : World),
            Forall (publishes P) (trace w) ->
            Forall (publishes P) (trace (fst (calculateRange env w)))).
  { intros env w Hw.
    destruct (calculateRange_trace env w) as (evs & -> & Hevs).
    apply Forall_app. split; [exact Hw|].
    eapply Forall_impl; [|exact Hevs]. apply HP. }
  apply (Inv_run (fun w => Forall (publishes P) (trace w)) (fun _ => True)).
  - intros env w _. apply Hcalc.
  - intros env w _. apply publishes_handleItemCountChange. apply Hcalc.
  - intros env w _. apply publishes_fulfilled.
  - intros err w Hw. exact Hw.
  - intros w. apply publishes_willDestroy.
  - intros el w Hw. exact Hw.
  - intros b w Hw. exact Hw.
  - intros id w Hw. exact Hw.
  - intros fs w Hw. exact Hw.
  - intros cb w Hw. norm. apply publishes_snoc; [exact Hw|exact I].
  - intros env act _. exact I.
  - apply Forall_nil.
Qed.

End Publications.

(** C1. Whatever the engine answers and whatever happens to the component,
    every range it publishes satisfies
    [0 <= startIndex <= endIndex <= itemCount], for the item count read by
    the recomputation that published it, and its [items], [offsets] and
    [sizes] each have length [endIndex - startIndex]. *)
Theorem published_range_invariant {E : Engine} (script : list (Env * Action)) :
  forall obj r count,
    In (EvPublish obj r count) (trace (run script initial)) ->
    0 <= startIndex r /\ startIndex r <= endIndex r /\ endIndex r <= count
    /\ Z.of_nat (List.length (items r)) = endIndex r - startIndex r
    /\ Z.of_nat (List.length (offsets r)) = endIndex r - startIndex r
    /\ Z.of_nat (List.length (sizes r)) = endIndex r - startIndex r.
Proof.
  intros obj r count Hin.
  assert (H : Forall (publishes (fun r n => rangeOk n r))
                (trace (run script initial))).
  { apply publishes_run. intros env w e. destruct e; cbn; tauto. }
  assert (Hr : rangeOk count r).
  { rewrite Forall_forall in H. exact (H _ Hin). }
  exact Hr.
Qed.

(** ** The scroll multiplier *)

Section Multiplier.

Context {E : Engine}.

Lemma setupVirtualizer_multiplier env (w w' : World) :
  setupVirtualizer env w = (w', Normal) ->
  scrollMultiplier (self w')
  = multiplierFor
      (if isUniform (self w')
       then (inject_Z (itemCount (args env)) * estimateSize (args env) 0)%Q
       else JS.sum (allSizes (estimateSize (args env))
                      (Z.to_nat (itemCount (args env))))).
Proof.
  unfold setupVirtualizer.
  destruct (sampleSizes _ _ _ _) as [uniform called].
  destruct uniform.
  - unfold createUniformVirtualizer, finishSetup. norm.
    intro H. inversion H. reflexivity.
  - destruct (JS.new_Array _) as [n|] eqn:Hn; [|discriminate].
    unfold createVirtualizer, finishSetup. norm.
    intro H. inversion H. norm.
    unfold JS.new_Array in Hn.
    destruct ((0 <=? itemCount (args env)) && (itemCount (args env) <? 2 ^ 32));
      [|discriminate].
    inversion Hn. reflexivity.
Qed.

Lemma setupVirtualizer_ge_1 env (w : World) :
  (1 <= scrollMultiplier (self w))%Q ->
  (1 <= scrollMultiplier (self (fst (setupVirtualizer env w))))%Q.
Proof.
  intro Hw. unfold setupVirtualizer.
  destruct (sampleSizes _ _ _ _) as [uniform called].
  destruct uniform.
  - unfold createUniformVirtualizer, finishSetup. norm.
    apply multiplierFor_ge_1.
  - destruct (JS.new_Array _) as [n|].
    + unfold createVirtualizer, finishSetup. norm. apply multiplierFor_ge_1.
    + norm. exact Hw.
Qed.

Lemma handleItemCountChange_ge_1 env (w : World) :
  (1 <= scrollMultiplier (self w))%Q ->
  (1 <= scrollMultiplier (self (fst (handleItemCountChange env w))))%Q.
Proof.
  intro Hw. unfold handleItemCountChange.
  destruct (negb (wasmReady (self w)) || isLoading (self w)); [exact Hw|].
  destruct (if isUniform (self w) then uniformVirtualizer (self w) else None)
    as [[h u]|].
  - destruct (calculateRange_static env
        (resetTracking
           (inject_Z (itemCount (args env)) * uniformSize (self w))
           (setCount h u (itemCount (args env)) w)))
      as (_ & _ & _ & _ & -> & _).
    unfold resetTracking. norm. apply multiplierFor_ge_1.
  - destruct (virtualizer (self w)) as [[h v]|]; [|exact Hw].
    destruct (JS.new_Array _) as [n|]; [|exact Hw].
    destruct (calculateRange_static env
        (resetTracking
           (JS.sum (allSizes (estimateSize (args env)) n))
           (rebuild h (estimateSize (args env)) n w)))
      as (_ & _ & _ & _ & -> & _).
    unfold resetTracking. norm. apply multiplierFor_ge_1.
Qed.

Lemma handleItemCountChange_uniform_multiplier env (w : World) h u :
  wasmReady (self w) = true -> isLoading (self w) = false ->
  isUniform (self w) = true ->
  uniformVirtualizer (self w) = Some (h, u) ->
  scrollMultiplier (self (fst (handleItemCountChange env w)))
  = multiplierFor (inject_Z (itemCount (args env)) * uniformSize (self w)).
Proof.
  intros Hr Hl Hu Hh. unfold handleItemCountChange.
  rewrite Hr, Hl, Hu, Hh. cbn [negb orb].
  match goal with
  | |- scrollMultiplier (self (fst (calculateRange ?e ?x))) = _ =>
      destruct (calculateRange_static e x) as (_ & _ & _ & _ & -> & _)
  end.
  reflexivity.
Qed.

Lemma handleItemCountChange_variable_multiplier env (w : World) h v :
  wasmReady (self w) = true -> isLoading (self w) = false ->
  isUniform (self w) = false ->
  virtualizer (self w) = Some (h, v) ->
  0 <= itemCount (args env) < 2 ^ 32 ->
  scrollMultiplier (self (fst (handleItemCountChange env w)))
  = multiplierFor (JS.sum (allSizes (estimateSize (args env))
                             (Z.to_nat (itemCount (args env))))).
Proof.
  intros Hr Hl Hu Hh Hc. unfold handleItemCountChange.
  rewrite Hr, Hl, Hu, Hh. cbn [negb orb]. unfold JS.new_Array.
  replace ((0 <=? itemCount (args env)) && (itemCount (args env) <? 2 ^ 32))
    with true by (symmetry; apply andb_true_iff; split;
                  [apply Z.leb_le|apply Z.ltb_lt]; lia).
  match goal with
  | |- scrollMultiplier (self (fst (calculateRange ?e ?x))) = _ =>
      destruct (calculateRange_static e x) as (_ & _ & _ & _ & -> & _)
  end.
  unfold resetTracking, rebuild, createVirtualizer. reflexivity.
Qed.

Lemma willDestroy_self (w : World) :
  self (willDestroy w)
  = set_uniformVirtualizer None (set_virtualizer None (self w)).
Proof.
  unfold willDestroy. norm.
  destruct (Nat.eqb (rafId (self w)) 0); norm;
    destruct (virtualizer (self w)) as [[hv v]|]; norm;
    destruct (uniformVirtualizer (self w)) as [[hu u]|]; reflexivity.
Qed.

Lemma scrollMultiplier_ge_1 script :
  (1 <= scrollMultiplier (self (run script initial)))%Q.
Proof.
  apply (Inv_run (fun w => (1 <= scrollMultiplier (self w))%Q)
           (fun _ => True)).
  - intros env w _ Hw.
    destruct (calculateRange_static env w) as (_ & _ & _ & _ & -> & _).
    exact Hw.
  - intros env w _. apply handleItemCountChange_ge_1.
  - intros env w _ Hw. unfold initialize_fulfilled.
    pose proof (setupVirtualizer_ge_1 env (assign (set_wasmReady true) w) Hw)
      as H.
    destruct (setupVirtualizer env _) as [w1 [|err]]; exact H.
  - intros err w Hw. exact Hw.
  - intros w Hw. rewrite willDestroy_self. exact Hw.
  - intros el w Hw. exact Hw.
  - intros b w Hw. exact Hw.
  - intros id w Hw. exact Hw.
  - intros fs w Hw. exact Hw.
  - intros cb w Hw. exact Hw.
  - intros env act _. exact I.
  - apply Qle_refl.
Qed.

Lemma roundtrip (this : Virtualizer) (d : Q) :
  (1 <= scrollMultiplier this)%Q -> (toDom this (toVirtual this d) == d)%Q.
Proof.
  intro H. unfold toDom, toVirtual. apply Qdiv_mult_l.
  intro H0. rewrite H0 in H. apply Qle_not_lt in H. apply H. reflexivity.
Qed.

End Multiplier.

(** C4. After setup, and after an item-count change that reaches the
    recomputation of the multiplier, [scrollMultiplier] is 1 when the
    virtual total height is at most 15,000,000 and the virtual total height
    divided by 15,000,000 otherwise; it is at least 1 in every state of
    every lifetime, and there a DOM offset converted to virtual coordinates
    and back is the offset it was. *)
Theorem scrollMultiplier_law {E : Engine} :
  (forall env (w w' : World) vth,
     setupVirtualizer env w = (w', Normal) ->
     vth = (if isUniform (self w')
            then (inject_Z (itemCount (args env))
                  * estimateSize (args env) 0)%Q
            else JS.sum (allSizes (estimateSize (args env))
                           (Z.to_nat (itemCount (args env))))) ->
     ((vth <= MAX_SAFE_SCROLL_HEIGHT)%Q -> scrollMultiplier (self w') = 1%Q)
     /\ ((MAX_SAFE_SCROLL_HEIGHT < vth)%Q ->
         scrollMultiplier (self w') = (vth / MAX_SAFE_SCROLL_HEIGHT)%Q))
  /\ (forall env (w : World) h u vth,
        wasmReady (self w) = true -> isLoading (self w) = false ->
        isUniform (self w) = true ->
        uniformVirtualizer (self w) = Some (h, u) ->
        vth = (inject_Z (itemCount (args env)) * uniformSize (self w))%Q ->
        let w' := fst (handleItemCountChange env w) in
        ((vth <= MAX_SAFE_SCROLL_HEIGHT)%Q ->
         scrollMultiplier (self w') = 1%Q)
        /\ ((MAX_SAFE_SCROLL_HEIGHT < vth)%Q ->
            scrollMultiplier (self w') = (vth / MAX_SAFE_SCROLL_HEIGHT)%Q))
  /\ (forall env (w : World) h v vth,
        wasmReady (self w) = true -> isLoading (self w) = false ->
        isUniform (self w) = false ->
        virtualizer (self w) = Some (h, v) ->
        0 <= itemCount (args env) < 2 ^ 32 ->
        vth = JS.sum (allSizes (estimateSize (args env))
                        (Z.to_nat (itemCount (args env)))) ->
        let w' := fst (handleItemCountChange env w) in
        ((vth <= MAX_SAFE_SCROLL_HEIGHT)%Q ->
         scrollMultiplier (self w') = 1%Q)
        /\ ((MAX_SAFE_SCROLL_HEIGHT < vth)%Q ->
            scrollMultiplier (self w') = (vth / MAX_SAFE_SCROLL_HEIGHT)%Q))
  /\ (forall script domOffset,
        let this := self (run script initial) in
        (1 <= scrollMultiplier this)%Q
        /\ (toDom this (toVirtual this domOffset) == domOffset)%Q).
Proof.
  assert (Hlaw : forall v m : Q, m = multiplierFor v ->
            ((v <= MAX_SAFE_SCROLL_HEIGHT)%Q -> m = 1%Q)
            /\ ((MAX_SAFE_SCROLL_HEIGHT < v)%Q ->
                m = (v / MAX_SAFE_SCROLL_HEIGHT)%Q)).
  { intros v m ->. split; intro Hv;
      [apply multiplierFor_small|apply multiplierFor_large]; exact Hv. }
  split; [|split; [|split]].
  - intros env w w' vth Hs ->. apply Hlaw.
    apply setupVirtualizer_multiplier with (w := w). exact Hs.
  - intros env w h u vth Hr Hl Hu Hh -> w'. apply Hlaw. subst w'.
    apply handleItemCountChange_uniform_multiplier with (h := h) (u := u);
      assumption.
  - intros env w h v vth Hr Hl Hu Hh Hc -> w'. apply Hlaw. subst w'.
    apply handleItemCountChange_variable_multiplier with (h := h) (v := v);
      assumption.
  - intros script domOffset this. split.
    + apply scrollMultiplier_ge_1.
    + apply roundtrip. apply scrollMultiplier_ge_1.
Qed.

(** ** The choice between the uniform and the variable path *)

Section Sampling.

Context {E : Engine}.

(** The sampling loop answers [true] exactly when every size it looks at
    equals the first. *)
Lemma sampleSizes_true est firstSize k :
  forall lo,
    fst (sampleSizes est firstSize k lo) = true
    <-> (forall i, lo <= i < lo + Z.of_nat k -> (est i == firstSize)%Q).
Proof.
  induction k as [|k IH]; intro lo; cbn [sampleSizes].
  - split; [intros _ i Hi; lia|reflexivity].
  - destruct (Qeq_bool (est lo) firstSize) eqn:Hq; cbn [negb].
    + specialize (IH (lo + 1)).
      destruct (sampleSizes est firstSize k (lo + 1)) as [b called].
      cbn [fst] in *. rewrite IH. apply Qeq_bool_iff in Hq. split.
      * intros H i Hi. destruct (Z.eq_dec i lo) as [->|Hne]; [exact Hq|].
        apply H. lia.
      * intros H i Hi. apply H. lia.
    + cbn [fst]. split; [discriminate|]. intro H. exfalso.
      assert (Hlo : (est lo == firstSize)%Q) by (apply H; lia).
      apply Qeq_bool_iff in Hlo. congruence.
Qed.

Lemma setupVirtualizer_uniform env (w : World) :
  fst (sampleSizes (estimateSize (args env)) (estimateSize (args env) 0)
         (Z.to_nat (Z.min 10 (itemCount (args env)) - 1)) 1) = true ->
  exists called,
    setupVirtualizer env w
    = (finishSetup
         (inject_Z (itemCount (args env)) * estimateSize (args env) 0)
         (assign (set_uniformVirtualizer
                    (Some (nextHandle w,
                           uniform_new (itemCount (args env))
                             (estimateSize (args env) 0))))
            (snd (createUniformVirtualizer (itemCount (args env))
                    (estimateSize (args env) 0)
                    (assign (set_uniformSize (estimateSize (args env) 0))
                       (assign (set_isUniform true)
                          (emits (map EvEstimate called)
                             (emit (EvEstimate 0) w))))))),
       Normal).
Proof.
  intro H. unfold setupVirtualizer.
  destruct (sampleSizes _ _ _ _) as [uniform called]. cbn [fst] in H.
  subst uniform. exists called. reflexivity.
Qed.

Lemma setupVirtualizer_variable env (w : World) :
  fst (sampleSizes (estimateSize (args env)) (estimateSize (args env) 0)
         (Z.to_nat (Z.min 10 (itemCount (args env)) - 1)) 1) = false ->
  let w' := fst (setupVirtualizer env w) in
  isUniform (self w') = false
  /\ uniformVirtualizer (self w') = uniformVirtualizer (self w)
  /\ (itemCount (args env) < 2 ^ 32 ->
      snd (setupVirtualizer env w) = Normal
      /\ virtualizer (self w')
         = Some (nextHandle w,
                 variable_new (allSizes (estimateSize (args env))
                                 (Z.to_nat (itemCount (args env)))))
      /\ In (EvCreateVariable (nextHandle w)
               (allSizes (estimateSize (args env))
                  (Z.to_nat (itemCount (args env))))) (trace w')).
Proof.
  intro H. unfold setupVirtualizer.
  destruct (sampleSizes _ _ _ _) as [uniform called] eqn:Hs. cbn [fst] in H.
  subst uniform. unfold JS.new_Array.
  destruct ((0 <=? itemCount (args env)) && (itemCount (args env) <? 2 ^ 32))
    eqn:Hc.
  - unfold createVirtualizer, finishSetup. norm.
    split; [reflexivity|split; [reflexivity|intros _]].
    split; [reflexivity|split; [reflexivity|]].
    apply in_or_app. left. apply in_or_app. right. left. reflexivity.
  - norm. split; [reflexivity|split; [reflexivity|intro Hlt; exfalso]].
    apply andb_false_iff in Hc. destruct Hc as [Hc|Hc];
      [apply Z.leb_gt in Hc|apply Z.ltb_ge in Hc; lia].
    destruct (Z.to_nat (Z.min 10 (itemCount (args env)) - 1)) eqn:Hk;
      [cbn in Hs; discriminate|lia].
Qed.

End Sampling.

Section UniformLifetime.

Context {E : Engine}.

Variable n : Z.
Variable c : Q.
Hypothesis n_pos : 1 <= n.
Hypothesis fits : (inject_Z n * c <= MAX_SAFE_SCROLL_HEIGHT)%Q.


Lemma sampled_uniform env :
  sampledAs n c env ->
  fst (sampleSizes (estimateSize (args env)) (estimateSize (args env) 0)
         (Z.to_nat (Z.min 10 (itemCount (args env)) - 1)) 1) = true
  /\ (estimateSize (args env) 0 == c)%Q.
Proof.
  intros [Hn Hc]. rewrite Hn.
  assert (H0 : (estimateSize (args env) 0 == c)%Q) by (apply Hc; lia).
  split; [|exact H0].
  apply sampleSizes_true. intros i Hi. rewrite H0. apply Hc. lia.
Qed.

Lemma small_multiplier (s : Q) :
  (s == c)%Q -> multiplierFor (inject_Z n * s) = 1%Q.
Proof.
  intro Hs. apply multiplierFor_small. rewrite Hs. exact fits.
Qed.

Lemma Inv_calc env (w : World) :
  sampledAs n c env -> uniformInvariant n c w ->
  uniformInvariant n c (fst (calculateRange env w)).
Proof.
  intros [Hn _] [HK Ht].
  destruct (calculateRange_static env w)
    as (Hv & Hu & Hi & Hs & Hm & _).
  split.
  - unfold onUniformPathOf. rewrite Hv, Hu, Hi, Hs, Hm. exact HK.
  - destruct (calculateRange_trace env w) as (evs & -> & Hevs).
    apply Forall_app. split; [exact Ht|].
    eapply Forall_impl; [|exact Hevs].
    intros e He. destruct e; try exact I.
    cbn [calcEvent] in He. destruct He as (-> & _ & _ & _ & [h Hh] & Hth).
    cbn [publishes]. unfold heightIsProduct. rewrite Hth.
    destruct HK as [HKv [HKu|(HKi & HKs & HKm)]].
    + exfalso. destruct Hh as [[v Hh]|[u Hh]]; congruence.
    + unfold contentHeight. rewrite HKi, HKm, Hn. cbn [fst].
      rewrite Q.min_l.
      * rewrite HKs. field.
      * rewrite HKs. setoid_replace (inject_Z n * c / 1)%Q
          with (inject_Z n * c)%Q by field. exact fits.
Qed.

Lemma Inv_count env (w : World) :
  sampledAs n c env -> uniformInvariant n c w ->
  uniformInvariant n c (fst (handleItemCountChange env w)).
Proof.
  intros Henv [HK Ht]. unfold handleItemCountChange.
  destruct (negb (wasmReady (self w)) || isLoading (self w));
    [split; assumption|].
  destruct HK as [HKv HKu]. rewrite HKv.
  destruct (if isUniform (self w) then uniformVirtualizer (self w) else None)
    as [[h u]|] eqn:Hh; [|split; [split|]; assumption].
  apply Inv_calc; [exact Henv|].
  destruct (isUniform (self w)) eqn:Hi; [|discriminate].
  destruct HKu as [HKu|(_ & HKs & _)]; [congruence|].
  split.
  - unfold onUniformPathOf, resetTracking, setCount. norm.
    split; [exact HKv|right].
    split; [exact Hi|split; [exact HKs|]].
    destruct Henv as [-> _]. apply small_multiplier. exact HKs.
  - unfold resetTracking, setCount. norm.
    apply publishes_snoc; [exact Ht|exact I].
Qed.

Lemma Inv_setup env (w : World) :
  sampledAs n c env -> uniformInvariant n c w ->
  uniformInvariant n c (initialize_fulfilled env w).
Proof.
  intros Henv [HK Ht]. unfold initialize_fulfilled.
  destruct (sampled_uniform env Henv) as [Hu H0].
  destruct (setupVirtualizer_uniform env (assign (set_wasmReady true) w) Hu)
    as (called & ->).
  unfold finishSetup, createUniformVirtualizer. norm.
  destruct HK as [HKv _]. split.
  - split; [exact HKv|right].
    split; [reflexivity|split; [exact H0|]].
    destruct Henv as [-> _]. apply small_multiplier. exact H0.
  - repeat (apply publishes_snoc; [|exact I]).
    apply Forall_app. split; [|apply publishes_estimates].
    apply publishes_snoc; [exact Ht|exact I].
Qed.

Lemma uniform_heights script :
  (forall env act, In (env, act) script -> sampledAs n c env) ->
  Forall (publishes (heightIsProduct n c)) (trace (run script initial)).
Proof.
  intro Hs.
  apply (Inv_run (uniformInvariant n c) (sampledAs n c)); try exact Hs.
  - apply Inv_calc.
  - apply Inv_count.
  - apply Inv_setup.
  - intros err w Hw. exact Hw.
  - intros w [HK Ht]. split.
    + unfold onUniformPathOf. rewrite willDestroy_self. norm.
      split; [reflexivity|left; reflexivity].
    + apply publishes_willDestroy. exact Ht.
  - intros el w Hw. exact Hw.
  - intros b w Hw. exact Hw.
  - intros id w Hw. exact Hw.
  - intros fs w Hw. exact Hw.
  - intros cb w [HK Ht]. split; [exact HK|].
    norm. apply publishes_snoc; [exact Ht|exact I].
  - split; [split; [reflexivity|left; reflexivity]|apply Forall_nil].
Qed.

End UniformLifetime.

(** C3. When the estimator returns the same [c] at each of the first
    [min(10, n)] indices of [n >= 1] items, setup takes the uniform path: it
    sets [isUniform] and creates a uniform handle for [n] items of that
    size; and as long as the arguments stay so, every range published has
    [totalHeight = n * c] whenever [n * c <= 15,000,000].  When a sampled
    size differs from the first, setup takes the variable path. *)
Theorem uniform_path_selection {E : Engine} (n : Z) (c : Q) :
  1 <= n ->
  (forall env (w : World),
     itemCount (args env) = n ->
     (forall i, 0 <= i < Z.min 10 n -> (estimateSize (args env) i == c)%Q) ->
     exists s w',
       (s == c)%Q /\ setupVirtualizer env w = (w', Normal)
       /\ isUniform (self w') = true /\ uniformSize (self w') = s
       /\ uniformVirtualizer (self w') = Some (nextHandle w, uniform_new n s)
       /\ In (EvCreateUniform (nextHandle w) n s) (trace w'))
  /\ ((inject_Z n * c <= MAX_SAFE_SCROLL_HEIGHT)%Q ->
      forall script,
        (forall env act, In (env, act) script ->
           itemCount (args env) = n
           /\ forall i, 0 <= i < Z.min 10 n ->
                (estimateSize (args env) i == c)%Q) ->
        forall obj r count,
          In (EvPublish obj r count) (trace (run script initial)) ->
          (totalHeight r == inject_Z n * c)%Q)
  /\ (forall env (w : World) i,
        itemCount (args env) = n -> 0 <= i < Z.min 10 n ->
        ~ (estimateSize (args env) i == estimateSize (args env) 0)%Q ->
        let w' := fst (setupVirtualizer env w) in
        isUniform (self w') = false
        /\ uniformVirtualizer (self w') = uniformVirtualizer (self w)
        /\ (n < 2 ^ 32 ->
            snd (setupVirtualizer env w) = Normal
            /\ virtualizer (self w')
               = Some (nextHandle w,
                       variable_new (allSizes (estimateSize (args env))
                                       (Z.to_nat n)))
            /\ In (EvCreateVariable (nextHandle w)
                     (allSizes (estimateSize (args env)) (Z.to_nat n)))
                 (trace w'))).
Proof.
  intro Hn. split; [|split].
  - intros env w Hc Hs.
    destruct (sampled_uniform n c Hn env (conj Hc Hs)) as [Hu H0].
    destruct (setupVirtualizer_uniform env w Hu) as (called & Heq).
    exists (estimateSize (args env) 0). eexists.
    split; [exact H0|]. split; [exact Heq|].
    unfold finishSetup, createUniformVirtualizer. norm. rewrite Hc.
    split; [reflexivity|split; [reflexivity|split; [reflexivity|]]].
    apply in_or_app. left. apply in_or_app. right. left. reflexivity.
  - intros Hfits script Hs obj r count Hin.
    pose proof (uniform_heights n c Hn Hfits script Hs) as H.
    rewrite Forall_forall in H. exact (H _ Hin).
  - intros env w i Hc Hi Hne.
    assert (Hv : fst (sampleSizes (estimateSize (args env))
                        (estimateSize (args env) 0)
                        (Z.to_nat (Z.min 10 (itemCount (args env)) - 1)) 1)
                 = false).
    { apply not_true_is_false. intro Ht. apply Hne.
      destruct (Z.eq_dec i 0) as [->|Hi0]; [reflexivity|].
      rewrite sampleSizes_true in Ht. apply Ht. rewrite Hc. lia. }
    pose proof (setupVirtualizer_variable env w Hv) as H.
    rewrite Hc in H. exact H.
Qed.

(** ** The lifetime of engine handles *)

Section Handles.

Context {E : Engine}.

Lemma NoUseAfterFree_snoc t e :
  NoUseAfterFree t ->
  (forall h, handleOf e = Some h -> ~ In (EvFree h) t) ->
  NoUseAfterFree (t ++ [e]).
Proof.
  intros Ht He t1 h t2 Heq e' Hin.
  destruct t2 as [|x t2] using rev_ind; [destruct Hin|]. clear IHt2.
  change (t1 ++ EvFree h :: t2 ++ [x]) with (t1 ++ (EvFree h :: t2) ++ [x])
    in Heq.
  rewrite app_assoc in Heq. apply app_inj_tail in Heq.
  destruct Heq as [Heq <-].
  apply in_app_or in Hin. destruct Hin as [Hin|[<-|[]]].
  - exact (Ht t1 h t2 Heq e' Hin).
  - intro Hh. apply (He h Hh). rewrite Heq.
    apply in_or_app. right. left. reflexivity.
Qed.

(** Calls that are not [free()], made on handles not yet freed, keep a
    trace free of use after free. *)
Lemma NoUseAfterFree_calls t evs :
  NoUseAfterFree t ->
  (forall e, In e evs ->
     forall h, handleOf e = Some h -> ~ In (EvFree h) t /\ e <> EvFree h) ->
  NoUseAfterFree (t ++ evs).
Proof.
  revert t. induction evs as [|e evs IH]; intros t Ht He.
  - rewrite app_nil_r. exact Ht.
  - change (e :: evs) with ([e] ++ evs). rewrite app_assoc. apply IH.
    + apply NoUseAfterFree_snoc; [exact Ht|].
      intros h Hh. apply (He e (or_introl eq_refl) h Hh).
    + intros e' Hin h Hh.
      destruct (He e' (or_intror Hin) h Hh) as [Hnot Hne].
      split; [|exact Hne]. intro Hf. apply in_app_or in Hf.
      destruct Hf as [Hf|[Hf|[]]]; [exact (Hnot Hf)|].
      destruct (He e (or_introl eq_refl) h) as [_ Hne'];
        [rewrite Hf; reflexivity|]. exact (Hne' Hf).
Qed.

Lemma frees_app h t1 t2 : frees h (t1 ++ t2) = (frees h t1 + frees h t2)%nat.
Proof. unfold frees. rewrite filter_app, length_app. reflexivity. Qed.

Lemma frees_zero h t : ~ In (EvFree h) t -> frees h t = O.
Proof.
  unfold frees. induction t as [|e t IH]; intro Hn; [reflexivity|].
  cbn [filter]. destruct (isFreeOf h e) eqn:He.
  - exfalso. apply Hn. left. destruct e; try discriminate.
    cbn in He. apply Nat.eqb_eq in He. subst. reflexivity.
  - apply IH. intro Hin. apply Hn. right. exact Hin.
Qed.

Lemma frees_unused h t :
  (forall e, In e t -> handleOf e <> Some h) -> frees h t = O.
Proof.
  intro H. apply frees_zero. intro Hin. exact (H _ Hin eq_refl).
Qed.

Lemma in_snoc {A : Type} (x y : A) (l : list A) :
  In x (l ++ [y]) <-> In x l \/ x = y.
Proof.
  rewrite in_app_iff. cbn. intuition congruence.
Qed.

Lemma Alive_calculateRange env (w : World) :
  Alive w -> Alive (fst (calculateRange env w)).
Proof.
  intros (Hu & Hf & Hh & Hd).
  destruct (calculateRange_static env w)
    as (Hv & Huv & _ & _ & _ & Hn & _).
  destruct (calculateRange_trace env w) as (evs & Ht & Hevs).
  rewrite Forall_forall in Hevs.
  assert (Hnofree : forall h, In (EvFree h) (trace w ++ evs) ->
                              In (EvFree h) (trace w)).
  { intros h Hin. apply in_app_or in Hin. destruct Hin as [Hin|Hin];
      [exact Hin|]. destruct (Hevs _ Hin). }
  unfold Alive, holds. rewrite Ht, Hn, Hv, Huv.
  split; [|split; [|split]].
  - apply NoUseAfterFree_calls; [exact Hu|].
    intros e Hin h He. specialize (Hevs e Hin).
    destruct e; try discriminate He; cbn in He; inversion He; subst;
      cbn [calcEvent] in Hevs; try contradiction;
      (split; [exact (proj2 (Hh h Hevs))|discriminate]).
  - intros h Hin. apply Hf. apply Hnofree. exact Hin.
  - intros h Hheld. destruct (Hh h Hheld) as [Hlt Hnot].
    split; [exact Hlt|]. intro Hin. apply Hnot. apply Hnofree. exact Hin.
  - exact Hd.
Qed.

(** A world changed only in fields other than the handles, and with calls
    added that are not on handles, stays alive. *)
Lemma Alive_quiet (w w' : World) evs :
  Alive w ->
  trace w' = trace w ++ evs ->
  (forall e, In e evs -> handleOf e = None) ->
  nextHandle w' = nextHandle w ->
  virtualizer (self w') = virtualizer (self w) ->
  uniformVirtualizer (self w') = uniformVirtualizer (self w) ->
  Alive w'.
Proof.
  intros (Hu & Hf & Hh & Hd) Ht Hq Hn Hv Huv.
  assert (Hnofree : forall h, In (EvFree h) (trace w ++ evs) ->
                              In (EvFree h) (trace w)).
  { intros h Hin. apply in_app_or in Hin. destruct Hin as [Hin|Hin];
      [exact Hin|]. specialize (Hq _ Hin). discriminate. }
  unfold Alive, holds. rewrite Ht, Hn, Hv, Huv.
  split; [|split; [|split]].
  - apply NoUseAfterFree_calls; [exact Hu|].
    intros e Hin h He. rewrite (Hq e Hin) in He. discriminate.
  - intros h Hin. apply Hf. apply Hnofree. exact Hin.
  - intros h Hheld. destruct (Hh h Hheld) as [Hlt Hnot].
    split; [exact Hlt|]. intro Hin. apply Hnot. apply Hnofree. exact Hin.
  - exact Hd.
Qed.

Lemma handleOf_estimates l e : In e (map EvEstimate l) -> handleOf e = None.
Proof.
  intro H. apply in_map_iff in H. destruct H as (i & <- & _). reflexivity.
Qed.

Lemma free_not_estimate h l : ~ In (EvFree h) (map EvEstimate l).
Proof.
  intro H. apply in_map_iff in H. destruct H as (i & Hi & _). discriminate.
Qed.

Lemma Alive_rebuild h v est n (w : World) :
  Alive w -> virtualizer (self w) = Some (h, v) ->
  Alive (rebuild h est n w).
Proof.
  intros (Hu & Hf & Hh & Hd) Hv.
  destruct (Hh h (or_introl (ex_intro _ v Hv))) as [Hlt Hnot].
  unfold Alive, holds, rebuild, createVirtualizer. norm.
  split; [|split; [|split]].
  - apply NoUseAfterFree_snoc; [apply NoUseAfterFree_snoc|].
    + apply NoUseAfterFree_calls; [exact Hu|].
      intros e Hin x Hx. rewrite (handleOf_estimates _ _ Hin) in Hx.
      discriminate.
    + intros x Hx. inversion Hx; subst x. rewrite in_app_iff.
      intros [Hin|Hin]; [exact (Hnot Hin)|exact (free_not_estimate _ _ Hin)].
    + intros x Hx. inversion Hx; subst x. rewrite in_snoc, in_app_iff.
      intros [[Hin|Hin]|Heq].
      * specialize (Hf _ Hin). lia.
      * exact (free_not_estimate _ _ Hin).
      * inversion Heq. lia.
  - intros x. rewrite !in_snoc, in_app_iff.
    intros [[[Hin|Hin]|Heq]|Heq]; try discriminate Heq.
    + specialize (Hf _ Hin). lia.
    + destruct (free_not_estimate _ _ Hin).
    + inversion Heq. lia.
  - intros x [[v' Hx]|[u' Hx]].
    + inversion Hx; subst x. split; [lia|].
      rewrite !in_snoc, in_app_iff.
      intros [[[Hin|Hin]|Heq]|Heq]; try discriminate Heq.
      * specialize (Hf _ Hin). lia.
      * exact (free_not_estimate _ _ Hin).
      * inversion Heq. lia.
    + destruct (Hh x (or_intror (ex_intro _ u' Hx))) as [Hltx Hnotx].
      split; [lia|]. rewrite !in_snoc, in_app_iff.
      intros [[[Hin|Hin]|Heq]|Heq]; try discriminate Heq.
      * exact (Hnotx Hin).
      * exact (free_not_estimate _ _ Hin).
      * inversion Heq; subst x. exact (Hd h v h u' Hv Hx eq_refl).
  - intros hv v' hu u' Hx Hy. inversion Hx; subst hv.
    destruct (Hh hu (or_intror (ex_intro _ u' Hy))) as [Hltx _]. lia.
Qed.

Lemma Alive_setCount h u count (w : World) :
  Alive w -> uniformVirtualizer (self w) = Some (h, u) ->
  Alive (setCount h u count w).
Proof.
  intros (Hu & Hf & Hh & Hd) Hv.
  destruct (Hh h (or_intror (ex_intro _ u Hv))) as [Hlt Hnot].
  unfold Alive, holds, setCount. norm.
  split; [|split; [|split]].
  - apply NoUseAfterFree_snoc; [exact Hu|].
    intros x Hx. inversion Hx; subst x. exact Hnot.
  - intros x. rewrite in_snoc. intros [Hin|Heq]; [|discriminate].
    exact (Hf _ Hin).
  - intros x Hx.
    assert (Hheld : holds (self w) x).
    { destruct Hx as [[v' Hx]|[u' Hx]].
      - left. exists v'. exact Hx.
      - inversion Hx; subst x. right. exists u. exact Hv. }
    destruct (Hh x Hheld) as [Hltx Hnotx]. split; [exact Hltx|].
    rewrite in_snoc. intros [Hin|Heq]; [exact (Hnotx Hin)|discriminate].
  - intros hv v' hu u' Hx Hy. inversion Hy; subst hu.
    exact (Hd hv v' h u Hx Hv).
Qed.

Lemma Alive_resetTracking vth (w : World) :
  Alive w -> Alive (resetTracking vth w).
Proof. intro H. exact H. Qed.

Lemma Alive_handleItemCountChange env (w : World) :
  Alive w -> Alive (fst (handleItemCountChange env w)).
Proof.
  intro Hw. unfold handleItemCountChange.
  destruct (negb (wasmReady (self w)) || isLoading (self w)); [exact Hw|].
  destruct (if isUniform (self w) then uniformVirtualizer (self w) else None)
    as [[h u]|] eqn:Hh.
  - apply Alive_calculateRange. apply Alive_resetTracking.
    apply Alive_setCount; [exact Hw|].
    destruct (isUniform (self w)); [exact Hh|discriminate].
  - destruct (virtualizer (self w)) as [[h v]|] eqn:Hv; [|exact Hw].
    destruct (JS.new_Array _) as [n|].
    + apply Alive_calculateRange. apply Alive_resetTracking.
      apply Alive_rebuild with (v := v); assumption.
    + apply (Alive_quiet w _ [EvRangeError]); try reflexivity; [exact Hw|].
      intros e [<-|[]]. reflexivity.
Qed.

Lemma Alive_createUniformVirtualizer count size (w : World) :
  Alive w ->
  Alive (assign
           (set_uniformVirtualizer
              (Some (fst (createUniformVirtualizer count size w))))
           (snd (createUniformVirtualizer count size w))).
Proof.
  intros (Hu & Hf & Hh & Hd).
  unfold Alive, holds, createUniformVirtualizer. norm.
  split; [|split; [|split]].
  - apply NoUseAfterFree_snoc; [exact Hu|].
    intros x Hx. inversion Hx; subst x. intro Hin. specialize (Hf _ Hin). lia.
  - intros x. rewrite in_snoc. intros [Hin|Heq]; [|discriminate].
    specialize (Hf _ Hin). lia.
  - intros x [[v' Hx]|[u' Hx]].
    + destruct (Hh x (or_introl (ex_intro _ v' Hx))) as [Hltx Hnotx].
      split; [lia|]. rewrite in_snoc.
      intros [Hin|Heq]; [exact (Hnotx Hin)|discriminate].
    + inversion Hx; subst x. split; [lia|]. rewrite in_snoc.
      intros [Hin|Heq]; [|discriminate]. specialize (Hf _ Hin). lia.
  - intros hv v' hu u' Hx Hy. inversion Hy; subst hu.
    destruct (Hh hv (or_introl (ex_intro _ v' Hx))) as [Hltx _]. lia.
Qed.

Lemma Alive_createVirtualizer szs (w : World) :
  Alive w ->
  Alive (assign (set_virtualizer (Some (fst (createVirtualizer szs w))))
           (snd (createVirtualizer szs w))).
Proof.
  intros (Hu & Hf & Hh & Hd).
  unfold Alive, holds, createVirtualizer. norm.
  split; [|split; [|split]].
  - apply NoUseAfterFree_snoc; [exact Hu|].
    intros x Hx. inversion Hx; subst x. intro Hin. specialize (Hf _ Hin). lia.
  - intros x. rewrite in_snoc. intros [Hin|Heq]; [|discriminate].
    specialize (Hf _ Hin). lia.
  - intros x [[v' Hx]|[u' Hx]].
    + inversion Hx; subst x. split; [lia|]. rewrite in_snoc.
      intros [Hin|Heq]; [|discriminate]. specialize (Hf _ Hin). lia.
    + destruct (Hh x (or_intror (ex_intro _ u' Hx))) as [Hltx Hnotx].
      split; [lia|]. rewrite in_snoc.
      intros [Hin|Heq]; [exact (Hnotx Hin)|discriminate].
  - intros hv v' hu u' Hx Hy. inversion Hx; subst hv.
    destruct (Hh hu (or_intror (ex_intro _ u' Hy))) as [Hltx _]. lia.
Qed.

Lemma Alive_finishSetup vth (w : World) :
  Alive w -> Alive (finishSetup vth w).
Proof.
  intro Hw.
  apply (Alive_quiet w _ [EvRequestFrame (nextFrame w) CbAfterSetup]);
    try reflexivity; [exact Hw|].
  intros e [<-|[]]. reflexivity.
Qed.

Lemma Alive_setupVirtualizer env (w : World) :
  Alive w -> Alive (fst (setupVirtualizer env w)).
Proof.
  intro Hw. unfold setupVirtualizer.
  destruct (sampleSizes _ _ _ _) as [uniform called].
  assert (H1 : Alive (assign (set_uniformSize (estimateSize (args env) 0))
                        (assign (set_isUniform uniform)
                           (emits (map EvEstimate called)
                              (emit (EvEstimate 0) w))))).
  { apply (Alive_quiet w _ (EvEstimate 0 :: map EvEstimate called));
      try reflexivity; [exact Hw| |].
    - norm. rewrite <- app_assoc. reflexivity.
    - intros e [<-|Hin]; [reflexivity|].
      exact (handleOf_estimates _ _ Hin). }
  destruct uniform.
  - pose proof (Alive_createUniformVirtualizer (itemCount (args env))
                  (estimateSize (args env) 0) _ H1) as H2.
    destruct (createUniformVirtualizer _ _ _) as [handle w2].
    cbn [fst snd] in *. apply Alive_finishSetup. exact H2.
  - destruct (JS.new_Array _) as [n|].
    + match goal with
      | |- context [createVirtualizer ?szs ?x] =>
          assert (H2 : Alive x);
          [|pose proof (Alive_createVirtualizer szs x H2) as H3;
            destruct (createVirtualizer szs x) as [handle w2]]
      end.
      * apply (Alive_quiet _ _ (map EvEstimate (JS.indices n)) H1);
          try reflexivity.
        intros e Hin. exact (handleOf_estimates _ _ Hin).
      * cbn [fst snd] in *. apply Alive_finishSetup. exact H3.
    + cbn [fst].
      match goal with
      | |- Alive (emit EvRangeError ?x) =>
          apply (Alive_quiet x _ [EvRangeError] H1); try reflexivity
      end.
      intros e [<-|[]]. reflexivity.
Qed.

Lemma Alive_fulfilled env (w : World) :
  Alive w -> Alive (initialize_fulfilled env w).
Proof.
  intro Hw. unfold initialize_fulfilled.
  pose proof (Alive_setupVirtualizer env (assign (set_wasmReady true) w) Hw)
    as H.
  destruct (setupVirtualizer env _) as [w1 [|err]]; exact H.
Qed.

(** [willDestroy] adds to the trace the cancellation of the frame in
    [rafId] and one [free()] for each handle held. *)
Lemma willDestroy_trace (w : World) :
  trace (willDestroy w)
  = trace w
    ++ EvDestroy
       :: (if Nat.eqb (rafId (self w)) 0 then []
           else [EvCancelFrame (rafId (self w))])
    ++ match virtualizer (self w) with
       | Some (h, _) => [EvFree h]
       | None => []
       end
    ++ match uniformVirtualizer (self w) with
       | Some (h, _) => [EvFree h]
       | None => []
       end.
Proof.
  unfold willDestroy. norm.
  destruct (Nat.eqb (rafId (self w)) 0); norm;
    destruct (virtualizer (self w)) as [[hv v]|]; norm;
    destruct (uniformVirtualizer (self w)) as [[hu u]|]; norm;
    rewrite <- ?app_assoc; reflexivity.
Qed.

Lemma willDestroy_nextHandle (w : World) :
  nextHandle (willDestroy w) = nextHandle w.
Proof.
  unfold willDestroy. norm.
  destruct (Nat.eqb (rafId (self w)) 0); norm;
    destruct (virtualizer (self w)) as [[hv v]|]; norm;
    destruct (uniformVirtualizer (self w)) as [[hu u]|]; reflexivity.
Qed.

Lemma Alive_free_one {H : Type} (w : World) (handle : option (nat * H)) t :
  NoUseAfterFree t ->
  (forall h, In (EvFree h) t -> (h < nextHandle w)%nat) ->
  (forall h x, handle = Some (h, x) ->
     (h < nextHandle w)%nat /\ ~ In (EvFree h) t) ->
  let t' := t ++ match handle with
                 | Some (h, _) => [EvFree h]
                 | None => []
                 end in
  NoUseAfterFree t'
  /\ (forall h, In (EvFree h) t' -> (h < nextHandle w)%nat)
  /\ (forall h, In (EvFree h) t' ->
        In (EvFree h) t \/ exists x, handle = Some (h, x)).
Proof.
  intros Hu Hf Hh. destruct handle as [[h x]|]; cbn.
  - destruct (Hh h x eq_refl) as [Hlt Hnot]. split; [|split].
    + apply NoUseAfterFree_snoc; [exact Hu|].
      intros y Hy. inversion Hy; subst y. exact Hnot.
    + intros y. rewrite in_snoc. intros [Hin|Heq]; [exact (Hf _ Hin)|].
      inversion Heq; subst y. exact Hlt.
    + intros y. rewrite in_snoc. intros [Hin|Heq]; [left; exact Hin|].
      inversion Heq; subst y. right. exists x. reflexivity.
  - rewrite app_nil_r. split; [exact Hu|split; [exact Hf|]].
    intros y Hin. left. exact Hin.
Qed.

Lemma Alive_willDestroy (w : World) : Alive w -> Alive (willDestroy w).
Proof.
  intros (Hu & Hf & Hh & Hd).
  unfold Alive, holds.
  rewrite willDestroy_trace, willDestroy_nextHandle, willDestroy_self. norm.
  set (pre := trace w ++ EvDestroy
                :: (if Nat.eqb (rafId (self w)) 0 then []
                    else [EvCancelFrame (rafId (self w))])).
  assert (Hpre : NoUseAfterFree pre
                 /\ forall h, In (EvFree h) pre -> In (EvFree h) (trace w)).
  { subst pre. split.
    - apply NoUseAfterFree_calls; [exact Hu|].
      intros e Hin h He. exfalso.
      destruct (Nat.eqb (rafId (self w)) 0); cbn in Hin;
        repeat (destruct Hin as [Hin|Hin]); try contradiction; subst e;
        discriminate.
    - intros h Hin. apply in_app_or in Hin. destruct Hin as [Hin|Hin];
        [exact Hin|exfalso].
      destruct (Nat.eqb (rafId (self w)) 0); cbn in Hin;
        repeat (destruct Hin as [Hin|Hin]); try contradiction;
        discriminate. }
  destruct Hpre as [Hpu Hpf].
  destruct (Alive_free_one w (virtualizer (self w)) pre Hpu) as (H1 & H2 & H3).
  { intros h Hin. apply Hf. apply Hpf. exact Hin. }
  { intros h x Hx. destruct (Hh h (or_introl (ex_intro _ x Hx))) as [Hl Hn].
    split; [exact Hl|]. intro Hin. apply Hn. apply Hpf. exact Hin. }
  destruct (Alive_free_one w (uniformVirtualizer (self w)) _ H1 H2)
    as (H4 & H5 & _).
  { intros h x Hx. destruct (Hh h (or_intror (ex_intro _ x Hx))) as [Hl Hn].
    split; [exact Hl|]. intro Hin. apply H3 in Hin.
    destruct Hin as [Hin|[v Hv]].
    - apply Hn. apply Hpf. exact Hin.
    - exact (Hd h v h x Hv Hx eq_refl). }
  replace (trace w ++ EvDestroy :: _) with
    ((pre ++ match virtualizer (self w) with
             | Some (h, _) => [EvFree h]
             | None => []
             end)
     ++ match uniformVirtualizer (self w) with
        | Some (h, _) => [EvFree h]
        | None => []
        end)
    by (subst pre; rewrite <- !app_assoc; reflexivity).
  split; [exact H4|split; [exact H5|split]].
  - intros h [[v Hv]|[u Hv]]; discriminate.
  - intros hv v hu u Hv. discriminate.
Qed.

(** The handles of every lifetime are alive. *)
Lemma Alive_run script : Alive (run script initial).
Proof.
  apply (Inv_run Alive (fun _ => True)).
  - intros env w _. apply Alive_calculateRange.
  - intros env w _. apply Alive_handleItemCountChange.
  - intros env w _. apply Alive_fulfilled.
  - intros err w Hw. exact Hw.
  - apply Alive_willDestroy.
  - intros el w Hw. exact Hw.
  - intros b w Hw. exact Hw.
  - intros id w Hw. exact Hw.
  - intros fs w Hw. exact Hw.
  - intros cb w Hw.
    apply (Alive_quiet w _ [EvRequestFrame (nextFrame w) cb]);
      try reflexivity; [exact Hw|].
    intros e [<-|[]]. reflexivity.
  - intros env act _. exact I.
  - split; [|split; [|split]].
    + intros t1 h t2 Heq. destruct t1; discriminate.
    + intros h [].
    + intros h [[v Hv]|[u Hv]]; discriminate.
    + intros hv v hu u Hv. discriminate.
Qed.

End Handles.

(** ** Traces only grow *)

Section Growth.

Context {E : Engine}.

Lemma setupVirtualizer_extends env (w : World) :
  exists evs, trace (fst (setupVirtualizer env w)) = trace w ++ evs.
Proof.
  unfold setupVirtualizer.
  destruct (sampleSizes _ _ _ _) as [uniform called].
  destruct uniform; [|destruct (JS.new_Array _) as [n|]];
    unfold finishSetup, createUniformVirtualizer, createVirtualizer; norm;
    eexists; rewrite <- !app_assoc; reflexivity.
Qed.

Lemma handleItemCountChange_extends env (w : World) :
  exists evs, trace (fst (handleItemCountChange env w)) = trace w ++ evs.
Proof.
  unfold handleItemCountChange.
  destruct (negb (wasmReady (self w)) || isLoading (self w));
    [exists []; rewrite app_nil_r; reflexivity|].
  destruct (if isUniform (self w) then uniformVirtualizer (self w) else None)
    as [[h u]|].
  - match goal with
    | |- context [calculateRange ?e ?x] =>
        destruct (calculateRange_trace e x) as (evs & -> & _)
    end.
    unfold resetTracking, setCount. norm.
    eexists. rewrite <- !app_assoc. reflexivity.
  - destruct (virtualizer (self w)) as [[h v]|];
      [|exists []; rewrite app_nil_r; reflexivity].
    destruct (JS.new_Array _) as [n|]; [|eexists; reflexivity].
    match goal with
    | |- context [calculateRange ?e ?x] =>
        destruct (calculateRange_trace e x) as (evs & -> & _)
    end.
    unfold resetTracking, rebuild, createVirtualizer. norm.
    eexists. rewrite <- !app_assoc. reflexivity.
Qed.

Lemma run_extends script (w : World) :
  exists evs, trace (run script w) = trace w ++ evs.
Proof.
  assert (Hgo : forall (w1 w2 : World) evs,
            trace w2 = trace w1 ++ evs ->
            (exists evs1, trace w1 = trace w ++ evs1) ->
            exists evs2, trace w2 = trace w ++ evs2).
  { intros w1 w2 evs -> [evs1 ->]. eexists. rewrite <- app_assoc.
    reflexivity. }
  apply (Inv_run (fun w' => exists evs, trace w' = trace w ++ evs)
           (fun _ => True)).
  - intros env w1 _.
    destruct (calculateRange_trace env w1) as (evs & Ht & _).
    exact (Hgo _ _ _ Ht).
  - intros env w1 _.
    destruct (handleItemCountChange_extends env w1) as (evs & Ht).
    exact (Hgo _ _ _ Ht).
  - intros env w1 _. unfold initialize_fulfilled.
    destruct (setupVirtualizer_extends env (assign (set_wasmReady true) w1))
      as (evs & Ht).
    destruct (setupVirtualizer env _) as [w2 [|err]]; exact (Hgo w1 _ _ Ht).
  - intros err w1 Hw. exact Hw.
  - intros w1. exact (Hgo _ _ _ (willDestroy_trace w1)).
  - intros el w1 Hw. exact Hw.
  - intros b w1 Hw. exact Hw.
  - intros id w1 Hw. exact Hw.
  - intros fs w1 Hw. exact Hw.
  - intros cb w1. apply (Hgo w1 _ [EvRequestFrame (nextFrame w1) cb]).
    reflexivity.
  - intros env act _. exact I.
  - exists []. rewrite app_nil_r. reflexivity.
Qed.

Lemma run_app script1 script2 (w : World) :
  run (script1 ++ script2) w = run script2 (run script1 w).
Proof.
  revert w. induction script1 as [|[env a] rest IH]; intro w;
    [reflexivity|]. cbn [app run]. apply IH.
Qed.

Lemma willDestroy_frees (w : World) h :
  Alive w -> holds (self w) h -> frees h (trace (willDestroy w)) = 1%nat.
Proof.
  intros (_ & _ & Hh & Hd) Hheld.
  destruct (Hh h Hheld) as [_ Hnot].
  rewrite willDestroy_trace, frees_app, (frees_zero h _ Hnot).
  change (EvDestroy :: ?l) with ([EvDestroy] ++ l).
  rewrite !frees_app.
  assert (H0 : frees h [EvDestroy] = O) by reflexivity.
  assert (H1 : frees h (if Nat.eqb (rafId (self w)) 0 then []
                        else [EvCancelFrame (rafId (self w))]) = O)
    by (destruct (Nat.eqb (rafId (self w)) 0); reflexivity).
  rewrite H0, H1. cbn [Nat.add].
  destruct (virtualizer (self w)) as [[hv v]|] eqn:Hv;
    destruct (uniformVirtualizer (self w)) as [[hu u]|] eqn:Hu;
    unfold frees; cbn [filter isFreeOf app].
  - specialize (Hd hv v hu u eq_refl eq_refl).
    destruct Hheld as [[v' Hx]|[u' Hx]];
      [rewrite Hv in Hx|rewrite Hu in Hx]; inversion Hx; subst.
    + rewrite Nat.eqb_refl.
      destruct (Nat.eqb_spec h hu); [contradiction|reflexivity].
    + rewrite Nat.eqb_refl.
      destruct (Nat.eqb_spec h hv); [congruence|reflexivity].
  - destruct Hheld as [[v' Hx]|[u' Hx]];
      [rewrite Hv in Hx|rewrite Hu in Hx]; inversion Hx; subst.
    rewrite Nat.eqb_refl. reflexivity.
  - destruct Hheld as [[v' Hx]|[u' Hx]];
      [rewrite Hv in Hx|rewrite Hu in Hx]; inversion Hx; subst.
    rewrite Nat.eqb_refl. reflexivity.
  - destruct Hheld as [[v' Hx]|[u' Hx]];
      [rewrite Hv in Hx|rewrite Hu in Hx]; discriminate.
Qed.

End Growth.

(** The release half of C5.  A handle the component holds when it is torn
    down has [free()] called on it exactly once over the whole lifetime,
    whatever happens before and after the teardown, and no call is made on
    any handle after its [free()].  The teardown clears both handle fields
    and takes the frame callback recorded in [rafId] out of the queue. *)
Theorem teardown_releases_once {E : Engine}
  (before after : list (Env * Action)) (env : Env) (h : nat) :
  holds (self (run before initial)) h ->
  let w := run (before ++ (env, Destroy) :: after) initial in
  let torn := willDestroy (run before initial) in
  frees h (trace w) = 1%nat
  /\ NoUseAfterFree (trace w)
  /\ virtualizer (self torn) = None
  /\ uniformVirtualizer (self torn) = None
  /\ (rafId (self torn) <> O ->
      ~ In (rafId (self torn)) (map fst (frames torn))).
Proof.
  intros Hheld w torn.
  assert (Hw : w = run after torn).
  { subst w torn. rewrite run_app. reflexivity. }
  pose proof (Alive_run (before ++ (env, Destroy) :: after)) as (Hu & _).
  fold w in Hu.
  pose proof (Alive_run before) as Hb.
  pose proof (willDestroy_frees _ h Hb Hheld) as H1. fold torn in H1.
  destruct (run_extends after torn) as (evs & Ht). rewrite <- Hw in Ht.
  split; [|split; [exact Hu|split; [|split]]].
  - rewrite Ht, frees_app, H1.
    assert (Hin : In (EvFree h) (trace torn)).
    { destruct (in_dec Nat.eq_dec 0%nat [frees h (trace torn)]) as [Hz|Hz].
      - destruct Hz as [Hz|[]]. rewrite H1 in Hz. discriminate.
      - unfold frees in H1.
        destruct (filter (isFreeOf h) (trace torn)) as [|e l] eqn:Hf;
          [discriminate|].
        assert (He : In e (filter (isFreeOf h) (trace torn)))
          by (rewrite Hf; left; reflexivity).
        apply filter_In in He. destruct He as [He Hb'].
        destruct e; try discriminate. cbn in Hb'.
        apply Nat.eqb_eq in Hb'. subst. exact He. }
    apply in_split in Hin. destruct Hin as (t1 & t2 & Hsplit).
    rewrite (frees_unused h evs); [reflexivity|].
    intros e He. apply (Hu t1 h (t2 ++ evs)).
    + rewrite Ht, Hsplit, <- app_assoc. reflexivity.
    + apply in_or_app. right. exact He.
  - subst torn. rewrite willDestroy_self. reflexivity.
  - subst torn. rewrite willDestroy_self. reflexivity.
  - subst torn. rewrite willDestroy_self. norm. intro Hr.
    apply Nat.eqb_neq in Hr. unfold willDestroy. norm. rewrite Hr. norm.
    destruct (virtualizer (self (run before initial))) as [[hv v]|]; norm;
      destruct (uniformVirtualizer (self (run before initial)))
        as [[hu u]|]; norm;
      intro Hin; apply in_map_iff in Hin;
      destruct Hin as ([id cb] & Hid & Hin); cbn [fst] in Hid;
      apply filter_In in Hin; destruct Hin as [_ Hne];
      cbn [fst] in Hne; subst id; rewrite Nat.eqb_refl in Hne;
      discriminate.
Qed.

(** ** Single recomputations *)

Section Recompute.

Context {E : Engine}.

(** The candidate depends on the component only through the path, the
    handles, the item size and the multiplier. *)
Lemma candidate_ext a (this this' : Virtualizer) sp vp :
  isUniform this' = isUniform this ->
  uniformVirtualizer this' = uniformVirtualizer this ->
  virtualizer this' = virtualizer this ->
  uniformSize this' = uniformSize this ->
  scrollMultiplier this' = scrollMultiplier this ->
  candidate a this' sp vp = candidate a this sp vp.
Proof.
  intros Hi Hu Hv Hs Hm.
  unfold candidate, queryRange, firstOffset, toVirtual, toDom.
  rewrite Hi, Hu, Hv, Hs, Hm. reflexivity.
Qed.

Lemma unchanged_true (this : Virtualizer) c :
  unchanged this c = true
  <-> c_start c = lastStart this /\ c_end c = lastEnd this
      /\ (Qabs (c_paddingTop c - lastPaddingTop this) < 1 # 2)%Q.
Proof.
  unfold unchanged. rewrite !andb_true_iff, !Z.eqb_eq, ltb_lt. tauto.
Qed.

Lemma unchanged_refl (this : Virtualizer) c :
  lastStart this = c_start c -> lastEnd this = c_end c ->
  lastPaddingTop this = c_paddingTop c ->
  unchanged this c = true.
Proof.
  intros H1 H2 H3. apply unchanged_true. rewrite H1, H2, H3.
  split; [reflexivity|split; [reflexivity|]].
  setoid_replace (c_paddingTop c - c_paddingTop c)%Q with 0%Q by ring.
  reflexivity.
Qed.

(** When the skip rule applies, [calculateRange] leaves everything but the
    trace as it was. *)
Lemma calculateRange_skip env (w : World) el c :
  element (self w) = Some el ->
  Qle_bool (snd (readViewport (args env) (dom env el))) 0 = false ->
  candidate (args env) (self w)
    (fst (readViewport (args env) (dom env el)))
    (snd (readViewport (args env) (dom env el))) = Some c ->
  unchanged (self w) c = true ->
  calculateRange env w
  = (emits (c_calls c) (emit EvRecompute w), Skipped).
Proof.
  intros He Hvp Hc Hu. unfold calculateRange. norm. rewrite He.
  destruct (readViewport _ _) as [sp vp]. cbn [fst snd] in *.
  rewrite Hvp, Hc, Hu. reflexivity.
Qed.

(** A second recomputation in the same surroundings neither publishes nor
    throws, and leaves the component as it is. *)
Lemma calculateRange_twice env (w : World) :
  let w1 := fst (calculateRange env w) in
  snd (calculateRange env w1) <> Published
  /\ snd (calculateRange env w1) <> Threw
  /\ self (fst (calculateRange env w1)) = self w1.
Proof.
  assert (Hearly : forall w1 : World,
            match element (self w1) with
            | None => True
            | Some el =>
                let (sp, vp) := readViewport (args env) (dom env el) in
                Qle_bool vp 0 = true
                \/ match candidate (args env) (self w1) sp vp with
                   | None => True
                   | Some c => unchanged (self w1) c = true
                   end
            end ->
            snd (calculateRange env w1) <> Published
            /\ snd (calculateRange env w1) <> Threw
            /\ self (fst (calculateRange env w1)) = self w1).
  { intros w1 H. unfold calculateRange. norm.
    destruct (element (self w1)) as [el|];
      [|repeat split; discriminate].
    destruct (readViewport _ _) as [sp vp].
    destruct (Qle_bool vp 0); [repeat split; discriminate|].
    destruct H as [H|H]; [discriminate|].
    destruct (candidate _ _ _ _) as [c|]; [|repeat split; discriminate].
    rewrite H. repeat split; discriminate. }
  intro w1. apply Hearly. subst w1.
  unfold calculateRange. norm.
  destruct (element (self w)) as [el|] eqn:He; [|norm; rewrite He; exact I].
  destruct (readViewport (args env) (dom env el)) as [sp vp] eqn:Hr.
  destruct (Qle_bool vp 0) eqn:Hvp.
  { norm. rewrite He, Hr. left. exact Hvp. }
  destruct (candidate (args env) (self w) sp vp) as [c|] eqn:Hc.
  2:{ norm. rewrite He, Hr, Hc. right. exact I. }
  destruct (unchanged (self w) c) eqn:Hu.
  { norm. rewrite He, Hr, Hc. right. exact Hu. }
  destruct (JS.new_Array _) as [n|].
  - destruct (visibleItems _ _ _ _) as [[[its offs] szs] fills].
    destruct (contentHeight _ _) as [th look].
    norm. rewrite He, Hr. right.
    erewrite candidate_ext; [rewrite Hc|reflexivity..].
    apply unchanged_refl; reflexivity.
  - norm. rewrite He, Hr. right.
    erewrite candidate_ext; [rewrite Hc|reflexivity..].
    apply unchanged_refl; reflexivity.
Qed.

End Recompute.

Lemma candidate_calls_quiet {E : Engine} a (this : Virtualizer) sp vp c :
  candidate a this sp vp = Some c ->
  forall obj r n, ~ In (EvPublish obj r n) (c_calls c).
Proof.
  unfold candidate, firstOffset.
  destruct (queryRange _ _ _ _) as [[h info]|]; [|discriminate].
  destruct (isUniform this); [|destruct (virtualizer this) as [[hv v]|]];
    intro H; inversion H; cbn [c_calls In]; intros obj r n Hin;
    repeat (destruct Hin as [Hin|Hin]); try discriminate; exact Hin.
Qed.

(** C2. If the recomputation arrives at the [start], [end] and padding it
    accepted last (the padding within half a pixel), [calculateRange]
    returns without changing any field of the component, the frame queue or
    the published range object, and publishes nothing.  Two recomputations
    in a row in the same surroundings leave the range object of the first
    in place: the second neither publishes nor changes the component. *)
Theorem skip_rule {E : Engine} (env : Env) (w : World) :
  (forall el c,
     element (self w) = Some el ->
     (0 < snd (readViewport (args env) (dom env el)))%Q ->
     candidate (args env) (self w)
       (fst (readViewport (args env) (dom env el)))
       (snd (readViewport (args env) (dom env el))) = Some c ->
     c_start c = lastStart (self w) ->
     c_end c = lastEnd (self w) ->
     (Qabs (c_paddingTop c - lastPaddingTop (self w)) < 1 # 2)%Q ->
     snd (calculateRange env w) = Skipped
     /\ self (fst (calculateRange env w)) = self w
     /\ frames (fst (calculateRange env w)) = frames w
     /\ nextObj (fst (calculateRange env w)) = nextObj w
     /\ (forall obj r n,
           In (EvPublish obj r n) (trace (fst (calculateRange env w))) ->
           In (EvPublish obj r n) (trace w)))
  /\ (let w1 := fst (calculateRange env w) in
      snd (calculateRange env w1) <> Published
      /\ rangeObj (self (fst (calculateRange env w1))) = rangeObj (self w1)
      /\ range (self (fst (calculateRange env w1))) = range (self w1)
      /\ self (fst (calculateRange env w1)) = self w1).
Proof.
  split.
  - intros el c He Hvp Hc H1 H2 H3.
    rewrite (calculateRange_skip env w el c He); try assumption.
    + cbn [fst snd]. norm.
      split; [reflexivity|split; [reflexivity|split; [reflexivity|]]].
      split; [reflexivity|].
      intros obj r n Hin. apply in_app_or in Hin.
      destruct Hin as [Hin|Hin].
      * apply in_app_or in Hin. destruct Hin as [Hin|[Hin|[]]];
          [exact Hin|discriminate].
      * destruct (candidate_calls_quiet _ _ _ _ _ Hc obj r n Hin).
    + apply ltb_lt in Hvp. unfold JS.ltb in Hvp.
      apply negb_true_iff in Hvp. exact Hvp.
    + apply unchanged_true. tauto.
  - intro w1. destruct (calculateRange_twice env w) as (H1 & _ & H2).
    fold w1 in H1, H2. rewrite H2. tauto.
Qed.

(** C9. With an element attached whose extent along the configured axis is
    at most 0, [calculateRange] requests one frame for a retry and returns:
    no field of the component changes (so neither the tracking of the last
    range, nor the range, nor the error), the retry is the only addition to
    the frame queue, and nothing is published or thrown. *)
Theorem layout_not_settled {E : Engine} (env : Env) (w : World) (el : nat) :
  element (self w) = Some el ->
  (snd (readViewport (args env) (dom env el)) <= 0)%Q ->
  snd (calculateRange env w) = Rescheduled
  /\ self (fst (calculateRange env w)) = self w
  /\ frames (fst (calculateRange env w))
     = frames w ++ [(nextFrame w, CbRecompute)]
  /\ nextObj (fst (calculateRange env w)) = nextObj w
  /\ trace (fst (calculateRange env w))
     = trace w ++ [EvRecompute; EvRequestFrame (nextFrame w) CbRecompute].
Proof.
  intros He Hvp. apply Qle_bool_iff in Hvp.
  unfold calculateRange. norm. rewrite He.
  destruct (readViewport _ _) as [sp vp]. cbn [snd] in Hvp. rewrite Hvp.
  norm. rewrite <- app_assoc. repeat split.
Qed.

(** ** Setup *)

Lemma estimatedAt_app t1 t2 :
  estimatedAt (t1 ++ t2) = estimatedAt t1 ++ estimatedAt t2.
Proof. unfold estimatedAt. apply flat_map_app. Qed.

Lemma estimatedAt_estimates l : estimatedAt (map EvEstimate l) = l.
Proof.
  induction l as [|i l IH]; [reflexivity|]. cbn. f_equal. exact IH.
Qed.

(** C10. Setup calls the estimator first of all, with index 0, whatever the
    item count, and takes what it returns as the uniform size; with no
    items this is the only call it makes (and setup then completes on the
    uniform path). *)
Theorem estimator_sampled_at_zero {E : Engine} (env : Env) (w : World) :
  exists evs more,
    trace (fst (setupVirtualizer env w)) = trace w ++ evs
    /\ estimatedAt evs = 0 :: more
    /\ uniformSize (self (fst (setupVirtualizer env w)))
       = estimateSize (args env) 0
    /\ (itemCount (args env) = 0 ->
        more = [] /\ snd (setupVirtualizer env w) = Normal
        /\ isUniform (self (fst (setupVirtualizer env w))) = true).
Proof.
  unfold setupVirtualizer.
  destruct (sampleSizes _ _ _ _) as [uniform called] eqn:Hs.
  destruct uniform.
  - unfold finishSetup, createUniformVirtualizer. norm.
    eexists. exists called. rewrite <- !app_assoc.
    split; [reflexivity|]. cbn [app].
    split; [|split; [reflexivity|]].
    + change (EvEstimate 0 :: ?l) with ([EvEstimate 0] ++ l).
      rewrite !estimatedAt_app, estimatedAt_estimates. cbn.
      rewrite app_nil_r. reflexivity.
    + intro H0. rewrite H0 in Hs. cbn in Hs. inversion Hs.
      repeat split.
  - destruct (JS.new_Array _) as [n|] eqn:Hn.
    + unfold finishSetup, createVirtualizer. norm.
      eexists. exists (called ++ JS.indices n). rewrite <- !app_assoc.
      split; [reflexivity|]. cbn [app].
      split; [|split; [reflexivity|]].
      * change (EvEstimate 0 :: ?l) with ([EvEstimate 0] ++ l).
        rewrite !estimatedAt_app, !estimatedAt_estimates. cbn.
        rewrite app_nil_r. reflexivity.
      * intro H0. rewrite H0 in Hs. cbn in Hs. discriminate.
    + norm. eexists. exists called. rewrite <- !app_assoc.
      split; [reflexivity|]. cbn [app].
      split; [|split; [reflexivity|]].
      * change (EvEstimate 0 :: ?l) with ([EvEstimate 0] ++ l).
        rewrite !estimatedAt_app, !estimatedAt_estimates. cbn.
        rewrite app_nil_r. reflexivity.
      * intro H0. rewrite H0 in Hs. cbn in Hs. discriminate.
Qed.

(** ** Publishing recomputations *)

Section Publishing.

Context {E : Engine}.

Lemma ToInt32_range (q : Q) : - 2 ^ 31 <= JS.ToInt32 q < 2 ^ 31.
Proof.
  unfold JS.ToInt32.
  pose proof (Z.mod_pos_bound (JS.trunc q + 2 ^ 31) (2 ^ 32)) as H.
  lia.
Qed.

Lemma candidate_end_small a (this : Virtualizer) sp vp c :
  candidate a this sp vp = Some c -> c_end c < 2 ^ 31.
Proof.
  unfold candidate.
  destruct (queryRange _ _ _ _) as [[h info]|]; [|discriminate].
  destruct (firstOffset _ _). intro H. inversion H. cbn [c_end].
  pose proof (ToInt32_range (nth 1 info 0%Q)). lia.
Qed.

(** What a publishing recomputation leaves behind. *)
Lemma calculateRange_Published env (w w' : World) :
  calculateRange env w = (w', Published) ->
  rangeObj (self w') = nextObj w /\ nextObj w' = S (nextObj w)
  /\ totalHeight (range (self w'))
     = Qmin (fst (contentHeight (self w) (itemCount (args env))))
         MAX_SAFE_SCROLL_HEIGHT
  /\ In (EvPublish (nextObj w) (range (self w')) (itemCount (args env)))
       (trace w')
  /\ lastStart (self w') = startIndex (range (self w'))
  /\ lastEnd (self w') = endIndex (range (self w')).
Proof.
  unfold calculateRange. norm.
  destruct (element (self w)) as [el|]; [|discriminate].
  destruct (readViewport _ _) as [sp vp].
  destruct (Qle_bool vp 0); [discriminate|].
  destruct (candidate _ _ _ _) as [c|]; [|discriminate].
  destruct (unchanged _ _); [discriminate|].
  destruct (JS.new_Array _) as [n|]; [|discriminate].
  destruct (visibleItems _ _ _ _) as [[[its offs] szs] fills].
  destruct (contentHeight _ _) as [th look].
  intro H. inversion H. norm. cbn [totalHeight startIndex endIndex fst].
  repeat split. apply in_or_app. right. left. reflexivity.
Qed.

(** A recomputation publishes when an element is laid out, a handle
    answers, the skip rule does not apply and the clamped range is not
    inverted. *)
Lemma calculateRange_publishes env (w : World) el c :
  element (self w) = Some el ->
  (0 < snd (readViewport (args env) (dom env el)))%Q ->
  candidate (args env) (self w)
    (fst (readViewport (args env) (dom env el)))
    (snd (readViewport (args env) (dom env el))) = Some c ->
  unchanged (self w) c = false ->
  c_start c <= c_end c ->
  snd (calculateRange env w) = Published.
Proof.
  intros He Hvp Hc Hu Hle. unfold calculateRange. norm. rewrite He.
  destruct (readViewport _ _) as [sp vp]. cbn [fst snd] in *.
  apply ltb_lt in Hvp. unfold JS.ltb in Hvp. apply negb_true_iff in Hvp.
  rewrite Hvp, Hc, Hu.
  pose proof (candidate_bounds _ _ _ _ _ Hc) as [H0 _].
  pose proof (candidate_end_small _ _ _ _ _ Hc) as H1.
  unfold JS.new_Array.
  replace ((0 <=? c_end c - c_start c) && (c_end c - c_start c <? 2 ^ 32))
    with true
    by (symmetry; apply andb_true_iff; split;
        [apply Z.leb_le|apply Z.ltb_lt]; lia).
  destruct (visibleItems _ _ _ _) as [[[its offs] szs] fills].
  destruct (contentHeight _ _) as [th look]. reflexivity.
Qed.

(** With the tracking reset, the skip rule cannot apply. *)
Lemma calculateRange_after_reset env (w : World) :
  lastStart (self w) = -1 ->
  snd (calculateRange env w) <> Skipped
  /\ (snd (calculateRange env w) = NoElement
      \/ snd (calculateRange env w) = Rescheduled ->
      self (fst (calculateRange env w)) = self w)
  /\ forall c sp vp,
       candidate (args env) (self w) sp vp = Some c ->
       unchanged (self w) c = false.
Proof.
  intro Hl.
  assert (Hnever : forall c sp vp,
            candidate (args env) (self w) sp vp = Some c ->
            unchanged (self w) c = false).
  { intros c sp vp Hc. apply candidate_bounds in Hc. unfold unchanged.
    rewrite Hl. destruct (Z.eqb_spec (c_start c) (-1)); [lia|reflexivity]. }
  split; [|split; [|exact Hnever]]; unfold calculateRange; norm;
    destruct (element (self w)) as [el|]; try discriminate;
    try reflexivity;
    destruct (readViewport _ _) as [sp vp];
    destruct (Qle_bool vp 0); try discriminate; try reflexivity;
    (destruct (candidate _ _ _ _) as [c|] eqn:Hc; [|try discriminate]).
  - rewrite (Hnever c sp vp Hc).
    destruct (JS.new_Array _) as [n|]; [|discriminate].
    destruct (visibleItems _ _ _ _) as [[[its offs] szs] fills].
    destruct (contentHeight _ _) as [th look]. discriminate.
  - rewrite (Hnever c sp vp Hc).
    destruct (JS.new_Array _) as [n|]; [|cbn; intros [?|?]; discriminate].
    destruct (visibleItems _ _ _ _) as [[[its offs] szs] fills].
    destruct (contentHeight _ _) as [th look].
    cbn. intros [?|?]; discriminate.
  - cbn. intros [?|?]; discriminate.
Qed.

Lemma calculateRange_not_NotReady env (w : World) :
  snd (calculateRange env w) <> NotReady.
Proof.
  unfold calculateRange. norm.
  destruct (element (self w)) as [el|]; [|cbn; discriminate].
  destruct (readViewport _ _) as [sp vp].
  destruct (Qle_bool vp 0); [cbn; discriminate|].
  destruct (candidate _ _ _ _) as [c|]; [|cbn; discriminate].
  destruct (unchanged _ _); [cbn; discriminate|].
  destruct (JS.new_Array _) as [n|]; [|cbn; discriminate].
  destruct (visibleItems _ _ _ _) as [[[its offs] szs] fills].
  destruct (contentHeight _ _) as [th look]. cbn. discriminate.
Qed.

Lemma calculateRange_uniform_handle env (w : World) h u :
  isUniform (self w) = true ->
  uniformVirtualizer (self w) = Some (h, u) ->
  snd (calculateRange env w) <> NoHandle.
Proof.
  intros Hu Hh. unfold calculateRange. norm.
  destruct (element (self w)) as [el|]; [|cbn; discriminate].
  destruct (readViewport _ _) as [sp vp].
  destruct (Qle_bool vp 0); [cbn; discriminate|].
  unfold candidate, queryRange. rewrite Hu, Hh.
  destruct (firstOffset _ _) as [off calls].
  match goal with
  | |- context [unchanged ?t ?c] => destruct (unchanged t c)
  end; [cbn; discriminate|].
  destruct (JS.new_Array _) as [n|]; [|cbn; discriminate].
  destruct (visibleItems _ _ _ _) as [[[its offs] szs] fills].
  destruct (contentHeight _ _) as [th look]. cbn. discriminate.
Qed.

(** The published range object is older than the next one allocated. *)
Lemma rangeObj_fresh script :
  (rangeObj (self (run script initial)) < nextObj (run script initial))%nat.
Proof.
  assert (Hcalc : forall env (w : World),
            (rangeObj (self w) < nextObj w)%nat ->
            (rangeObj (self (fst (calculateRange env w)))
             < nextObj (fst (calculateRange env w)))%nat).
  { intros env w Hw. unfold calculateRange. norm.
    destruct (element (self w)) as [el|]; [|exact Hw].
    destruct (readViewport _ _) as [sp vp].
    destruct (Qle_bool vp 0); [exact Hw|].
    destruct (candidate _ _ _ _) as [c|]; [|exact Hw].
    destruct (unchanged _ _); [exact Hw|].
    destruct (JS.new_Array _) as [n|]; [|exact Hw].
    destruct (visibleItems _ _ _ _) as [[[its offs] szs] fills].
    destruct (contentHeight _ _) as [th look]. norm. lia. }
  apply (Inv_run (fun w => (rangeObj (self w) < nextObj w)%nat)
           (fun _ => True)).
  - intros env w _. apply Hcalc.
  - intros env w _ Hw. unfold handleItemCountChange.
    destruct (negb (wasmReady (self w)) || isLoading (self w)); [exact Hw|].
    destruct (if isUniform (self w) then uniformVirtualizer (self w)
              else None) as [[h u]|].
    + apply Hcalc. exact Hw.
    + destruct (virtualizer (self w)) as [[h v]|]; [|exact Hw].
      destruct (JS.new_Array _) as [n|]; [|exact Hw].
      apply Hcalc. exact Hw.
  - intros env w _ Hw. unfold initialize_fulfilled, setupVirtualizer.
    destruct (sampleSizes _ _ _ _) as [uniform called].
    destruct uniform; [exact Hw|].
    destruct (JS.new_Array _) as [n|]; exact Hw.
  - intros err w Hw. exact Hw.
  - intros w Hw. rewrite willDestroy_self. unfold willDestroy. norm.
    destruct (Nat.eqb (rafId (self w)) 0); norm;
      destruct (virtualizer (self w)) as [[hv v]|]; norm;
      destruct (uniformVirtualizer (self w)) as [[hu u]|]; exact Hw.
  - intros el w Hw. exact Hw.
  - intros b w Hw. exact Hw.
  - intros id w Hw. exact Hw.
  - intros fs w Hw. exact Hw.
  - intros cb w Hw. exact Hw.
  - intros env act _. exact I.
  - cbn. lia.
Qed.

End Publishing.

(** C7. On the uniform path [handleItemCountChange] sets the count of the
    handle it has, in place, recomputes the multiplier from
    [count * uniformSize], and recomputes at once with the tracking reset:
    the skip rule never applies to that recomputation, whatever the scroll
    position and the viewport.  When no element is laid out the tracking
    stays reset; when one is and the engine's clamped range is not inverted
    a range is published, in a range object that did not exist before, with
    [totalHeight = min(count * uniformSize / scrollMultiplier, 15,000,000)];
    so for 2000 items of size 50 the published [totalHeight] is 100,000. *)
Theorem count_change_republishes {E : Engine}
  (script : list (Env * Action)) (env : Env) (h : nat) (u : QuantumUniform) :
  let w := run script initial in
  wasmReady (self w) = true -> isLoading (self w) = false ->
  isUniform (self w) = true ->
  uniformVirtualizer (self w) = Some (h, u) ->
  let count := itemCount (args env) in
  let vth := (inject_Z count * uniformSize (self w))%Q in
  let prepared := resetTracking vth (setCount h u count w) in
  let w' := fst (handleItemCountChange env w) in
  let o := snd (handleItemCountChange env w) in
  uniformVirtualizer (self w') = Some (h, uniform_set_count u count)
  /\ In (EvSetCount h count) (trace w')
  /\ scrollMultiplier (self w') = multiplierFor vth
  /\ o <> Skipped /\ o <> NotReady /\ o <> NoHandle
  /\ (o = NoElement \/ o = Rescheduled ->
      lastStart (self w') = -1 /\ lastEnd (self w') = -1)
  /\ (forall el c,
        element (self w) = Some el ->
        (0 < snd (readViewport (args env) (dom env el)))%Q ->
        candidate (args env) (self prepared)
          (fst (readViewport (args env) (dom env el)))
          (snd (readViewport (args env) (dom env el))) = Some c ->
        c_start c <= c_end c -> o = Published)
  /\ (o = Published ->
      rangeObj (self w') <> rangeObj (self w)
      /\ In (EvPublish (rangeObj (self w')) (range (self w')) count)
           (trace w')
      /\ totalHeight (range (self w'))
         = Qmin (vth / multiplierFor vth) MAX_SAFE_SCROLL_HEIGHT
      /\ ((vth <= MAX_SAFE_SCROLL_HEIGHT)%Q ->
          (totalHeight (range (self w')) == vth)%Q)
      /\ (count = 2000 -> (uniformSize (self w) == 50)%Q ->
          (totalHeight (range (self w')) == 100000)%Q)).
Proof.
  intros w Hr Hl Hu Hh count vth prepared w' o.
  assert (Heq : handleItemCountChange env w = calculateRange env prepared).
  { unfold handleItemCountChange. rewrite Hr, Hl, Hu, Hh. reflexivity. }
  subst w' o. rewrite Heq.
  destruct (calculateRange_static env prepared)
    as (_ & Huv & Hi & Hs & Hm & _).
  destruct (calculateRange_trace env prepared) as (evs & Ht & _).
  destruct (calculateRange_after_reset env prepared eq_refl)
    as (Hns & Hkeep & Hnever).
  assert (Hh' : holds (self prepared) h).
  { right. eexists. reflexivity. }
  split; [rewrite Huv; reflexivity|].
  split; [rewrite Ht; apply in_or_app; left; apply in_or_app; right; left;
          reflexivity|].
  split; [rewrite Hm; reflexivity|].
  split; [exact Hns|].
  split; [apply calculateRange_not_NotReady|].
  split; [apply (calculateRange_uniform_handle env prepared h
                   (uniform_set_count u count) Hu eq_refl)|].
  split; [intro Ho; rewrite (Hkeep Ho); split; reflexivity|].
  split.
  { intros el c He Hvp Hc Hle.
    apply (calculateRange_publishes env prepared el c); try assumption.
    exact (Hnever c _ _ Hc). }
  intro Ho.
  destruct (calculateRange env prepared) as [w' o] eqn:Hcalc.
  cbn [fst snd] in *. subst o.
  destruct (calculateRange_Published env prepared w' Hcalc)
    as (Hobj & _ & Hth & Hin & _).
  assert (Hheight : totalHeight (range (self w'))
                    = Qmin (vth / multiplierFor vth) MAX_SAFE_SCROLL_HEIGHT).
  { rewrite Hth. unfold contentHeight, prepared, resetTracking, setCount.
    norm. rewrite Hu. reflexivity. }
  assert (Hsmall : (vth <= MAX_SAFE_SCROLL_HEIGHT)%Q ->
                   (totalHeight (range (self w')) == vth)%Q).
  { intro Hv. rewrite Hheight, (multiplierFor_small _ Hv).
    setoid_replace (vth / 1)%Q with vth by field.
    apply Q.min_l. exact Hv. }
  split.
  { rewrite Hobj. pose proof (rangeObj_fresh script) as Hf. fold w in Hf.
    change (nextObj prepared) with (nextObj w). lia. }
  split; [rewrite Hobj; exact Hin|].
  split; [exact Hheight|].
  split; [exact Hsmall|].
  intros Hc Hsz.
  assert (Hv : (vth == 100000)%Q).
  { subst vth. subst count. rewrite Hc, Hsz. reflexivity. }
  rewrite Hsmall; [exact Hv|]. rewrite Hv. discriminate.
Qed.


(** ** Estimators that throw *)

Section FallibleSetup.

Context {E : Engine}.

Lemma sampleSizes_of_total est firstSize n i :
  Fallible.sampleSizes (Fallible.total est) firstSize n i
  = (inr (fst (sampleSizes est firstSize n i)),
     snd (sampleSizes est firstSize n i)).
Proof.
  revert i. induction n as [|n IH]; intro i; [reflexivity|].
  cbn [Fallible.sampleSizes sampleSizes].
  change (Fallible.total est i) with (@inr string Q (est i)).
  cbv beta iota.
  destruct (negb (Qeq_bool (est i) firstSize)); [reflexivity|].
  rewrite IH.
  destruct (sampleSizes est firstSize n (i + 1)). reflexivity.
Qed.

Lemma allSizes_of_total est l :
  Fallible.allSizes (Fallible.total est) l = (inr (map est l), l).
Proof.
  induction l as [|i l IH]; [reflexivity|].
  cbn [Fallible.allSizes map].
  change (Fallible.total est i) with (@inr string Q (est i)).
  cbv beta iota. rewrite IH. reflexivity.
Qed.

(** For an estimator that returns at every index, [Fallible] has the setup
    of [Controller]. *)
Lemma setupVirtualizer_of_total env (w : World) :
  Fallible.setupVirtualizer (itemCount (args env))
    (Fallible.total (estimateSize (args env))) w
  = setupVirtualizer env w.
Proof.
  unfold Fallible.setupVirtualizer, setupVirtualizer.
  change (Fallible.total (estimateSize (args env)) 0)
    with (@inr string Q (estimateSize (args env) 0)).
  cbv beta iota zeta.
  rewrite sampleSizes_of_total.
  destruct (sampleSizes _ _ _ _) as [uniform called]. cbn [fst snd].
  destruct uniform; [reflexivity|].
  destruct (JS.new_Array _) as [n|]; [|reflexivity].
  rewrite allSizes_of_total. reflexivity.
Qed.

Lemma initialize_fulfilled_of_total env (w : World) :
  Fallible.initialize_fulfilled (itemCount (args env))
    (Fallible.total (estimateSize (args env))) w
  = initialize_fulfilled env w.
Proof.
  unfold Fallible.initialize_fulfilled, initialize_fulfilled.
  rewrite setupVirtualizer_of_total. reflexivity.
Qed.


End FallibleSetup.



(** ** The gateway *)

Section GatewayFacts.

Import Gateway.

Ltac gnorm :=
  cbn [wasmModule wasmStatus wasmError initializationPromise
       performanceStats promises tasks loads setStatus
       set_initializationPromise set_wasmModule set_performanceStats
       set_promises set_tasks set_loads fst snd] in *.

Lemma find_fresh (ps : list (nat * PromiseState)) p :
  map fst ps = seq 0 (List.length ps) -> (List.length ps <= p)%nat ->
  find (fun e => Nat.eqb (fst e) p) ps = None.
Proof.
  intros Hwf Hp.
  destruct (find _ ps) as [e|] eqn:Hf; [|reflexivity]. exfalso.
  apply find_some in Hf. destruct Hf as [Hin He].
  apply Nat.eqb_eq in He.
  assert (Hi : In (fst e) (map fst ps)) by (apply in_map; exact Hin).
  rewrite Hwf in Hi. apply in_seq in Hi. lia.
Qed.

Lemma find_app_new (ps : list (nat * PromiseState)) p st :
  find (fun e => Nat.eqb (fst e) p) ps = None ->
  find (fun e => Nat.eqb (fst e) p) (ps ++ [(p, st)]) = Some (p, st).
Proof.
  induction ps as [|e ps IH]; cbn [find app fst]; intro H.
  - rewrite Nat.eqb_refl. reflexivity.
  - destruct (Nat.eqb (fst e) p); [discriminate|]. apply IH. exact H.
Qed.

Lemma find_settle (ps : list (nat * PromiseState)) p st e :
  find (fun e => Nat.eqb (fst e) p) ps = Some e ->
  find (fun e => Nat.eqb (fst e) p)
    (map (fun e => if Nat.eqb (fst e) p then (p, st) else e) ps)
  = Some (p, st).
Proof.
  induction ps as [|e' ps IH]; cbn [find map]; intro H; [discriminate|].
  destruct (Nat.eqb (fst e') p) eqn:He.
  - cbn [fst]. rewrite Nat.eqb_refl. reflexivity.
  - rewrite He. apply IH. exact H.
Qed.

Lemma map_fst_settle (ps : list (nat * PromiseState)) p st :
  map fst (map (fun e => if Nat.eqb (fst e) p then (p, st) else e) ps)
  = map fst ps.
Proof.
  induction ps as [|e ps IH]; [reflexivity|]. cbn [map]. rewrite IH.
  destruct (Nat.eqb (fst e) p) eqn:He; [|reflexivity].
  apply Nat.eqb_eq in He. cbn [fst]. rewrite He. reflexivity.
Qed.

Lemma wf_snoc (ps : list (nat * PromiseState)) st :
  map fst ps = seq 0 (List.length ps) ->
  map fst (ps ++ [(List.length ps, st)])
  = seq 0 (List.length (ps ++ [(List.length ps, st)])).
Proof.
  intro H. rewrite map_app, length_app, H. cbn [map fst List.length].
  rewrite seq_app. reflexivity.
Qed.

(** [initializeWasm] with nothing in flight and a status other than
    [ready] starts a load. *)
Lemma initializeWasm_starts now g :
  Consistent g -> initializationPromise g = None ->
  wasmStatus g <> ready ->
  startedLoad now (fst (initializeWasm now g)) g (snd (initializeWasm now g))
  /\ Consistent (snd (initializeWasm now g)).
Proof.
  intros [Hwf Hc] Hp Hs. rewrite Hp in Hc. destruct Hc as [_ Ht].
  unfold initializeWasm. rewrite Hp.
  destruct (status_eqb (wasmStatus g) ready) eqn:He.
  { exfalso. apply Hs. destruct (wasmStatus g); try discriminate.
    reflexivity. }
  unfold newPromise, startedLoad, Consistent, promiseState. gnorm.
  pose proof (find_fresh (promises g) (List.length (promises g)) Hwf
                (Nat.le_refl _)) as Hfresh.
  rewrite Hfresh, (find_app_new _ _ _ Hfresh), Ht. cbn [option_map snd app].
  repeat split; try reflexivity.
  - apply wf_snoc. exact Hwf.
  - eexists. split; reflexivity.
Qed.

(** With the status [ready] and nothing in flight, [initializeWasm] hands
    out a fulfilled promise and starts nothing. *)
Lemma initializeWasm_ready now g :
  Consistent g -> wasmStatus g = ready ->
  let q := fst (initializeWasm now g) in
  let g' := snd (initializeWasm now g) in
  promiseState q g = None /\ promiseState q g' = Some Fulfilled
  /\ loads g' = loads g /\ tasks g' = [] /\ wasmStatus g' = ready
  /\ initializationPromise g' = None /\ Consistent g'.
Proof.
  intros [Hwf Hc] Hs.
  destruct (initializationPromise g) as [p|] eqn:Hp.
  { destruct Hc as [Hi _]. congruence. }
  destruct Hc as [Hni Ht].
  unfold initializeWasm. rewrite Hp, Hs. cbn [status_eqb].
  unfold newPromise, Consistent, promiseState. gnorm.
  pose proof (find_fresh (promises g) (List.length (promises g)) Hwf
                (Nat.le_refl _)) as Hfresh.
  rewrite Hfresh, (find_app_new _ _ _ Hfresh), Hp, Ht, Hs.
  cbn [option_map snd].
  repeat split; try reflexivity; try discriminate.
  apply wf_snoc. exact Hwf.
Qed.

Lemma pending_found p g :
  promiseState p g = Some Pending ->
  exists e, find (fun e => Nat.eqb (fst e) p) (promises g) = Some e.
Proof.
  unfold promiseState. destruct (find _ _) as [e|]; [|discriminate].
  intros _. exists e. reflexivity.
Qed.

(** The [catch] and [finally] blocks leave a failed, consistent gateway. *)
Lemma failed_spec p err g t :
  Consistent g -> initializationPromise g = Some p -> tasks g = [t] ->
  t_promise t = p ->
  failedWith p err (failed p err g) /\ Consistent (failed p err g).
Proof.
  intros [Hwf Hc] Hp Ht Htp. rewrite Hp in Hc.
  destruct Hc as (_ & Hpend & _).
  destruct (pending_found p g Hpend) as [e He].
  unfold failed, failedWith, Consistent, dropTask, promiseState, settle.
  gnorm. rewrite (find_settle _ _ _ _ He), Ht. cbn [filter]. rewrite Htp.
  rewrite Nat.eqb_refl. cbn [negb option_map snd].
  rewrite map_fst_settle, length_map.
  repeat split; try reflexivity; try exact Hwf; discriminate.
Qed.

Lemma taskOf_single p g t :
  tasks g = [t] -> t_promise t = p -> taskOf p g = Some t.
Proof.
  intros Ht Hp. unfold taskOf. rewrite Ht. cbn [find]. rewrite Hp.
  rewrite Nat.eqb_refl. reflexivity.
Qed.

Lemma taskOf_none p g : tasks g = [] -> taskOf p g = None.
Proof. intro Ht. unfold taskOf. rewrite Ht. reflexivity. Qed.

(** The resumption after [await import(...)] with the bindings keeps the
    load in flight. *)
Lemma importSettled_ok t m g :
  Consistent g -> initializationPromise g = Some (t_promise t) ->
  tasks g = [t] ->
  let g' := importSettled t (inr m) g in
  Consistent g' /\ initializationPromise g' = Some (t_promise t)
  /\ tasks g' = [{| t_promise := t_promise t; t_startTime := t_startTime t;
                    t_await := AwaitInit |}]
  /\ loads g' = loads g /\ promises g' = promises g.
Proof.
  intros [Hwf Hc] Hp Ht. rewrite Hp in Hc. destruct Hc as (Hs & Hpend & _).
  unfold importSettled, Consistent, promiseState in *. gnorm.
  rewrite Hp, Ht. cbn [map]. rewrite Nat.eqb_refl.
  repeat split; try assumption; try reflexivity.
  eexists. split; reflexivity.
Qed.

(** The resumption after [await wasmInit()] ends the load, one way or the
    other. *)
Lemma initSettled_spec t r now g :
  Consistent g -> initializationPromise g = Some (t_promise t) ->
  tasks g = [t] ->
  let g' := initSettled t r now g in
  Consistent g' /\ loads g' = loads g
  /\ (succeeded (t_promise t) g'
      \/ exists err, failedWith (t_promise t) err g')
  /\ (forall err, r = Some err -> failedWith (t_promise t) err g').
Proof.
  intros Hg Hp Ht g'. subst g'. unfold initSettled.
  destruct r as [err|].
  - destruct (failed_spec (t_promise t) err g t Hg Hp Ht eq_refl)
      as [Hf Hc].
    split; [exact Hc|]. split; [reflexivity|].
    split; [right; exists err; exact Hf|].
    intros err' H. inversion H; subst. exact Hf.
  - match goal with
    | |- context [set_performanceStats ?st g] =>
        set (g1 := set_performanceStats st g)
    end.
    assert (Hg1 : Consistent g1) by exact Hg.
    assert (Hp1 : initializationPromise g1 = Some (t_promise t)) by exact Hp.
    assert (Ht1 : tasks g1 = [t]) by exact Ht.
    change (wasmModule g1) with (wasmModule g).
    destruct (wasmModule g) as [m|].
    2:{ destruct (failed_spec (t_promise t) "TypeError" g1 t Hg1 Hp1 Ht1
                    eq_refl) as [Hf Hc].
        split; [exact Hc|]. split; [reflexivity|].
        split; [right; eexists; exact Hf|]. intros err H. discriminate. }
    destruct (get_version m) as [err|v].
    { destruct (failed_spec (t_promise t) err g1 t Hg1 Hp1 Ht1 eq_refl)
        as [Hf Hc].
      split; [exact Hc|]. split; [reflexivity|].
      split; [right; eexists; exact Hf|]. intros err' H. discriminate. }
    destruct Hg as [Hwf Hc]. rewrite Hp in Hc.
    destruct Hc as (_ & Hpend & _).
    destruct (pending_found _ g Hpend) as [e He].
    unfold succeeded, Consistent, dropTask, promiseState, settle.
    subst g1. gnorm. rewrite (find_settle _ _ _ _ He), Ht. cbn [filter].
    rewrite Nat.eqb_refl. cbn [negb option_map snd].
    rewrite map_fst_settle, length_map.
    split; [split; [exact Hwf|split; [discriminate|reflexivity]]|].
    split; [reflexivity|].
    split; [left; repeat split|intros err H; discriminate].
Qed.

Lemma Consistent_step i g : Consistent g -> Consistent (step i g).
Proof.
  intro Hg. destruct i as [now|p r|p r now]; cbn [step].
  - destruct (initializationPromise g) as [p|] eqn:Hp.
    + unfold initializeWasm. rewrite Hp. exact Hg.
    + destruct (status_eqb (wasmStatus g) ready) eqn:Hs.
      * apply initializeWasm_ready; [exact Hg|].
        destruct (wasmStatus g); try discriminate. reflexivity.
      * apply initializeWasm_starts; [exact Hg|exact Hp|].
        intro H. rewrite H in Hs. discriminate.
  - destruct (taskOf p g) as [t|] eqn:Ht; [|exact Hg].
    destruct (t_await t) eqn:Ha; [|exact Hg].
    pose proof Hg as [_ Hc].
    destruct (initializationPromise g) as [q|] eqn:Hq.
    2:{ destruct Hc as [_ Hnone]. rewrite (taskOf_none p g Hnone) in Ht.
        discriminate. }
    destruct Hc as (_ & _ & t' & Ht' & Hq').
    assert (t = t' /\ p = q) as [<- <-].
    { unfold taskOf in Ht. rewrite Ht' in Ht. cbn [find] in Ht.
      destruct (Nat.eqb (t_promise t') p) eqn:He; [|discriminate].
      apply Nat.eqb_eq in He. inversion Ht. subst. split; reflexivity. }
    destruct r as [err|m].
    + apply (failed_spec (t_promise t) err g t); try assumption.
      * rewrite Hq, Hq'. reflexivity.
      * reflexivity.
    + apply importSettled_ok; [exact Hg| |exact Ht'].
      rewrite Hq, Hq'. reflexivity.
  - destruct (taskOf p g) as [t|] eqn:Ht; [|exact Hg].
    destruct (t_await t) eqn:Ha; [exact Hg|].
    pose proof Hg as [_ Hc].
    destruct (initializationPromise g) as [q|] eqn:Hq.
    2:{ destruct Hc as [_ Hnone]. rewrite (taskOf_none p g Hnone) in Ht.
        discriminate. }
    destruct Hc as (_ & _ & t' & Ht' & Hq').
    assert (t = t' /\ p = q) as [<- <-].
    { unfold taskOf in Ht. rewrite Ht' in Ht. cbn [find] in Ht.
      destruct (Nat.eqb (t_promise t') p) eqn:He; [|discriminate].
      apply Nat.eqb_eq in He. inversion Ht. subst. split; reflexivity. }
    apply initSettled_spec; [exact Hg| |exact Ht'].
    rewrite Hq, Hq'. reflexivity.
Qed.

Lemma Consistent_run script :
  forall g, Consistent g -> Consistent (run script g).
Proof.
  induction script as [|i rest IH]; intros g Hg; [exact Hg|].
  cbn [run]. apply IH. apply Consistent_step. exact Hg.
Qed.

Lemma Consistent_initial : Consistent initial.
Proof.
  split; [reflexivity|]. cbn. split; [discriminate|reflexivity].
Qed.

(** C6. In every state the gateway can reach: while an initialization is
    in flight its promise is pending and every call returns that promise
    and changes nothing, so at most one load is under way; with the status
    [ready] a call returns a new, fulfilled promise and starts no load; a
    load in flight ends with the marker cleared, whether it fails (at the
    import, at the initialization or after it) or succeeds; and with the
    status [error] nothing is in flight and a call starts a fresh load with
    a new pending promise. *)
Theorem initializeWasm_single_flight (script : list Input) :
  let g := run script initial in
  (forall p,
     initializationPromise g = Some p ->
     promiseState p g = Some Pending /\ wasmStatus g = initializing
     /\ (exists t, taskOf p g = Some t)
     /\ forall now, initializeWasm now g = (p, g))
  /\ (List.length (tasks g) <= 1)%nat
  /\ (wasmStatus g = ready ->
      forall now,
        let q := fst (initializeWasm now g) in
        let g' := snd (initializeWasm now g) in
        promiseState q g = None /\ promiseState q g' = Some Fulfilled
        /\ loads g' = loads g /\ tasks g' = [] /\ wasmStatus g' = ready
        /\ initializationPromise g' = None)
  /\ (forall p t,
        initializationPromise g = Some p -> taskOf p g = Some t ->
        (t_await t = AwaitImport ->
         forall err, failedWith p err (step (ImportSettles p (inl err)) g))
        /\ (t_await t = AwaitInit ->
            (forall err now,
               failedWith p err (step (InitSettles p (Some err) now) g))
            /\ forall now,
                 succeeded p (step (InitSettles p None now) g)
                 \/ exists err,
                      failedWith p err (step (InitSettles p None now) g)))
  /\ (wasmStatus g = error ->
      initializationPromise g = None
      /\ forall now,
           startedLoad now (fst (initializeWasm now g)) g
             (snd (initializeWasm now g))).
Proof.
  intro g.
  assert (Hg : Consistent g)
    by (apply Consistent_run; apply Consistent_initial).
  pose proof Hg as [Hwf Hc].
  split; [|split; [|split; [|split]]].
  - intros p Hp. rewrite Hp in Hc. destruct Hc as (Hs & Hpend & t & Ht & Htp).
    split; [exact Hpend|]. split; [exact Hs|].
    split; [exists t; apply taskOf_single; assumption|].
    intro now. unfold initializeWasm. rewrite Hp. reflexivity.
  - destruct (initializationPromise g) as [p|].
    + destruct Hc as (_ & _ & t & -> & _). cbn. lia.
    + destruct Hc as [_ ->]. cbn. lia.
  - intros Hs now q g'.
    destruct (initializeWasm_ready now g Hg Hs)
      as (H1 & H2 & H3 & H4 & H5 & H6 & _).
    repeat split; assumption.
  - intros p t Hp Ht.
    assert (Hone : tasks g = [t] /\ t_promise t = p).
    { rewrite Hp in Hc. destruct Hc as (_ & _ & t' & Ht' & Htp).
      rewrite (taskOf_single p g t' Ht' Htp) in Ht. inversion Ht; subst.
      split; [exact Ht'|reflexivity]. }
    destruct Hone as [Hts Htp]. split.
    + intros Ha err. cbn [step]. rewrite Ht, Ha. cbn [importSettled].
      rewrite Htp. apply (failed_spec p err g t Hg Hp Hts Htp).
    + intros Ha. rewrite <- Htp in Hp. split.
      * intros err now. cbn [step]. rewrite Ht, Ha. rewrite <- Htp.
        apply (initSettled_spec t (Some err) now g Hg Hp Hts). reflexivity.
      * intros now. cbn [step]. rewrite Ht, Ha. rewrite <- Htp.
        apply (initSettled_spec t None now g Hg Hp Hts).
  - intro Hs.
    destruct (initializationPromise g) as [p|] eqn:Hp.
    { destruct Hc as [Hi _]. congruence. }
    split; [reflexivity|]. intro now.
    apply initializeWasm_starts; [exact Hg|exact Hp|]. congruence.
Qed.

End GatewayFacts.

(** ** The theorems at work on the mounted component *)

Import Probe.

Ltac find_in_trace := vm_compute; repeat (first [left; reflexivity | right]).

Lemma mounted_publication_sound :
  In (EvPublish 1 firstRange 1000) (trace (run (E := engine) mounted initial))
  /\ 0 <= startIndex firstRange
  /\ startIndex firstRange <= endIndex firstRange
  /\ endIndex firstRange <= 1000
  /\ Z.of_nat (List.length (items firstRange))
     = endIndex firstRange - startIndex firstRange.
Proof.
  assert (Hin : In (EvPublish 1 firstRange 1000)
                   (trace (run (E := engine) mounted initial)))
    by find_in_trace.
  split; [exact Hin|].
  destruct (published_range_invariant (E := engine) mounted 1%nat
              firstRange 1000 Hin) as (H1 & H2 & H3 & H4 & _).
  split; [exact H1|split; [exact H2|split; [exact H3|exact H4]]].
Defined.

Lemma mounted_recompute_skips :
  element (self mountedWorld) = Some 7%nat
  /\ candidate (args e1000) (self mountedWorld) 0%Q 400%Q = Some sameCandidate
  /\ snd (calculateRange e1000 mountedWorld) = Skipped
  /\ self (fst (calculateRange e1000 mountedWorld)) = self mountedWorld
  /\ rangeObj (self (fst (calculateRange e1000
                           (fst (calculateRange e1000 mountedWorld)))))
     = rangeObj (self (fst (calculateRange e1000 mountedWorld))).
Proof.
  assert (He : element (self mountedWorld) = Some 7%nat) by reflexivity.
  assert (Hc : candidate (args e1000) (self mountedWorld) 0%Q 400%Q
               = Some sameCandidate) by (vm_compute; reflexivity).
  split; [exact He|]. split; [exact Hc|].
  destruct (skip_rule e1000 mountedWorld) as [Hskip Htwice].
  destruct (Hskip 7%nat sameCandidate He) as (H1 & H2 & _).
  - reflexivity.
  - exact Hc.
  - reflexivity.
  - reflexivity.
  - reflexivity.
  - split; [exact H1|]. split; [exact H2|]. apply Htwice.
Defined.

Lemma thousand_rows_uniform :
  (exists s w',
     (s == 50)%Q
     /\ setupVirtualizer (E := engine) e1000 initial = (w', Normal)
     /\ isUniform (self w') = true
     /\ uniformVirtualizer (self w') = Some (O, uniform_new 1000 s))
  /\ (totalHeight firstRange == inject_Z 1000 * 50)%Q
  /\ isUniform
       (self (fst (setupVirtualizer (E := engine)
                     (at_ (rows 1000 alternating) 0) initial))) = false.
Proof.
  destruct (uniform_path_selection (E := engine) 1000 50) as (H1 & H2 & H3);
    [lia|].
  split; [|split].
  - destruct (H1 e1000 initial) as (s & w' & Hs & Hw & Hi & _ & Hh & _).
    + reflexivity.
    + intros i _. reflexivity.
    + exists s, w'. split; [exact Hs|split; [exact Hw|split; assumption]].
  - apply (H2 ltac:(discriminate) mounted) with (obj := 1%nat) (count := 1000).
    + intros env act Hin.
      assert (Hargs : args env = rows 1000 (fixed 50)).
      { cbn in Hin. repeat (destruct Hin as [Hin|Hin]);
          try contradiction; inversion Hin; reflexivity. }
      rewrite Hargs. split; [reflexivity|]. intros i _. reflexivity.
    + find_in_trace.
  - apply (H3 (at_ (rows 1000 alternating) 0) initial 1).
    + reflexivity.
    + lia.
    + discriminate.
Defined.

Lemma multiplier_examples :
  scrollMultiplier (self (fst (setupVirtualizer (E := engine) e1000 initial)))
  = 1%Q
  /\ scrollMultiplier
       (self (fst (setupVirtualizer (E := engine) eMillion initial)))
     = (inject_Z 1000000 * 50 / MAX_SAFE_SCROLL_HEIGHT)%Q
  /\ scrollMultiplier (self (fst (handleItemCountChange e2000 mountedWorld)))
     = 1%Q
  /\ scrollMultiplier
       (self (fst (handleItemCountChange eStripes30
                     (run (E := engine) mountedStripes initial))))
     = 1%Q.
Proof.
  destruct (scrollMultiplier_law (E := engine)) as (H1 & H2 & H3 & _).
  split; [|split; [|split]].
  - apply (H1 e1000 initial _ (inject_Z 1000 * 50)%Q).
    + reflexivity.
    + reflexivity.
    + discriminate.
  - apply (H1 eMillion initial _ (inject_Z 1000000 * 50)%Q).
    + reflexivity.
    + reflexivity.
    + reflexivity.
  - apply (H2 e2000 mountedWorld O (1000, 50%Q) (inject_Z 2000 * 50)%Q);
      try reflexivity. discriminate.
  - apply (H3 eStripes30 (run (E := engine) mountedStripes initial) O
             (allSizes alternating 20)
             (JS.sum (allSizes alternating 30))); try reflexivity.
    + cbn. lia.
    + vm_compute. discriminate.
Defined.

Lemma scrolled_teardown_frees_once :
  holds (self (run (E := engine) scrolledOnce initial)) O
  /\ frees O (trace (run (E := engine)
                       (scrolledOnce
                        ++ (e1000, Destroy) :: [(e1000, Frame)]) initial))
     = 1%nat
  /\ ~ In (rafId (self (willDestroy (run (E := engine) scrolledOnce initial))))
         (map fst (frames (willDestroy
                             (run (E := engine) scrolledOnce initial)))).
Proof.
  assert (Hh : holds (self (run (E := engine) scrolledOnce initial)) O).
  { right. exists (1000, 50%Q). vm_compute. reflexivity. }
  split; [exact Hh|].
  destruct (teardown_releases_once (E := engine) scrolledOnce
              [(e1000, Frame)] e1000 O Hh) as (H1 & _ & _ & _ & H2).
  split; [exact H1|]. apply H2. vm_compute. discriminate.
Defined.

Lemma gateway_examples :
  Gateway.initializeWasm 5%Q (Gateway.run calling Gateway.initial)
  = (O, Gateway.run calling Gateway.initial)
  /\ Gateway.startedLoad 5%Q
       (fst (Gateway.initializeWasm 5%Q (Gateway.run failing Gateway.initial)))
       (Gateway.run failing Gateway.initial)
       (snd (Gateway.initializeWasm 5%Q (Gateway.run failing Gateway.initial)))
  /\ Gateway.loads
       (snd (Gateway.initializeWasm 5%Q (Gateway.run loaded Gateway.initial)))
     = Gateway.loads (Gateway.run loaded Gateway.initial)
  /\ Gateway.failedWith O "network"
       (Gateway.step (Gateway.ImportSettles O (inl "network"%string))
          (Gateway.run calling Gateway.initial)).
Proof.
  split; [|split; [|split]].
  - destruct (initializeWasm_single_flight calling) as (H & _).
    destruct (H O) as (_ & _ & _ & Hsame); [reflexivity|]. apply Hsame.
  - destruct (initializeWasm_single_flight failing) as (_ & _ & _ & _ & H).
    destruct H as [_ Hstart]; [reflexivity|]. apply Hstart.
  - destruct (initializeWasm_single_flight loaded) as (_ & _ & H & _).
    destruct (H eq_refl 5%Q) as (_ & _ & Hl & _). exact Hl.
  - destruct (initializeWasm_single_flight calling) as (_ & _ & _ & H & _).
    destruct (H O {| Gateway.t_promise := O; Gateway.t_startTime := 0%Q;
                     Gateway.t_await := Gateway.AwaitImport |})
      as [Hfail _]; [reflexivity|reflexivity|].
    apply Hfail. reflexivity.
Defined.

Lemma two_thousand_rows_republished :
  uniformVirtualizer (self (run (E := engine) mounted initial))
  = Some (O, (1000, 50%Q))
  /\ (totalHeight (range (self (run (E := engine) mounted initial)))
      == 50000)%Q
  /\ snd (handleItemCountChange e2000 (run (E := engine) mounted initial))
     = Published
  /\ rangeObj (self (fst (handleItemCountChange e2000
                           (run (E := engine) mounted initial))))
     <> rangeObj (self (run (E := engine) mounted initial))
  /\ (totalHeight
        (range (self (fst (handleItemCountChange e2000
                             (run (E := engine) mounted initial)))))
      == 100000)%Q.
Proof.
  assert (Hh : uniformVirtualizer (self (run (E := engine) mounted initial))
               = Some (O, (1000, 50%Q))) by reflexivity.
  split; [exact Hh|]. split; [reflexivity|].
  destruct (count_change_republishes (E := engine) mounted e2000 O
              (1000, 50%Q) eq_refl eq_refl eq_refl Hh)
    as (_ & _ & _ & _ & _ & _ & _ & Hforce & Hpub).
  assert (Ho : snd (handleItemCountChange e2000
                      (run (E := engine) mounted initial)) = Published).
  { apply (Hforce 7%nat sameCandidate).
    - reflexivity.
    - reflexivity.
    - vm_compute. reflexivity.
    - vm_compute. discriminate. }
  split; [exact Ho|].
  destruct (Hpub Ho) as (Hobj & _ & _ & _ & Hex).
  split; [exact Hobj|]. apply Hex; reflexivity.
Defined.


Lemma blank_page_reschedules :
  element (self (run (E := engine) mountedBlank initial)) = Some 7%nat
  /\ snd (calculateRange eBlank (run (E := engine) mountedBlank initial))
     = Rescheduled
  /\ self (fst (calculateRange eBlank
                  (run (E := engine) mountedBlank initial)))
     = self (run (E := engine) mountedBlank initial).
Proof.
  assert (He : element (self (run (E := engine) mountedBlank initial))
               = Some 7%nat) by reflexivity.
  split; [exact He|].
  destruct (layout_not_settled (E := engine) eBlank
              (run (E := engine) mountedBlank initial) 7%nat He)
    as (H1 & H2 & _).
  - discriminate.
  - split; [exact H1|exact H2].
Defined.

Lemma empty_list_samples_once :
  exists evs,
    trace (fst (setupVirtualizer (E := engine) eEmpty initial))
    = trace (initial (E := engine)) ++ evs
    /\ estimatedAt evs = [0].
Proof.
  destruct (estimator_sampled_at_zero (E := engine) eEmpty initial)
    as (evs & more & Ht & He & _ & H0).
  destruct (H0 eq_refl) as (Hmore & _).
  exists evs. split; [exact Ht|]. rewrite He, Hmore. reflexivity.
Defined.

(** C5, on the input where the code departs from it.  A scroll event has
    set the latch and queued the first stage of the scheduler.
    [willDestroy] cancels the frame recorded in [rafId], and [handleScroll]
    records there only the second stage, from inside the first: the
    teardown that follows the scroll event finds [rafId = 0], leaves the
    callback in the queue and the latch set, and two frames later
    [calculateRange] runs, after the handle was freed. *)
Lemma teardown_leaves_callbacks :
  let torn := willDestroy (run (E := engine) scrolled initial) in
  frames torn = [(2%nat, CbScrollStage1)]
  /\ rafPending (self torn) = true
  /\ trace (run [(e1000, Frame); (e1000, Frame)] torn)
     = trace torn ++ [EvRequestFrame 3 CbScrollStage2; EvRecompute]
  /\ In EvDestroy (trace torn)
  /\ ~ (frames torn = [] /\ rafPending (self torn) = false).
Proof.
  vm_compute. split; [reflexivity|]. split; [reflexivity|].
  split; [reflexivity|]. split; [find_in_trace|].
  intros [H _]. discriminate H.
Qed.


(** ** Further runs of the model *)

(** The same teardown one frame later: the first stage has run and has
    recorded the second in [rafId]; [willDestroy] cancels it, and the frames
    that follow run nothing. *)
Example teardown_after_first_stage_cancels :
  let w := run (E := engine) scrolledOnce initial in
  frames w = [(3%nat, CbScrollStage2)]
  /\ rafId (self w) = 3%nat
  /\ frames (willDestroy w) = []
  /\ trace (run [(e1000, Frame); (e1000, Frame)] (willDestroy w))
     = trace (willDestroy w).
Proof. vm_compute. repeat split. Qed.

Example ToInt32_truncates_and_wraps :
  JS.ToInt32 (-7 # 2) = -3 /\ JS.ToInt32 (7 # 2) = 3
  /\ JS.ToInt32 (inject_Z (2 ^ 31)) = - 2 ^ 31
  /\ JS.ToInt32 (inject_Z (2 ^ 32 + 5)) = 5.
Proof. vm_compute. repeat split. Qed.

(** The scenarios of the specification: a thousand rows of 50 pixels, a
    million of them, and stripes of 40 and 60 pixels. *)
Example thousand_rows :
  let w := run (E := engine) mounted initial in
  isUniform (self w) = true /\ scrollMultiplier (self w) = 1%Q
  /\ (totalHeight (range (self w)) == 50000)%Q.
Proof. vm_compute. repeat split. Qed.

Example million_rows :
  let w := run (E := engine)
             [(eMillion, Install 7%nat); (eMillion, WasmFulfilled);
              (eMillion, Frame)] initial in
  isUniform (self w) = true /\ (scrollMultiplier (self w) == 10 # 3)%Q
  /\ (totalHeight (range (self w)) == MAX_SAFE_SCROLL_HEIGHT)%Q
  /\ match scrollToIndex 300000 (self w) with
     | Some domOffset => (domOffset == 4500000)%Q
     | None => False
     end.
Proof. vm_compute. repeat split. Qed.

Example striped_rows :
  let w := run (E := engine) mountedStripes initial in
  isUniform (self w) = false /\ scrollMultiplier (self w) = 1%Q
  /\ (totalHeight (range (self w)) == 1000)%Q
  /\ estimatedAt (trace w)
     = [0; 1; 0; 1; 2; 3; 4; 5; 6; 7; 8; 9; 10; 11; 12; 13; 14; 15; 16; 17;
        18; 19].
Proof. vm_compute. repeat split. Qed.

(** An engine that answers with an inverted range makes the recomputation
    throw: nothing is published, and the tracking keeps the inverted pair. *)
Example inverted_answer_throws :
  let w := run (E := inverted) mounted initial in
  range (self w) = emptyRange /\ lastStart (self w) = 5
  /\ lastEnd (self w) = 3
  /\ snd (calculateRange e1000
            (run (E := inverted)
               [(e1000, Install 7%nat); (e1000, WasmFulfilled)] initial))
     = Threw.
Proof. vm_compute. repeat split. Qed.

(** The factories of the gateway throw until the load has completed. *)
Example getWasmModule_needs_ready :
  Gateway.getWasmModule (Gateway.run calling Gateway.initial)
  = inl "WASM not initialized. Call initializeWasm() first."%string
  /\ Gateway.getWasmModule (Gateway.run loaded Gateway.initial)
     = inr bindings.
Proof. vm_compute. repeat split. Qed.

Import Invariants.

(** * Further properties of the controller *)

(** ** The range held and the ranges published *)

Section RangeHeld.

Context {E : Engine}.

(** A recomputation either leaves the range as it is or replaces it by one
    built from its candidate. *)
Lemma calculateRange_range env (w : World) :
  range (self (fst (calculateRange env w))) = range (self w)
  \/ exists sp vp c n its offs szs fills th look,
       candidate (args env) (self w) sp vp = Some c
       /\ JS.new_Array (c_end c - c_start c) = Some n
       /\ visibleItems (self w) (c_start c) n (c_firstOffset c)
          = (its, offs, szs, fills)
       /\ contentHeight (self w) (itemCount (args env)) = (th, look)
       /\ range (self (fst (calculateRange env w)))
          = {| startIndex := c_start c; endIndex := c_end c; items := its;
               offsets := offs; sizes := szs;
               totalHeight := Qmin th MAX_SAFE_SCROLL_HEIGHT;
               paddingTop := c_paddingTop c |}.
Proof.
  unfold calculateRange. norm.
  destruct (element (self w)) as [el|]; [|left; reflexivity].
  destruct (readViewport _ _) as [sp vp].
  destruct (Qle_bool vp 0); [left; reflexivity|].
  destruct (candidate _ _ _ _) as [c|] eqn:Hc; [|left; reflexivity].
  destruct (unchanged _ _); [left; reflexivity|].
  destruct (JS.new_Array _) as [n|] eqn:Hn; [|left; reflexivity].
  destruct (visibleItems _ _ _ _) as [[[its offs] szs] fills] eqn:Hv.
  destruct (contentHeight _ _) as [th look] eqn:Hh.
  right. exists sp, vp, c, n, its, offs, szs, fills, th, look.
  norm. repeat split; assumption.
Qed.

Variable S : VirtualRange -> Prop.
Hypothesis S_initial : S emptyRange.
Hypothesis S_calculateRange :
  forall env (w : World),
    S (range (self w)) -> S (range (self (fst (calculateRange env w)))).

(** A property of ranges that the initial range has and every
    recomputation keeps holds of the range held at any time, and of every
    range published. *)
Lemma range_held script :
  S (range (self (run script initial)))
  /\ Forall (publishes (fun r _ => S r)) (trace (run script initial)).
Proof.
  apply (Inv_run
           (fun w => S (range (self w))
                     /\ Forall (publishes (fun r _ => S r)) (trace w))
           (fun _ => True)).
  - intros env w _ [Hs Ht]. pose proof (S_calculateRange env w Hs) as Hs'.
    split; [exact Hs'|].
    destruct (calculateRange_trace env w) as (evs & -> & Hevs).
    apply Forall_app. split; [exact Ht|].
    eapply Forall_impl; [|exact Hevs].
    intros e He. destruct e; try exact I. cbn [calcEvent] in He.
    destruct He as (_ & _ & -> & _). exact Hs'.
  - intros env w _ [Hs Ht]. unfold handleItemCountChange.
    destruct (negb (wasmReady (self w)) || isLoading (self w));
      [split; assumption|].
    assert (Hgo : forall w2 : World,
              S (range (self w2)) ->
              Forall (publishes (fun r _ => S r)) (trace w2) ->
              S (range (self (fst (calculateRange env w2))))
              /\ Forall (publishes (fun r _ => S r))
                   (trace (fst (calculateRange env w2)))).
    { intros w2 Hs2 Ht2. pose proof (S_calculateRange env w2 Hs2) as Hs'.
      split; [exact Hs'|].
      destruct (calculateRange_trace env w2) as (evs & -> & Hevs).
      apply Forall_app. split; [exact Ht2|].
      eapply Forall_impl; [|exact Hevs].
      intros e He. destruct e; try exact I. cbn [calcEvent] in He.
      destruct He as (_ & _ & -> & _). exact Hs'. }
    destruct (if isUniform (self w) then uniformVirtualizer (self w)
              else None) as [[h u]|].
    + apply Hgo; [exact Hs|]. unfold resetTracking, setCount. norm.
      apply publishes_snoc; [exact Ht|exact I].
    + destruct (virtualizer (self w)) as [[h v]|]; [|split; assumption].
      destruct (JS.new_Array _) as [n|].
      * apply Hgo; [exact Hs|].
        unfold resetTracking, rebuild, createVirtualizer. norm.
        repeat (apply publishes_snoc; [|exact I]).
        apply Forall_app. split; [exact Ht|apply publishes_estimates].
      * split; [exact Hs|]. norm. apply publishes_snoc; [exact Ht|exact I].
  - intros env w _ [Hs Ht]. split.
    + unfold initialize_fulfilled, setupVirtualizer.
      destruct (sampleSizes _ _ _ _) as [uniform called].
      destruct uniform; [exact Hs|].
      destruct (JS.new_Array _) as [n|]; exact Hs.
    + apply publishes_fulfilled. exact Ht.
  - intros err w Hw. exact Hw.
  - intros w [Hs Ht]. split.
    + rewrite willDestroy_self. exact Hs.
    + apply publishes_willDestroy. exact Ht.
  - intros el w Hw. exact Hw.
  - intros b w Hw. exact Hw.
  - intros id w Hw. exact Hw.
  - intros fs w Hw. exact Hw.
  - intros cb w [Hs Ht]. split; [exact Hs|].
    norm. apply publishes_snoc; [exact Ht|exact I].
  - intros env act _. exact I.
  - split; [exact S_initial|apply Forall_nil].
Qed.

End RangeHeld.

Section RangeShape.

Context {E : Engine}.

Lemma candidate_firstOffset a (this : Virtualizer) sp vp c :
  candidate a this sp vp = Some c ->
  isUniform this = true
  \/ exists h v, virtualizer this = Some (h, v)
                 /\ c_firstOffset c = variable_get_offset v (c_start c).
Proof.
  unfold candidate, queryRange, firstOffset.
  destruct (isUniform this); [left; reflexivity|].
  destruct (virtualizer this) as [[h v]|]; [|discriminate].
  intro H. inversion H. right. exists h, v. split; reflexivity.
Qed.

Lemma capped_calculateRange env (w : World) :
  capped (range (self w)) -> capped (range (self (fst (calculateRange env w)))).
Proof.
  intro Hw.
  destruct (calculateRange_range env w)
    as [->|(sp & vp & c & n & its & offs & szs & fills & th & look
            & _ & _ & _ & _ & ->)]; [exact Hw|].
  unfold capped. cbn [totalHeight]. apply Q.le_min_r.
Qed.

Lemma consecutive_calculateRange env (w : World) :
  consecutive (range (self w)) ->
  consecutive (range (self (fst (calculateRange env w)))).
Proof.
  intro Hw.
  destruct (calculateRange_range env w)
    as [->|(sp & vp & c & n & its & offs & szs & fills & th & look
            & Hc & Hn & Hv & _ & ->)]; [exact Hw|].
  unfold consecutive. cbn [items startIndex endIndex].
  apply new_Array_Some in Hn. destruct Hn as [_ Hn].
  rewrite <- Hn, Nat2Z.id.
  apply candidate_firstOffset in Hc. revert Hv. unfold visibleItems.
  destruct Hc as [->|(h & v & Hv & _)].
  - intro H. inversion H. reflexivity.
  - destruct (isUniform (self w)); [intro H; inversion H; reflexivity|].
    rewrite Hv. intro H. inversion H. reflexivity.
Qed.

Lemma anchored_calculateRange env (w : World) :
  anchored (range (self w)) ->
  anchored (range (self (fst (calculateRange env w)))).
Proof.
  intro Hw.
  destruct (calculateRange_range env w)
    as [->|(sp & vp & c & n & its & offs & szs & fills & th & look
            & Hc & Hn & Hv & _ & ->)]; [exact Hw|].
  unfold anchored. cbn [offsets].
  apply candidate_firstOffset in Hc. revert Hv. unfold visibleItems.
  destruct n as [|n].
  { destruct (isUniform (self w));
      [|destruct (virtualizer (self w)) as [[h v]|]];
      intro H; inversion H; intros o Ho; discriminate. }
  unfold JS.indices. cbn [seq map].
  destruct (isUniform (self w)) eqn:Hu.
  - intro H. inversion H. intros o Ho. cbn in Ho. inversion Ho.
    change (inject_Z 0) with 0%Q. ring.
  - destruct Hc as [Hc|(h & v & Hv & Hf)]; [discriminate|].
    rewrite Hv. intro H. inversion H. intros o Ho. cbn in Ho. inversion Ho.
    rewrite Hf. rewrite Z.add_0_r. ring.
Qed.

End RangeShape.

(** X1. At every moment of every lifetime, the [totalHeight] of the range
    the component holds is at most 15,000,000, and so is that of every range
    it has published. *)
Theorem totalHeight_capped {E : Engine} (script : list (Env * Action)) :
  (totalHeight (range (self (run script initial)))
   <= MAX_SAFE_SCROLL_HEIGHT)%Q
  /\ Forall (publishes (fun r _ =>
               (totalHeight r <= MAX_SAFE_SCROLL_HEIGHT)%Q))
       (trace (run script initial)).
Proof.
  apply (range_held capped).
  - unfold capped. cbn. discriminate.
  - apply capped_calculateRange.
Qed.

(** X2. The [items] of the range held, and of every range published, are
    the consecutive indices [startIndex, startIndex + 1, ..., endIndex - 1];
    those of a published range are indices of the list, at least 0 and
    below the item count read when it was published. *)
Theorem items_are_the_indices {E : Engine} (script : list (Env * Action)) :
  items (range (self (run script initial)))
  = map (fun i => startIndex (range (self (run script initial))) + i)
      (JS.indices
         (Z.to_nat (endIndex (range (self (run script initial)))
                    - startIndex (range (self (run script initial))))))
  /\ Forall (publishes (fun r count =>
               items r
               = map (fun i => startIndex r + i)
                   (JS.indices (Z.to_nat (endIndex r - startIndex r)))
               /\ Forall (fun i => 0 <= i < count) (items r)))
       (trace (run script initial)).
Proof.
  destruct (range_held consecutive) with (script := script) as [Hheld Hpub].
  - reflexivity.
  - apply consecutive_calculateRange.
  - split; [exact Hheld|].
    assert (Hok : Forall (publishes (fun r n => rangeOk n r))
                    (trace (run script initial))).
    { apply publishes_run. intros env w e. destruct e; cbn; tauto. }
    rewrite Forall_forall in *. intros e He.
    specialize (Hpub e He). specialize (Hok e He).
    destruct e; try exact I. cbn [publishes] in *.
    split; [exact Hpub|].
    unfold consecutive in Hpub. rewrite Hpub.
    destruct Hok as (H0 & H1 & H2 & _).
    apply Forall_forall. intros i Hi. apply in_map_iff in Hi.
    destruct Hi as (k & <- & Hk). unfold JS.indices in Hk.
    apply in_map_iff in Hk. destruct Hk as (j & <- & Hj).
    apply in_seq in Hj. lia.
Qed.

(** X3. In the range held, and in every range published, the offset of the
    first visible item is 0: offsets are relative to the first item, whose
    position is carried by [paddingTop]. *)
Theorem first_offset_is_zero {E : Engine} (script : list (Env * Action)) :
  (forall o,
     nth_error (offsets (range (self (run script initial)))) 0 = Some o ->
     (o == 0)%Q)
  /\ Forall (publishes (fun r _ =>
               forall o, nth_error (offsets r) 0 = Some o -> (o == 0)%Q))
       (trace (run script initial)).
Proof.
  apply (range_held anchored).
  - intros o Ho. discriminate.
  - apply anchored_calculateRange.
Qed.

(** ** Before the engine is ready, and after it failed to load *)

Section GuardedPreservation.

Context {E : Engine}.

Variable Inv : World -> Prop.

Hypothesis Inv_calculateRange :
  forall env w, Inv w -> Inv (fst (calculateRange env w)).
Hypothesis Inv_handleItemCountChange :
  forall env w, Inv w -> Inv (fst (handleItemCountChange env w)).
Hypothesis Inv_fulfilled :
  forall env w, isLoading (self w) = true -> Inv w ->
                Inv (initialize_fulfilled env w).
Hypothesis Inv_rejected :
  forall err w, isLoading (self w) = true -> Inv w ->
                Inv (initialize_rejected err w).
Hypothesis Inv_willDestroy : forall w, Inv w -> Inv (willDestroy w).
Hypothesis Inv_element :
  forall el w, Inv w -> Inv (assign (set_element el) w).
Hypothesis Inv_rafPending :
  forall b w, Inv w -> Inv (assign (set_rafPending b) w).
Hypothesis Inv_rafId :
  forall id w, Inv w -> Inv (assign (set_rafId id) w).
Hypothesis Inv_frames :
  forall fs w, Inv w -> Inv (with_frames fs w).
Hypothesis Inv_request :
  forall cb w, Inv w -> Inv (snd (requestAnimationFrame cb w)).

(** As [Inv_step], for an invariant that the settling of the gateway
    promise keeps only where it can happen, while the component is loading;
    first for every action but the teardown. *)
Lemma Inv_step_alive env a w : a <> Destroy -> Inv w -> Inv (step env a w).
Proof.
  intros Ha Hw. destruct a; cbn [step].
  - destruct (isLoading (self w)) eqn:Hl; [apply Inv_fulfilled|]; assumption.
  - destruct (isLoading (self w)) eqn:Hl; [apply Inv_rejected|]; assumption.
  - unfold scrollElementRef.
    set (w1 := assign (set_element (Some el)) w).
    assert (Hgo : Inv (if negb (isLoading (self w1))
                       then snd (requestAnimationFrame CbRecompute w1)
                       else w1)).
    { subst w1.
      destruct (negb _); [apply Inv_request|]; apply Inv_element; exact Hw. }
    destruct (element (self w)) as [old|]; [|exact Hgo].
    destruct (Nat.eqb old el); [exact Hw|exact Hgo].
  - apply Inv_element. exact Hw.
  - apply Inv_handleItemCountChange; assumption.
  - destruct (element (self w)); [|exact Hw]. unfold handleScroll.
    destruct (rafPending (self w)); [exact Hw|].
    apply Inv_request. apply Inv_rafPending. exact Hw.
  - apply (Inv_runFrame Inv (fun _ => True)); try assumption; try exact I.
    intros env0 w0 _. apply Inv_calculateRange.
  - exfalso. apply Ha. reflexivity.
Qed.

Lemma Inv_run_alive script :
  (forall env, ~ In (env, Destroy) script) ->
  forall w, Inv w -> Inv (run script w).
Proof.
  induction script as [|[env a] rest IH]; intros Hs w Hw.
  - exact Hw.
  - cbn [run]. apply IH.
    + intros env' Hin. apply (Hs env'). right. exact Hin.
    + apply Inv_step_alive; [|exact Hw].
      intro Ha. subst a. apply (Hs env). left. reflexivity.
Qed.

Lemma Inv_step_guarded env a w : Inv w -> Inv (step env a w).
Proof.
  intro Hw. destruct a;
    try (apply Inv_step_alive; [discriminate|exact Hw]).
  apply Inv_willDestroy. exact Hw.
Qed.

Lemma Inv_run_guarded script : forall w, Inv w -> Inv (run script w).
Proof.
  induction script as [|[env a] rest IH]; intros w Hw.
  - exact Hw.
  - cbn [run]. apply IH. apply Inv_step_guarded. exact Hw.
Qed.

End GuardedPreservation.

Section Dormant.

Context {E : Engine}.

(** Without a handle a recomputation changes no field of the component and
    adds only quiet events. *)
Lemma calculateRange_no_handle env (w : World) :
  virtualizer (self w) = None -> uniformVirtualizer (self w) = None ->
  self (fst (calculateRange env w)) = self w
  /\ exists evs, trace (fst (calculateRange env w)) = trace w ++ evs
                 /\ Forall quietEvent evs.
Proof.
  intros Hv Hu. unfold calculateRange. norm.
  destruct (element (self w)) as [el|].
  - destruct (readViewport _ _) as [sp vp].
    destruct (Qle_bool vp 0).
    + norm. split; [reflexivity|]. eexists. rewrite <- app_assoc.
      split; [reflexivity|].
      apply Forall_cons; [exact I|].
      apply Forall_cons; [exact I|apply Forall_nil].
    + unfold candidate, queryRange. rewrite Hv, Hu.
      destruct (isUniform (self w)); norm; (split; [reflexivity|]);
        exists [EvRecompute]; (split; [reflexivity|]);
        (apply Forall_cons; [exact I|apply Forall_nil]).
  - norm. split; [reflexivity|]. exists [EvRecompute]. split; [reflexivity|].
    apply Forall_cons; [exact I|apply Forall_nil].
Qed.

Lemma dormant_calculateRange env (w : World) :
  dormant w -> dormant (fst (calculateRange env w)).
Proof.
  intros (Hr & Ho & Hv & Hu & Ht).
  destruct (calculateRange_no_handle env w Hv Hu) as (Hs & evs & He & Hq).
  unfold dormant. rewrite Hs, He.
  repeat (split; [assumption|]). apply Forall_app. split; assumption.
Qed.

Lemma dormant_willDestroy (w : World) : dormant w -> dormant (willDestroy w).
Proof.
  intros (Hr & Ho & Hv & Hu & Ht). unfold dormant.
  rewrite willDestroy_self, willDestroy_trace, Hv, Hu. norm.
  repeat (split; [first [assumption|reflexivity]|]).
  apply Forall_app. split; [exact Ht|].
  apply Forall_cons; [exact I|].
  destruct (Nat.eqb (rafId (self w)) 0); cbn [app];
    [apply Forall_nil|apply Forall_cons; [exact I|apply Forall_nil]].
Qed.

Lemma dormant_request cb (w : World) :
  dormant w -> dormant (snd (requestAnimationFrame cb w)).
Proof.
  intros (Hr & Ho & Hv & Hu & Ht). unfold dormant. norm.
  repeat (split; [assumption|]). apply Forall_app. split; [exact Ht|].
  apply Forall_cons; [exact I|apply Forall_nil].
Qed.

Lemma handleItemCountChange_flags env (w : World) :
  isLoading (self (fst (handleItemCountChange env w))) = isLoading (self w)
  /\ wasmReady (self (fst (handleItemCountChange env w))) = wasmReady (self w).
Proof.
  unfold handleItemCountChange.
  destruct (negb (wasmReady (self w)) || isLoading (self w));
    [split; reflexivity|].
  destruct (if isUniform (self w) then uniformVirtualizer (self w) else None)
    as [[h u]|].
  - match goal with
    | |- context [calculateRange ?e ?x] =>
        destruct (calculateRange_static e x)
          as (_ & _ & _ & _ & _ & _ & -> & -> & _)
    end.
    split; reflexivity.
  - destruct (virtualizer (self w)) as [[h v]|]; [|split; reflexivity].
    destruct (JS.new_Array _) as [n|]; [|split; reflexivity].
    match goal with
    | |- context [calculateRange ?e ?x] =>
        destruct (calculateRange_static e x)
          as (_ & _ & _ & _ & _ & _ & -> & -> & _)
    end.
    split; reflexivity.
Qed.

Lemma initialize_fulfilled_flags env (w : World) :
  isLoading (self (initialize_fulfilled env w)) = false
  /\ wasmReady (self (initialize_fulfilled env w)) = true.
Proof.
  unfold initialize_fulfilled, setupVirtualizer.
  destruct (sampleSizes _ _ _ _) as [uniform called].
  destruct uniform; [split; reflexivity|].
  destruct (JS.new_Array _) as [n|]; split; reflexivity.
Qed.

(** While the component is loading the engine is not ready, and as long as
    the engine is not ready the component is dormant. *)
Lemma dormant_run script :
  let w := run script initial in
  (isLoading (self w) = true -> wasmReady (self w) = false)
  /\ (wasmReady (self w) = false -> dormant w).
Proof.
  apply (Inv_run
           (fun w => (isLoading (self w) = true -> wasmReady (self w) = false)
                     /\ (wasmReady (self w) = false -> dormant w))
           (fun _ => True)).
  - intros env w _ [H1 H2].
    destruct (calculateRange_static env w)
      as (_ & _ & _ & _ & _ & _ & -> & -> & _).
    split; [exact H1|]. intro Hr. apply dormant_calculateRange. exact (H2 Hr).
  - intros env w _ [H1 H2].
    destruct (handleItemCountChange_flags env w) as [-> ->].
    split; [exact H1|]. intro Hr. unfold handleItemCountChange.
    rewrite Hr. cbn [negb orb fst]. exact (H2 Hr).
  - intros env w _ _.
    destruct (initialize_fulfilled_flags env w) as [-> ->].
    split; discriminate.
  - intros err w [H1 H2]. split; [discriminate|exact H2].
  - intros w [H1 H2]. rewrite willDestroy_self. norm.
    split; [exact H1|]. intro Hr. apply dormant_willDestroy. exact (H2 Hr).
  - intros el w Hw. exact Hw.
  - intros b w Hw. exact Hw.
  - intros id w Hw. exact Hw.
  - intros fs w Hw. exact Hw.
  - intros cb w [H1 H2]. split; [exact H1|]. intro Hr.
    apply dormant_request. exact (H2 Hr).
  - intros env act _. exact I.
  - split; [reflexivity|]. intros _.
    repeat (split; [reflexivity|]). apply Forall_nil.
Qed.

(** The state of a component whose engine failed to load with [err]. *)
Lemma failed_run err script (w : World) :
  isLoading (self w) = false -> wasmReady (self w) = false ->
  error (self w) = Some err -> dormant w ->
  let w' := run script w in
  isLoading (self w') = false /\ wasmReady (self w') = false
  /\ error (self w') = Some err /\ dormant w'.
Proof.
  intros Hl Hr He Hd.
  apply (Inv_run_guarded
           (fun w => isLoading (self w) = false /\ wasmReady (self w) = false
                     /\ error (self w) = Some err /\ dormant w));
    [| | | | | | | | | |repeat (split; [assumption|]); exact Hd]; clear.
  - intros env w (Hl & Hr & He & Hd).
    pose proof (dormant_calculateRange env w Hd) as Hd'.
    destruct Hd as (_ & _ & Hv & Hu & _).
    destruct (calculateRange_no_handle env w Hv Hu) as [Hs _].
    rewrite Hs. repeat (split; [assumption|]). exact Hd'.
  - intros env w H. unfold handleItemCountChange.
    destruct H as (Hl & Hr & He & Hd). rewrite Hr. cbn [negb orb fst].
    repeat (split; [assumption|]). exact Hd.
  - intros env w Hl (Hl' & _). congruence.
  - intros err' w Hl (Hl' & _). congruence.
  - intros w (Hl & Hr & He & Hd). rewrite willDestroy_self. norm.
    repeat (split; [assumption|]). apply dormant_willDestroy. exact Hd.
  - intros el w H. exact H.
  - intros b w H. exact H.
  - intros id w H. exact H.
  - intros fs w H. exact H.
  - intros cb w (Hl & Hr & He & Hd).
    repeat (split; [assumption|]). apply dormant_request. exact Hd.
Qed.

End Dormant.

(** X4. While the component is loading, whatever happens to it, it calls
    neither the estimator nor the engine and publishes nothing: its trace
    holds only entries into [calculateRange], frame requests and the
    teardown, and it holds the initial range. *)
Theorem loading_is_quiet {E : Engine} (script : list (Env * Action)) :
  isLoading (self (run script initial)) = true ->
  Forall quietEvent (trace (run script initial))
  /\ range (self (run script initial)) = emptyRange.
Proof.
  intro Hl. destruct (dormant_run script) as [H1 H2].
  destruct (H2 (H1 Hl)) as (Hr & _ & _ & _ & Ht). split; assumption.
Qed.

(** X5. A failed engine load is final.  Once the gateway promise is
    rejected with [err] while the component is loading, then whatever
    happens before and after, the component reports [err] and is not
    loading, it never calls the estimator or the engine, and its range
    stays the initial, empty one. *)
Theorem load_failure_is_final {E : Engine}
  (before after : list (Env * Action)) (env : Env) (err : string) :
  isLoading (self (run before initial)) = true ->
  let w := run (before ++ (env, WasmRejected err) :: after) initial in
  error (self w) = Some err /\ isLoading (self w) = false
  /\ range (self w) = emptyRange
  /\ Forall quietEvent (trace w).
Proof.
  intros Hl w. subst w. rewrite run_app. cbn [run step]. rewrite Hl.
  destruct (dormant_run before) as [H1 H2].
  pose proof (H2 (H1 Hl)) as Hd.
  destruct (failed_run err after
              (initialize_rejected err (run before initial)))
    as (Hl' & _ & He & Hr & _ & _ & _ & Ht).
  - reflexivity.
  - exact (H1 Hl).
  - reflexivity.
  - exact Hd.
  - repeat (split; [assumption|]). exact Ht.
Qed.

(** ** The scroll scheduler and the first recomputation *)

Ltac fire :=
  repeat progress
    (norm;
     cbn [app runFrame existsb filter fst snd negb orb andb runCallback];
     rewrite ?Nat.eqb_refl).

Section Scheduling.

Context {E : Engine}.

(** A recomputation reads the world only through the component and the
    counter of range objects. *)
Lemma calculateRange_self_ext env (w1 w2 : World) :
  self w1 = self w2 -> nextObj w1 = nextObj w2 ->
  self (fst (calculateRange env w1)) = self (fst (calculateRange env w2))
  /\ nextObj (fst (calculateRange env w1))
     = nextObj (fst (calculateRange env w2)).
Proof.
  intros Hs Ho. unfold calculateRange. norm. rewrite Hs, Ho.
  destruct (element (self w2)) as [el|]; [|split; assumption].
  destruct (readViewport _ _) as [sp vp].
  destruct (Qle_bool vp 0); [norm; split; assumption|].
  destruct (candidate _ _ _ _) as [c|]; [|norm; split; assumption].
  destruct (unchanged _ _); [norm; split; assumption|].
  destruct (JS.new_Array _) as [n|];
    [|norm; rewrite Hs; split; [reflexivity|assumption]].
  destruct (visibleItems _ _ _ _) as [[[its offs] szs] fills].
  destruct (contentHeight _ _) as [th look].
  norm. rewrite Hs. split; reflexivity.
Qed.

(** A recomputation leaves the frame queue as it is, or adds its retry at
    the end. *)
Lemma calculateRange_frames env (w : World) :
  (frames (fst (calculateRange env w)) = frames w
   /\ nextFrame (fst (calculateRange env w)) = nextFrame w)
  \/ (frames (fst (calculateRange env w))
      = frames w ++ [(nextFrame w, CbRecompute)]
      /\ nextFrame (fst (calculateRange env w)) = S (nextFrame w)).
Proof.
  unfold calculateRange. norm.
  destruct (element (self w)) as [el|]; [|left; split; reflexivity].
  destruct (readViewport _ _) as [sp vp].
  destruct (Qle_bool vp 0); [right; split; reflexivity|].
  destruct (candidate _ _ _ _) as [c|]; [|left; split; reflexivity].
  destruct (unchanged _ _); [left; split; reflexivity|].
  destruct (JS.new_Array _) as [n|]; [|left; split; reflexivity].
  destruct (visibleItems _ _ _ _) as [[[its offs] szs] fills].
  destruct (contentHeight _ _) as [th look].
  left. split; reflexivity.
Qed.

(** A recomputation touches neither the latch nor the frame handle of the
    scroll scheduler. *)
Lemma calculateRange_latch env (w : World) :
  rafPending (self (fst (calculateRange env w))) = rafPending (self w)
  /\ rafId (self (fst (calculateRange env w))) = rafId (self w).
Proof.
  unfold calculateRange. norm.
  destruct (element (self w)) as [el|]; [|split; reflexivity].
  destruct (readViewport _ _) as [sp vp].
  destruct (Qle_bool vp 0); [split; reflexivity|].
  destruct (candidate _ _ _ _) as [c|]; [|split; reflexivity].
  destruct (unchanged _ _); [split; reflexivity|].
  destruct (JS.new_Array _) as [n|]; [|split; reflexivity].
  destruct (visibleItems _ _ _ _) as [[[its offs] szs] fills].
  destruct (contentHeight _ _) as [th look]. split; reflexivity.
Qed.

End Scheduling.

(** X6. A scroll event is served two frames later, once.  From a state with
    the element attached, the latch clear and no callback queued: further
    scroll events before the second frame change nothing; the first frame
    only queues the second stage and changes neither the range nor the
    tracking; the second frame clears the latch and runs exactly one
    recomputation, on the layout of that frame. *)
Theorem scroll_served_on_second_frame {E : Engine}
  (env0 env1 env2 env3 : Env) (w : World) (el : nat) :
  element (self w) = Some el -> rafPending (self w) = false ->
  frames w = [] ->
  let w1 := step env0 ScrollEvent w in
  let w2 := step env2 Frame w1 in
  step env1 ScrollEvent w1 = w1
  /\ step env1 ScrollEvent w2 = w2
  /\ self w2 = set_rafId (S (nextFrame w)) (set_rafPending true (self w))
  /\ trace w2
     = trace w ++ [EvRequestFrame (nextFrame w) CbScrollStage1;
                   EvRequestFrame (S (nextFrame w)) CbScrollStage2]
  /\ step env3 Frame w2
     = fst (calculateRange env3
              (with_frames [] (assign (set_rafPending false) w2)))
  /\ rafPending (self (step env3 Frame w2)) = false.
Proof.
  intros He Hp Hf w1 w2.
  assert (H1 : w1 = snd (requestAnimationFrame CbScrollStage1
                           (assign (set_rafPending true) w))).
  { subst w1. cbn [step]. rewrite He. unfold handleScroll. rewrite Hp.
    reflexivity. }
  assert (H2 : w2 = assign (set_rafId (S (nextFrame w)))
                      (snd (requestAnimationFrame CbScrollStage2
                              (with_frames [] w1)))).
  { subst w2. cbn [step]. unfold animationFrame. rewrite H1. norm.
    rewrite Hf. fire. reflexivity. }
  clearbody w1 w2. subst w1.
  assert (Hstep3 : step env3 Frame w2
                   = fst (calculateRange env3
                            (with_frames []
                               (assign (set_rafPending false) w2)))).
  { cbn [step]. unfold animationFrame. rewrite H2. norm.
    fire. reflexivity. }
  split; [|split; [|split; [|split; [|split]]]].
  - cbn [step]. norm. rewrite He. unfold handleScroll. reflexivity.
  - rewrite H2. cbn [step]. norm. rewrite He. unfold handleScroll.
    reflexivity.
  - rewrite H2. norm. destruct (self w). cbn in *. reflexivity.
  - rewrite H2. norm. rewrite <- app_assoc. reflexivity.
  - exact Hstep3.
  - rewrite Hstep3.
    match goal with
    | |- context [calculateRange ?e ?x] =>
        destruct (calculateRange_latch e x) as [-> _]
    end.
    reflexivity.
Qed.

Section AttachAndReady.

Context {E : Engine}.

(** Two recomputations in a row, the second one from a world that differs
    in its queue, leave the component as the first one did. *)
Lemma calculateRange_again env fs (w : World) :
  self (fst (calculateRange env
               (with_frames fs (fst (calculateRange env w)))))
  = self (fst (calculateRange env w)).
Proof.
  destruct (calculateRange_self_ext env
              (with_frames fs (fst (calculateRange env w)))
              (fst (calculateRange env w))) as [-> _];
    [reflexivity|reflexivity|].
  destruct (calculateRange_twice env w) as (_ & _ & H). exact H.
Qed.

End AttachAndReady.

(** X7. It does not matter whether the scroll element is attached before
    the engine becomes ready or after it: once the next frame has run the
    component is in the same state either way, with the same range in the
    same range object. *)
Theorem attach_and_ready_commute {E : Engine} (el : nat)
  (ea eb es ef : Env) :
  self (run [(ea, Install el); (es, WasmFulfilled); (ef, Frame)] initial)
  = self (run [(es, WasmFulfilled); (eb, Install el); (ef, Frame)] initial).
Proof.
  cbn [run step]. unfold scrollElementRef, initial. fire.
  unfold initialize_fulfilled, setupVirtualizer. fire.
  destruct (sampleSizes _ _ _ _) as [uniform called].
  destruct uniform.
  - unfold createUniformVirtualizer, finishSetup, animationFrame. fire.
    match goal with
    | |- _ = self (if ?b then _ else _) => destruct b
    end; rewrite ?calculateRange_again;
      apply calculateRange_self_ext; reflexivity.
  - destruct (JS.new_Array _) as [n|].
    + unfold createVirtualizer, finishSetup, animationFrame. fire.
      match goal with
      | |- _ = self (if ?b then _ else _) => destruct b
      end; rewrite ?calculateRange_again;
        apply calculateRange_self_ext; reflexivity.
    + unfold animationFrame. fire.
      match goal with
      | |- _ = self (fst (calculateRange ?e ?x)) =>
          destruct (calculateRange_no_handle e x) as [-> _]
      end; reflexivity.
Qed.

(** ** An item-count change on the variable path *)

Section VariablePath.

Context {E : Engine}.

Lemma calculateRange_variable_handle env (w : World) h v :
  isUniform (self w) = false -> virtualizer (self w) = Some (h, v) ->
  snd (calculateRange env w) <> NoHandle.
Proof.
  intros Hu Hh. unfold calculateRange. norm.
  destruct (element (self w)) as [el|]; [|cbn; discriminate].
  destruct (readViewport _ _) as [sp vp].
  destruct (Qle_bool vp 0); [cbn; discriminate|].
  unfold candidate, queryRange. rewrite Hu, Hh.
  destruct (firstOffset _ _) as [off calls].
  match goal with
  | |- context [unchanged ?t ?c] => destruct (unchanged t c)
  end; [cbn; discriminate|].
  destruct (JS.new_Array _) as [n|]; [|cbn; discriminate].
  destruct (visibleItems _ _ _ _) as [[[its offs] szs] fills].
  destruct (contentHeight _ _) as [th look]. cbn. discriminate.
Qed.

Lemma handleItemCountChange_variable env (w : World) h v n :
  Alive w ->
  wasmReady (self w) = true -> isLoading (self w) = false ->
  isUniform (self w) = false -> virtualizer (self w) = Some (h, v) ->
  JS.new_Array (itemCount (args env)) = Some n ->
  let szs := allSizes (estimateSize (args env)) n in
  let w' := fst (handleItemCountChange env w) in
  let o := snd (handleItemCountChange env w) in
  (exists evs,
     trace w'
     = trace w ++ map EvEstimate (JS.indices n)
       ++ EvFree h :: EvCreateVariable (nextHandle w) szs :: evs
     /\ forall e, In e evs -> handleOf e <> Some h)
  /\ virtualizer (self w') = Some (nextHandle w, variable_new szs)
  /\ (h < nextHandle w)%nat
  /\ scrollMultiplier (self w') = multiplierFor (JS.sum szs)
  /\ o <> Skipped /\ o <> NotReady /\ o <> NoHandle.
Proof.
  intros Hal Hr Hl Hu Hv Hn szs w' o.
  set (prepared := resetTracking (JS.sum szs)
                     (rebuild h (estimateSize (args env)) n w)).
  assert (Heq : handleItemCountChange env w = calculateRange env prepared).
  { unfold handleItemCountChange. rewrite Hr, Hl, Hu, Hv, Hn. reflexivity. }
  subst w' o. rewrite Heq.
  destruct (calculateRange_static env prepared)
    as (Hv' & _ & _ & _ & Hm & _).
  destruct (calculateRange_trace env prepared) as (evs & Ht & Hevs).
  destruct (calculateRange_after_reset env prepared eq_refl) as (Hns & _).
  destruct Hal as (_ & _ & Hheld & Hdiff).
  destruct (Hheld h (or_introl (ex_intro _ v Hv))) as [Hlt _].
  split; [|split; [|split; [|split; [|split; [|split]]]]].
  - exists evs. split.
    + rewrite Ht. unfold prepared, resetTracking, rebuild, createVirtualizer.
      norm. rewrite <- !app_assoc. reflexivity.
    + intros e He Heh. rewrite Forall_forall in Hevs.
      specialize (Hevs e He).
      assert (Hholds : holds (self prepared) h).
      { destruct e; cbn in Heh; try discriminate; inversion Heh; subst;
          cbn [calcEvent] in Hevs; try exact Hevs; destruct Hevs. }
      destruct Hholds as [[v' Hh]|[u' Hh]].
      * unfold prepared, resetTracking, rebuild, createVirtualizer in Hh.
        norm. inversion Hh. lia.
      * unfold prepared, resetTracking, rebuild, createVirtualizer in Hh.
        norm. exact (Hdiff h v h u' Hv Hh eq_refl).
  - rewrite Hv'. reflexivity.
  - exact Hlt.
  - rewrite Hm. reflexivity.
  - exact Hns.
  - apply calculateRange_not_NotReady.
  - apply (calculateRange_variable_handle env prepared (nextHandle w)
             (variable_new szs)); [exact Hu|reflexivity].
Qed.

End VariablePath.

(** X9. On the variable path, in any state a lifetime can reach, an
    item-count change to a valid array length calls the estimator at every
    index below the count, frees the handle it holds and creates a new one
    from the new sizes; the new handle is not the old one, which is never
    used again; the multiplier is recomputed from the sum of the sizes and
    the recomputation that follows is never skipped.  With a count that is
    no valid array length nothing of this happens: the call throws before
    the estimator is called, the component is unchanged and keeps its
    handle. *)
Theorem variable_count_change_rebuilds {E : Engine}
  (script : list (Env * Action)) (env : Env) (h : nat) (v : QuantumVariable) :
  let w := run script initial in
  wasmReady (self w) = true -> isLoading (self w) = false ->
  isUniform (self w) = false -> virtualizer (self w) = Some (h, v) ->
  let count := itemCount (args env) in
  let szs := allSizes (estimateSize (args env)) (Z.to_nat count) in
  let w' := fst (handleItemCountChange env w) in
  let o := snd (handleItemCountChange env w) in
  (0 <= count < 2 ^ 32 ->
   (exists evs,
      trace w'
      = trace w ++ map EvEstimate (JS.indices (Z.to_nat count))
        ++ EvFree h :: EvCreateVariable (nextHandle w) szs :: evs
      /\ forall e, In e evs -> handleOf e <> Some h)
   /\ virtualizer (self w') = Some (nextHandle w, variable_new szs)
   /\ (h < nextHandle w)%nat
   /\ scrollMultiplier (self w') = multiplierFor (JS.sum szs)
   /\ o <> Skipped /\ o <> NotReady /\ o <> NoHandle)
  /\ (count < 0 \/ 2 ^ 32 <= count ->
      o = Threw /\ self w' = self w /\ trace w' = trace w ++ [EvRangeError]).
Proof.
  intros w Hr Hl Hu Hv count szs w' o. split.
  - intro Hc.
    assert (Hn : JS.new_Array count = Some (Z.to_nat count)).
    { unfold JS.new_Array.
      replace ((0 <=? count) && (count <? 2 ^ 32)) with true; [reflexivity|].
      symmetry. apply andb_true_iff. split;
        [apply Z.leb_le|apply Z.ltb_lt]; lia. }
    exact (handleItemCountChange_variable env w h v (Z.to_nat count)
             (Alive_run script) Hr Hl Hu Hv Hn).
  - intro Hc.
    assert (Hn : JS.new_Array count = None).
    { unfold JS.new_Array.
      replace ((0 <=? count) && (count <? 2 ^ 32)) with false; [reflexivity|].
      symmetry. apply andb_false_iff.
      destruct Hc; [left; apply Z.leb_gt|right; apply Z.ltb_ge]; lia. }
    subst w' o. unfold handleItemCountChange.
    rewrite Hr, Hl, Hu, Hv. cbn [negb orb]. fold count. rewrite Hn.
    repeat split.
Qed.

(** ** A setup that throws *)

Section SetupFailure.

Context {E : Engine}.

Lemma quiet_engineFree e : quietEvent e -> engineFree e.
Proof.
  destruct e; intro H; try destruct H; split; try reflexivity; exact I.
Qed.

(** The state of a component whose setup threw [err]: no handle, the
    initial range, and a trace free of engine calls and publications. *)
Lemma stillborn_run err script (w : World) :
  isLoading (self w) = false -> error (self w) = Some err ->
  range (self w) = emptyRange ->
  virtualizer (self w) = None -> uniformVirtualizer (self w) = None ->
  Forall engineFree (trace w) ->
  let w' := run script w in
  isLoading (self w') = false /\ error (self w') = Some err
  /\ range (self w') = emptyRange
  /\ virtualizer (self w') = None /\ uniformVirtualizer (self w') = None
  /\ Forall engineFree (trace w').
Proof.
  intros Hl He Hr Hv Hu Ht.
  apply (Inv_run_guarded
           (fun w => isLoading (self w) = false /\ error (self w) = Some err
                     /\ range (self w) = emptyRange
                     /\ virtualizer (self w) = None
                     /\ uniformVirtualizer (self w) = None
                     /\ Forall engineFree (trace w)));
    [| | | | | | | | | |repeat (split; [assumption|]); exact Ht]; clear.
  - intros env w (Hl & He & Hr & Hv & Hu & Ht).
    destruct (calculateRange_no_handle env w Hv Hu) as (Hs & evs & Hevs & Hq).
    rewrite Hs, Hevs. repeat (split; [assumption|]).
    apply Forall_app. split; [exact Ht|].
    eapply Forall_impl; [|exact Hq]. apply quiet_engineFree.
  - intros env w (Hl & He & Hr & Hv & Hu & Ht). unfold handleItemCountChange.
    destruct (negb (wasmReady (self w)) || isLoading (self w));
      [cbn [fst]; repeat (split; [assumption|]); exact Ht|].
    rewrite Hu, Hv. destruct (isUniform (self w));
      cbn [fst]; repeat (split; [assumption|]); exact Ht.
  - intros env w Hl (Hl' & _). congruence.
  - intros err' w Hl (Hl' & _). congruence.
  - intros w (Hl & He & Hr & Hv & Hu & Ht).
    rewrite willDestroy_self, willDestroy_trace, Hv, Hu. norm.
    repeat (split; [first [assumption|reflexivity]|]).
    apply Forall_app. split; [exact Ht|].
    apply Forall_cons; [split; [reflexivity|exact I]|].
    destruct (Nat.eqb (rafId (self w)) 0); cbn [app];
      [apply Forall_nil
      |apply Forall_cons; [split; [reflexivity|exact I]|apply Forall_nil]].
  - intros el w H. exact H.
  - intros b w H. exact H.
  - intros id w H. exact H.
  - intros fs w H. exact H.
  - intros cb w (Hl & He & Hr & Hv & Hu & Ht). norm.
    repeat (split; [assumption|]).
    apply Forall_app. split; [exact Ht|].
    apply Forall_cons; [split; [reflexivity|exact I]|apply Forall_nil].
Qed.

Lemma engineFree_estimates l : Forall engineFree (map EvEstimate l).
Proof.
  apply Forall_forall. intros e He. apply in_map_iff in He.
  destruct He as (i & <- & _). split; [reflexivity|exact I].
Qed.

End SetupFailure.

(** X10. A setup that throws is final and leaks nothing.  When the engine
    is ready for a list whose sampled sizes differ and whose item count is
    no valid array length, the component ends loading with the error
    [Invalid array length]; whatever happens before and after, it never
    creates or calls a handle, never publishes, and keeps reporting that
    error with the initial, empty range. *)
Theorem setup_failure_is_final {E : Engine}
  (before after : list (Env * Action)) (env : Env) :
  isLoading (self (run before initial)) = true ->
  fst (sampleSizes (estimateSize (args env)) (estimateSize (args env) 0)
         (Z.to_nat (Z.min 10 (itemCount (args env)) - 1)) 1) = false ->
  2 ^ 32 <= itemCount (args env) ->
  let w := run (before ++ (env, WasmFulfilled) :: after) initial in
  error (self w) = Some "Invalid array length"%string
  /\ isLoading (self w) = false
  /\ range (self w) = emptyRange
  /\ virtualizer (self w) = None /\ uniformVirtualizer (self w) = None
  /\ Forall engineFree (trace w).
Proof.
  intros Hl Hs Hc w. subst w. rewrite run_app. cbn [run step]. rewrite Hl.
  destruct (dormant_run before) as [H1 H2].
  destruct (H2 (H1 Hl)) as (Hr & _ & Hv & Hu & Ht).
  assert (Hn : JS.new_Array (itemCount (args env)) = None).
  { unfold JS.new_Array.
    replace (itemCount (args env) <? 2 ^ 32) with false
      by (symmetry; apply Z.ltb_ge; exact Hc).
    rewrite andb_false_r. reflexivity. }
  assert (Hw : exists called,
            initialize_fulfilled env (run before initial)
            = assign (set_isLoading false)
                (assign (set_error (Some "Invalid array length"%string))
                   (emit EvRangeError
                      (assign (set_uniformSize (estimateSize (args env) 0))
                         (assign (set_isUniform false)
                            (emits (map EvEstimate called)
                               (emit (EvEstimate 0)
                                  (assign (set_wasmReady true)
                                     (run before initial))))))))).
  { unfold initialize_fulfilled, setupVirtualizer.
    destruct (sampleSizes _ _ _ _) as [uniform called]. cbn [fst] in Hs.
    subst uniform. rewrite Hn. exists called. reflexivity. }
  destruct Hw as (called & ->).
  destruct (stillborn_run "Invalid array length"%string after
              (assign (set_isLoading false)
                (assign (set_error (Some "Invalid array length"%string))
                   (emit EvRangeError
                      (assign (set_uniformSize (estimateSize (args env) 0))
                         (assign (set_isUniform false)
                            (emits (map EvEstimate called)
                               (emit (EvEstimate 0)
                                  (assign (set_wasmReady true)
                                     (run before initial))))))))))
    as (Hl' & He' & Hr' & Hv' & Hu' & Ht'); try assumption; try reflexivity.
  - norm. apply Forall_app. split;
      [|apply Forall_cons; [split; [reflexivity|exact I]|apply Forall_nil]].
    apply Forall_app. split; [|apply engineFree_estimates].
    apply Forall_app. split;
      [|apply Forall_cons; [split; [reflexivity|exact I]|apply Forall_nil]].
    eapply Forall_impl; [|exact Ht]. apply quiet_engineFree.
  - repeat (split; [assumption|]). exact Ht'.
Qed.

(** ** How often the estimator is called *)

Section EstimatorCalls.

Context {E : Engine}.

Lemma sampleSizes_called est firstSize k :
  forall lo,
    (List.length (snd (sampleSizes est firstSize k lo)) <= k)%nat.
Proof.
  induction k as [|k IH]; intro lo; cbn [sampleSizes]; [apply Nat.le_refl|].
  destruct (negb (Qeq_bool (est lo) firstSize)); [cbn; lia|].
  specialize (IH (lo + 1)).
  destruct (sampleSizes est firstSize k (lo + 1)) as [b called].
  cbn [snd List.length] in *. lia.
Qed.

Lemma calcEvent_estimatedAt env (w w' : World) evs :
  Forall (calcEvent env w w') evs -> estimatedAt evs = [].
Proof.
  induction 1 as [|e evs He _ IH]; [reflexivity|].
  destruct e; cbn [calcEvent] in He; try destruct He; exact IH.
Qed.

Lemma calculateRange_estimatedAt env (w : World) :
  estimatedAt (trace (fst (calculateRange env w))) = estimatedAt (trace w).
Proof.
  destruct (calculateRange_trace env w) as (evs & -> & Hevs).
  rewrite estimatedAt_app, (calcEvent_estimatedAt _ _ _ _ Hevs).
  apply app_nil_r.
Qed.

Lemma quiet_estimatedAt t : Forall quietEvent t -> estimatedAt t = [].
Proof.
  induction 1 as [|e t He _ IH]; [reflexivity|].
  destruct e; cbn [quietEvent] in He; try destruct He; exact IH.
Qed.

(** On the uniform path the estimator has been called at most ten times,
    and no variable handle is held. *)
Lemma sampledOnly_run script :
  let w := run script initial in
  (isLoading (self w) = true -> wasmReady (self w) = false)
  /\ (wasmReady (self w) = false -> dormant w)
  /\ (isUniform (self w) = true -> sampledOnly w).
Proof.
  apply (Inv_run_guarded
           (fun w => (isLoading (self w) = true -> wasmReady (self w) = false)
                     /\ (wasmReady (self w) = false -> dormant w)
                     /\ (isUniform (self w) = true -> sampledOnly w))).
  - intros env w (H1 & H2 & H3).
    destruct (calculateRange_static env w)
      as (Hv & _ & Hi & _ & _ & _ & Hl & Hr & _).
    rewrite Hl, Hr, Hi.
    split; [exact H1|split].
    + intro H. apply dormant_calculateRange. exact (H2 H).
    + intro H. destruct (H3 H) as [Hnv Hlen]. unfold sampledOnly.
      rewrite Hv, calculateRange_estimatedAt. split; assumption.
  - intros env w (H1 & H2 & H3).
    destruct (handleItemCountChange_flags env w) as [Hl Hr].
    rewrite Hl, Hr. split; [exact H1|split].
    + intro H. unfold handleItemCountChange. rewrite H. cbn [negb orb fst].
      exact (H2 H).
    + unfold handleItemCountChange.
      destruct (negb (wasmReady (self w)) || isLoading (self w));
        [exact H3|].
      destruct (isUniform (self w)) eqn:Hi.
      * destruct (H3 eq_refl) as [Hnv Hlen]. rewrite Hnv.
        destruct (uniformVirtualizer (self w)) as [[h u]|];
          [|intros _; split; assumption].
        match goal with
        | |- context [calculateRange ?e ?x] =>
            destruct (calculateRange_static e x)
              as (Hv & _ & Hi' & _);
            pose proof (calculateRange_estimatedAt e x) as Hest
        end.
        intros _. unfold sampledOnly. rewrite Hv, Hest.
        unfold resetTracking, setCount. norm.
        rewrite estimatedAt_app, app_nil_r. split; assumption.
      * destruct (virtualizer (self w)) as [[h v]|];
          [|cbn [fst]; rewrite Hi; discriminate].
        destruct (JS.new_Array _) as [k|];
          [|cbn [fst]; norm; rewrite Hi; discriminate].
        match goal with
        | |- context [calculateRange ?e ?x] =>
            destruct (calculateRange_static e x) as (_ & _ & -> & _)
        end.
        unfold resetTracking, rebuild, createVirtualizer. norm.
        rewrite Hi. discriminate.
  - intros env w Hl (H1 & H2 & _).
    destruct (initialize_fulfilled_flags env w) as [Hl' Hr'].
    rewrite Hl', Hr'.
    split; [discriminate|split; [discriminate|]].
    destruct (H2 (H1 Hl)) as (_ & _ & Hnv & _ & Hq).
    apply quiet_estimatedAt in Hq.
    unfold initialize_fulfilled, setupVirtualizer.
    pose proof (sampleSizes_called (estimateSize (args env))
                  (estimateSize (args env) 0)
                  (Z.to_nat (Z.min 10 (itemCount (args env)) - 1)) 1) as Hk.
    destruct (sampleSizes _ _ _ _) as [uniform called]. cbn [snd] in Hk.
    destruct uniform.
    + intros _. unfold sampledOnly, createUniformVirtualizer, finishSetup.
      norm. split; [exact Hnv|].
      rewrite !estimatedAt_app, estimatedAt_estimates, Hq. cbn.
      rewrite !app_nil_r. cbn [List.length]. lia.
    + destruct (JS.new_Array _) as [k|]; norm; discriminate.
  - intros err w Hl (H1 & H2 & H3).
    split; [discriminate|split; [exact H2|exact H3]].
  - intros w (H1 & H2 & H3). rewrite willDestroy_self. norm.
    split; [exact H1|split].
    + intro H. apply dormant_willDestroy. exact (H2 H).
    + intro H. destruct (H3 H) as [Hnv Hlen]. unfold sampledOnly.
      rewrite willDestroy_self, willDestroy_trace, Hnv. norm.
      split; [reflexivity|].
      rewrite estimatedAt_app.
      replace (estimatedAt _ ++ estimatedAt _) with (estimatedAt (trace w));
        [exact Hlen|].
      rewrite <- (app_nil_r (estimatedAt (trace w))) at 1. f_equal.
      destruct (Nat.eqb (rafId (self w)) 0);
        destruct (uniformVirtualizer (self w)) as [[hu u]|]; reflexivity.
  - intros el w H. exact H.
  - intros b w H. exact H.
  - intros id w H. exact H.
  - intros fs w H. exact H.
  - intros cb w (H1 & H2 & H3).
    split; [exact H1|split].
    + intro H. apply dormant_request. exact (H2 H).
    + intro H. destruct (H3 H) as [Hnv Hlen]. unfold sampledOnly. norm.
      rewrite estimatedAt_app, app_nil_r. split; assumption.
  - split; [reflexivity|split; [|discriminate]]. intros _.
    repeat (split; [reflexivity|]). apply Forall_nil.
Qed.

End EstimatorCalls.

(** X12. On the uniform path the estimator is called at most ten times in
    the whole life of the component, however many items the list has and
    however often the item count changes. *)
Theorem uniform_path_samples_at_most_ten {E : Engine}
  (script : list (Env * Action)) :
  isUniform (self (run script initial)) = true ->
  (List.length (estimatedAt (trace (run script initial))) <= 10)%nat.
Proof.
  intro Hu. destruct (sampledOnly_run script) as (_ & _ & H).
  destruct (H Hu) as [_ Hlen]. exact Hlen.
Qed.

(** ** The scroll scheduler in every lifetime *)

Section Coalescing.

Context {E : Engine}.

Lemma scheduled_app fs gs :
  scheduled (fs ++ gs) = (scheduled fs + scheduled gs)%nat.
Proof. unfold scheduled. rewrite filter_app, length_app. reflexivity. Qed.

Lemma scheduled_filter p fs :
  (scheduled (filter p fs) <= scheduled fs)%nat.
Proof.
  unfold scheduled. induction fs as [|f fs IH]; [apply Nat.le_refl|].
  cbn [filter]. destruct (p f); cbn [filter];
    destruct (isScrollCallback (snd f)); cbn [List.length]; lia.
Qed.

Lemma NoDup_filter_fst (p : nat * Callback -> bool) fs :
  NoDup (map fst fs) -> NoDup (map fst (filter p fs)).
Proof.
  induction fs as [|f fs IH]; intro H; [exact H|].
  cbn [map] in H. inversion H as [|x l Hx Hl]. subst.
  cbn [filter]. destruct (p f); [|apply IH; exact Hl].
  cbn [map]. constructor; [|apply IH; exact Hl].
  intro Hin. apply Hx. apply in_map_iff in Hin.
  destruct Hin as (g & Hg & Hin). apply filter_In in Hin.
  apply in_map_iff. exists g. split; [exact Hg|apply Hin].
Qed.

(** Taking the callback of a queued handle out of a queue of distinct
    handles takes out exactly that callback. *)
Lemma scheduled_dequeue id cb fs :
  NoDup (map fst fs) -> In (id, cb) fs ->
  scheduled fs
  = (scheduled (filter (fun f => negb (Nat.eqb (fst f) id)) fs)
     + (if isScrollCallback cb then 1 else 0))%nat.
Proof.
  induction fs as [|f fs IH]; intros Hnd Hin; [destruct Hin|].
  cbn [map] in Hnd. inversion Hnd as [|x l Hx Hl]. subst.
  destruct Hin as [->|Hin].
  - cbn [filter fst]. rewrite Nat.eqb_refl. cbn [negb].
    assert (Hsame : filter (fun f => negb (Nat.eqb (fst f) id)) fs = fs).
    { apply forallb_filter_id. apply forallb_forall. intros g Hg.
      apply negb_true_iff. apply Nat.eqb_neq. intro Heq. apply Hx.
      cbn [fst]. rewrite <- Heq. apply in_map. exact Hg. }
    rewrite Hsame. unfold scheduled. cbn [filter snd].
    destruct (isScrollCallback cb); cbn [List.length]; lia.
  - assert (Hne : fst f <> id).
    { intro Heq. apply Hx. rewrite Heq.
      change id with (fst (id, cb)). apply in_map. exact Hin. }
    cbn [filter]. apply Nat.eqb_neq in Hne. rewrite Hne. cbn [negb].
    specialize (IH Hl Hin). unfold scheduled in *. cbn [filter].
    destruct (isScrollCallback (snd f)); cbn [List.length]; lia.
Qed.

Lemma Coalesced_appended live (w w' : World) :
  Coalesced live w -> appended w w' -> Coalesced live w'.
Proof.
  intros (Hnd & Hlt & Hle & Hoff & Hon) [Hp [[Hf Hn]|(cb & Hcb & Hf & Hn)]].
  - unfold Coalesced. rewrite Hp, Hf, Hn. repeat split; assumption.
  - unfold Coalesced. rewrite Hp, Hf, Hn.
    assert (Hs : scheduled (frames w ++ [(nextFrame w, cb)])
                 = scheduled (frames w)).
    { rewrite scheduled_app. unfold scheduled at 2. cbn [filter snd].
      rewrite Hcb. cbn. lia. }
    rewrite Hs. split; [|split; [|split; [|split]]]; try assumption.
    + rewrite map_app. cbn [map fst]. apply NoDup_app; [exact Hnd| |].
      * constructor; [intros []|constructor].
      * intros x Hx [<-|[]]. apply in_map_iff in Hx.
        destruct Hx as (f & Hfx & Hin). specialize (Hlt f Hin). lia.
    + intros f Hin. apply in_app_or in Hin. destruct Hin as [Hin|[<-|[]]].
      * specialize (Hlt f Hin). lia.
      * cbn [fst]. lia.
Qed.

Lemma later_appended (w w' : World) : appended w w' -> later w w'.
Proof.
  intros [_ [[Hf Hn]|(cb & _ & Hf & Hn)]]; split.
  - rewrite Hn. apply Nat.le_refl.
  - rewrite Hf. intros f Hin. left. exact Hin.
  - rewrite Hn. lia.
  - rewrite Hf. intros f Hin. apply in_app_or in Hin.
    destruct Hin as [Hin|[<-|[]]]; [left; exact Hin|right; apply Nat.le_refl].
Qed.

Lemma appended_length (w w' : World) :
  appended w w' ->
  (List.length (frames w') <= S (List.length (frames w)))%nat.
Proof.
  intros [_ [[-> _]|(cb & _ & -> & _)]]; [lia|].
  rewrite length_app. cbn [List.length]. lia.
Qed.

Lemma appended_calculateRange env (w : World) :
  appended w (fst (calculateRange env w)).
Proof.
  destruct (calculateRange_latch env w) as [Hp _].
  split; [exact Hp|].
  destruct (calculateRange_frames env w) as [H|[Hf Hn]]; [left; exact H|].
  right. exists CbRecompute. split; [reflexivity|split; assumption].
Qed.

Lemma appended_via (w0 w w' : World) :
  rafPending (self w) = rafPending (self w0) ->
  frames w = frames w0 -> nextFrame w = nextFrame w0 ->
  appended w w' -> appended w0 w'.
Proof.
  intros Hp Hf Hn [Hp' H]. unfold appended. rewrite <- Hp, <- Hf, <- Hn.
  split; [exact Hp'|exact H].
Qed.

Lemma appended_handleItemCountChange env (w : World) :
  appended w (fst (handleItemCountChange env w)).
Proof.
  unfold handleItemCountChange.
  destruct (negb (wasmReady (self w)) || isLoading (self w));
    [split; [reflexivity|left; split; reflexivity]|].
  destruct (if isUniform (self w) then uniformVirtualizer (self w) else None)
    as [[h u]|].
  - eapply appended_via; [| | |apply appended_calculateRange]; reflexivity.
  - destruct (virtualizer (self w)) as [[h v]|];
      [|split; [reflexivity|left; split; reflexivity]].
    destruct (JS.new_Array _) as [n|];
      [|split; [reflexivity|left; split; reflexivity]].
    eapply appended_via; [| | |apply appended_calculateRange]; reflexivity.
Qed.

Lemma appended_fulfilled env (w : World) :
  appended w (initialize_fulfilled env w).
Proof.
  unfold initialize_fulfilled, setupVirtualizer.
  destruct (sampleSizes _ _ _ _) as [uniform called].
  destruct uniform.
  - split; [reflexivity|]. right. exists CbAfterSetup.
    split; [reflexivity|split; reflexivity].
  - destruct (JS.new_Array _) as [n|].
    + split; [reflexivity|]. right. exists CbAfterSetup.
      split; [reflexivity|split; reflexivity].
    + split; [reflexivity|left; split; reflexivity].
Qed.

Lemma appended_scrollElementRef el (w : World) :
  appended w (scrollElementRef el w).
Proof.
  unfold scrollElementRef.
  assert (Hgo : appended w
                  (if negb (isLoading (self (assign (set_element (Some el)) w)))
                   then snd (requestAnimationFrame CbRecompute
                               (assign (set_element (Some el)) w))
                   else assign (set_element (Some el)) w)).
  { destruct (negb _).
    - split; [reflexivity|]. right. exists CbRecompute.
      split; [reflexivity|split; reflexivity].
    - split; [reflexivity|left; split; reflexivity]. }
  destruct (element (self w)) as [old|]; [|exact Hgo].
  destruct (Nat.eqb old el); [|exact Hgo].
  split; [reflexivity|left; split; reflexivity].
Qed.

Lemma Coalesced_dequeue_other live id cb (w : World) :
  Coalesced live w -> In (id, cb) (frames w) -> isScrollCallback cb = false ->
  Coalesced live (dequeue id w).
Proof.
  intros (Hnd & Hlt & Hle & Hoff & Hon) Hin Hcb.
  pose proof (scheduled_dequeue id cb (frames w) Hnd Hin) as Hs.
  rewrite Hcb, Nat.add_0_r in Hs.
  unfold Coalesced, dequeue. norm. rewrite <- Hs.
  split; [apply NoDup_filter_fst; exact Hnd|].
  split; [|repeat split; assumption].
  intros f Hf. apply filter_In in Hf. apply Hlt. apply Hf.
Qed.

Lemma later_dequeue id (w : World) : later w (dequeue id w).
Proof.
  split; [apply Nat.le_refl|]. unfold dequeue. norm.
  intros f Hf. apply filter_In in Hf. left. apply Hf.
Qed.

Lemma later_trans (w1 w2 w3 : World) :
  later w1 w2 -> later w2 w3 -> later w1 w3.
Proof.
  intros [Hn1 Hf1] [Hn2 Hf2]. split; [lia|].
  intros f Hf. destruct (Hf2 f Hf) as [Hin|Hlt]; [apply Hf1; exact Hin|].
  right. lia.
Qed.

(** A queued callback fires: it leaves the queue and runs. *)
Lemma Coalesced_fire live env id cb (w : World) :
  Coalesced live w -> In (id, cb) (frames w) ->
  Coalesced live (runCallback env cb (dequeue id w))
  /\ later (dequeue id w) (runCallback env cb (dequeue id w))
  /\ (List.length (frames (runCallback env cb (dequeue id w)))
      <= S (List.length (frames (dequeue id w))))%nat.
Proof.
  intros Hw Hin.
  assert (Hother : isScrollCallback cb = false ->
            forall w', appended (dequeue id w) w' ->
            Coalesced live w' /\ later (dequeue id w) w'
            /\ (List.length (frames w')
                <= S (List.length (frames (dequeue id w))))%nat).
  { intros Hcb w' Ha. split; [|split].
    - eapply Coalesced_appended; [|exact Ha].
      eapply Coalesced_dequeue_other; eassumption.
    - apply later_appended. exact Ha.
    - apply appended_length. exact Ha. }
  assert (Hscroll : isScrollCallback cb = true ->
            rafPending (self w) = true
            /\ scheduled (frames (dequeue id w)) = O).
  { intro Hcb. destruct Hw as (Hnd & Hlt & Hle & Hoff & Hon).
    pose proof (scheduled_dequeue id cb (frames w) Hnd Hin) as Hs.
    rewrite Hcb in Hs. unfold dequeue. norm. split; [|lia].
    destruct (rafPending (self w)); [reflexivity|].
    specialize (Hoff eq_refl). lia. }
  destruct Hw as (Hnd & Hlt & Hle & Hoff & Hon).
  destruct cb; cbn [runCallback].
  - destruct (element (self (dequeue id w))).
    + apply Hother; [reflexivity|apply appended_calculateRange].
    + apply Hother; [reflexivity|].
      split; [reflexivity|left; split; reflexivity].
  - apply Hother; [reflexivity|apply appended_calculateRange].
  - destruct (Hscroll eq_refl) as [Hp H0]. unfold dequeue in *. norm.
    split.
    + unfold Coalesced. norm. rewrite scheduled_app, H0, Hp.
      split; [|split; [|split; [|split]]].
      * rewrite map_app. cbn [map fst]. apply NoDup_app.
        -- apply NoDup_filter_fst. exact Hnd.
        -- constructor; [intros []|constructor].
        -- intros x Hx [<-|[]]. apply in_map_iff in Hx.
           destruct Hx as (f & Hfx & Hf). apply filter_In in Hf.
           destruct Hf as [Hf _]. specialize (Hlt f Hf). lia.
      * intros f Hf. apply in_app_or in Hf. destruct Hf as [Hf|[<-|[]]].
        -- apply filter_In in Hf. destruct Hf as [Hf _].
           specialize (Hlt f Hf). lia.
        -- cbn [fst]. lia.
      * cbn. lia.
      * discriminate.
      * intros _ _. reflexivity.
    + split; [split; [norm; lia|]|].
      * norm. intros f Hf. apply in_app_or in Hf.
        destruct Hf as [Hf|[<-|[]]]; [left; exact Hf|right; apply Nat.le_refl].
      * norm. rewrite length_app. cbn [List.length]. lia.
  - destruct (Hscroll eq_refl) as [Hp H0].
    set (w1 := assign (set_rafPending false) (dequeue id w)).
    assert (Hw1 : Coalesced live w1).
    { unfold Coalesced, w1, dequeue in *. norm. rewrite H0.
      split; [apply NoDup_filter_fst; exact Hnd|].
      split; [|split; [lia|split; [reflexivity|discriminate]]].
      intros f Hf. apply filter_In in Hf. apply Hlt. apply Hf. }
    split; [|split].
    + eapply Coalesced_appended; [exact Hw1|apply appended_calculateRange].
    + apply (later_appended w1). apply appended_calculateRange.
    + apply (appended_length w1). apply appended_calculateRange.
Qed.

Lemma batchOk_later batch (w w' : World) :
  batchOk batch w -> later w w' -> batchOk batch w'.
Proof.
  intros Hb [Hn Hf] id cb Hin. destruct (Hb id cb Hin) as [Hlt Hcb].
  split; [lia|]. intros cb' Hin'.
  destruct (Hf _ Hin') as [Hold|Hnew]; [exact (Hcb cb' Hold)|].
  cbn [fst] in Hnew. lia.
Qed.

Lemma Coalesced_runFrame live env batch :
  forall w, Coalesced live w -> batchOk batch w ->
            Coalesced live (runFrame env batch w).
Proof.
  induction batch as [|[id cb] rest IH]; intros w Hw Hb; [exact Hw|].
  cbn [runFrame].
  assert (Hrest : batchOk rest w).
  { intros id' cb' Hin. apply Hb. right. exact Hin. }
  destruct (existsb _ (frames w)) eqn:Hex; [|apply IH; assumption].
  apply existsb_exists in Hex. destruct Hex as ([id' cb'] & Hin & Heq).
  cbn [fst] in Heq. apply Nat.eqb_eq in Heq. subst id'.
  destruct (Hb id cb (or_introl eq_refl)) as [_ Hcb].
  rewrite (Hcb cb' Hin) in Hin.
  destruct (Coalesced_fire live env id cb w Hw Hin) as (Hw' & Hl & _).
  apply IH; [exact Hw'|]. eapply batchOk_later; [exact Hrest|].
  eapply later_trans; [apply later_dequeue|exact Hl].
Qed.

Lemma batchOk_frames live (w : World) :
  Coalesced live w -> batchOk (frames w) w.
Proof.
  intros (Hnd & Hlt & _) id cb Hin. split; [exact (Hlt _ Hin)|].
  intros cb' Hin'. clear Hlt. induction (frames w) as [|f fs IH];
    [destruct Hin|].
  cbn [map] in Hnd. inversion Hnd as [|x l Hx Hl]. subst.
  destruct Hin as [->|Hin]; destruct Hin' as [Heq|Hin'].
  - inversion Heq. reflexivity.
  - exfalso. apply Hx. change (fst (id, cb)) with (fst (id, cb')).
    apply in_map. exact Hin'.
  - exfalso. apply Hx. rewrite Heq. change (fst (id, cb')) with (fst (id, cb)).
    apply in_map. exact Hin.
  - apply IH; assumption.
Qed.

(** Taking the callback of a queued handle out of a queue of distinct
    handles shortens the queue by one. *)
Lemma length_dequeue id cb (w : World) :
  NoDup (map fst (frames w)) -> In (id, cb) (frames w) ->
  S (List.length (frames (dequeue id w))) = List.length (frames w).
Proof.
  unfold dequeue. norm. induction (frames w) as [|f fs IH]; intros Hnd Hin;
    [destruct Hin|].
  cbn [map] in Hnd. inversion Hnd as [|x l Hx Hl]. subst.
  destruct Hin as [->|Hin].
  - cbn [filter fst]. rewrite Nat.eqb_refl. cbn [negb List.length].
    f_equal. f_equal. apply forallb_filter_id. apply forallb_forall.
    intros g Hg. apply negb_true_iff. apply Nat.eqb_neq. intro Heq.
    apply Hx. cbn [fst]. rewrite <- Heq. apply in_map. exact Hg.
  - assert (Hne : fst f <> id).
    { intro Heq. apply Hx. rewrite Heq.
      change id with (fst (id, cb)). apply in_map. exact Hin. }
    cbn [filter]. apply Nat.eqb_neq in Hne. rewrite Hne.
    cbn [negb List.length]. f_equal. apply IH; assumption.
Qed.

(** A frame drains its batch: what is queued afterwards was queued before
    under a handle outside the batch, or was requested meanwhile; and the
    queue has not grown. *)
Lemma runFrame_drains live env batch :
  forall w, Coalesced live w -> batchOk batch w ->
  (forall f, In f (frames (runFrame env batch w)) ->
     (In f (frames w) /\ ~ In (fst f) (map fst batch))
     \/ (nextFrame w <= fst f)%nat)
  /\ (List.length (frames (runFrame env batch w))
      <= List.length (frames w))%nat.
Proof.
  induction batch as [|[id cb] rest IH]; intros w Hw Hb.
  { cbn [runFrame]. split; [|apply Nat.le_refl].
    intros f Hf. left. split; [exact Hf|intros []]. }
  cbn [runFrame].
  assert (Hrest : batchOk rest w).
  { intros id' cb' Hin. apply Hb. right. exact Hin. }
  destruct (existsb _ (frames w)) eqn:Hex.
  - apply existsb_exists in Hex. destruct Hex as ([id' cb'] & Hin & Heq).
    cbn [fst] in Heq. apply Nat.eqb_eq in Heq. subst id'.
    destruct (Hb id cb (or_introl eq_refl)) as [_ Hcb].
    rewrite (Hcb cb' Hin) in Hin.
    destruct (Coalesced_fire live env id cb w Hw Hin)
      as (Hw' & Hlater & Hlen).
    assert (Hb' : batchOk rest (runCallback env cb (dequeue id w))).
    { eapply batchOk_later; [exact Hrest|].
      apply (later_trans w (dequeue id w)); [apply later_dequeue|].
      exact Hlater. }
    destruct Hlater as [Hn Hl].
    destruct (IH _ Hw' Hb') as [Hdrain Hshort].
    destruct Hw as (Hnd & _).
    pose proof (length_dequeue id cb w Hnd Hin) as Hd.
    split; [|unfold dequeue in *; lia].
    intros f Hf. destruct (Hdrain f Hf) as [[Hold Hout]|Hnew].
    + destruct (Hl f Hold) as [Hq|Hq].
      * unfold dequeue in Hq. norm. apply filter_In in Hq.
        destruct Hq as [Hq Hne]. left. split; [exact Hq|].
        cbn [map fst]. intros [Heq|Hr]; [|exact (Hout Hr)].
        rewrite <- Heq, Nat.eqb_refl in Hne. discriminate.
      * right. exact Hq.
    + right. change (nextFrame (dequeue id w)) with (nextFrame w) in Hn. lia.
  - destruct (IH w Hw Hrest) as [Hdrain Hshort]. split; [|exact Hshort].
    intros f Hf. destruct (Hdrain f Hf) as [[Hold Hout]|Hnew];
      [|right; exact Hnew].
    left. split; [exact Hold|]. cbn [map fst].
    intros [Heq|Hr]; [|exact (Hout Hr)].
    assert (Hex' : existsb (fun g => Nat.eqb (fst g) id) (frames w) = true).
    { apply existsb_exists. exists f. split; [exact Hold|].
      apply Nat.eqb_eq. symmetry. exact Heq. }
    congruence.
Qed.

Lemma Coalesced_step live env a (w : World) :
  (a = Destroy -> live = false) ->
  Coalesced live w -> Coalesced live (step env a w).
Proof.
  intros Hlive Hw. destruct a; cbn [step].
  - destruct (isLoading (self w)); [|exact Hw].
    eapply Coalesced_appended; [exact Hw|apply appended_fulfilled].
  - destruct (isLoading (self w)); exact Hw.
  - eapply Coalesced_appended; [exact Hw|apply appended_scrollElementRef].
  - exact Hw.
  - eapply Coalesced_appended; [exact Hw|apply appended_handleItemCountChange].
  - destruct (element (self w)); [|exact Hw]. unfold handleScroll.
    destruct (rafPending (self w)) eqn:Hp; [exact Hw|].
    destruct Hw as (Hnd & Hlt & Hle & Hoff & Hon).
    specialize (Hoff Hp).
    unfold Coalesced. norm. rewrite scheduled_app, Hoff.
    split; [|split; [|split; [|split]]].
    + rewrite map_app. cbn [map fst]. apply NoDup_app; [exact Hnd| |].
      * constructor; [intros []|constructor].
      * intros x Hx [<-|[]]. apply in_map_iff in Hx.
        destruct Hx as (f & Hfx & Hf). specialize (Hlt f Hf). lia.
    + intros f Hf. apply in_app_or in Hf. destruct Hf as [Hf|[<-|[]]].
      * specialize (Hlt f Hf). lia.
      * cbn [fst]. lia.
    + cbn. lia.
    + discriminate.
    + intros _ _. reflexivity.
  - unfold animationFrame. apply Coalesced_runFrame; [exact Hw|].
    eapply batchOk_frames. exact Hw.
  - rewrite (Hlive eq_refl) in *.
    destruct Hw as (Hnd & Hlt & Hle & Hoff & _).
    assert (Hf : frames (willDestroy w) = frames w
                 \/ frames (willDestroy w)
                    = filter (fun f => negb (Nat.eqb (fst f) (rafId (self w))))
                        (frames w)).
    { unfold willDestroy. norm.
      destruct (Nat.eqb (rafId (self w)) 0); norm;
        destruct (virtualizer (self w)) as [[hv v]|]; norm;
        destruct (uniformVirtualizer (self w)) as [[hu u]|];
        first [left; reflexivity|right; reflexivity]. }
    assert (Hn : nextFrame (willDestroy w) = nextFrame w).
    { unfold willDestroy. norm.
      destruct (Nat.eqb (rafId (self w)) 0); norm;
        destruct (virtualizer (self w)) as [[hv v]|]; norm;
        destruct (uniformVirtualizer (self w)) as [[hu u]|]; reflexivity. }
    unfold Coalesced. rewrite Hn, willDestroy_self. norm.
    destruct Hf as [->| ->].
    + repeat split; try assumption. discriminate.
    + pose proof (scheduled_filter
                    (fun f => negb (Nat.eqb (fst f) (rafId (self w))))
                    (frames w)) as Hs.
      split; [apply NoDup_filter_fst; exact Hnd|].
      split; [intros f Hf; apply filter_In in Hf; apply Hlt; apply Hf|].
      split; [lia|]. split; [|discriminate].
      intro Hp. specialize (Hoff Hp). lia.
Qed.

Lemma Coalesced_run live script :
  (live = true -> forall env, ~ In (env, Destroy) script) ->
  forall w, Coalesced live w -> Coalesced live (run script w).
Proof.
  induction script as [|[env a] rest IH]; intros Hlive w Hw; [exact Hw|].
  cbn [run]. apply IH.
  - intros Ht env' Hin. apply (Hlive Ht env'). right. exact Hin.
  - apply Coalesced_step; [|exact Hw].
    intro Ha. subst a. destruct live; [|reflexivity].
    exfalso. apply (Hlive eq_refl env). left. reflexivity.
Qed.

Lemma Coalesced_initial live : Coalesced live initial.
Proof.
  unfold Coalesced. cbn.
  split; [constructor|]. split; [intros f []|].
  split; [lia|]. split; [reflexivity|discriminate].
Qed.

End Coalescing.

(** X13. Scroll events are coalesced.  In every state of every lifetime at
    most one callback of the scroll scheduler is queued, and only while the
    latch [rafPending] is set; and until the component is torn down a set
    latch always has its callback queued, so that no scroll event is left
    without a recomputation to come. *)
Theorem scroll_callbacks_coalesced {E : Engine}
  (script : list (Env * Action)) :
  let w := run script initial in
  (scheduled (frames w) <= 1)%nat
  /\ (scheduled (frames w) = 1%nat -> rafPending (self w) = true)
  /\ ((forall env, ~ In (env, Destroy) script) ->
      rafPending (self w) = true -> scheduled (frames w) = 1%nat).
Proof.
  intro w. split; [|split].
  - destruct (Coalesced_run false script) with (w := initial)
      as (_ & _ & H & _);
      [discriminate|apply Coalesced_initial|exact H].
  - destruct (Coalesced_run false script) with (w := initial)
      as (_ & _ & _ & H & _);
      [discriminate|apply Coalesced_initial|].
    fold w in H. intro H1. destruct (rafPending (self w)); [reflexivity|].
    specialize (H eq_refl). lia.
  - intro Hlive.
    destruct (Coalesced_run true script) with (w := initial)
      as (_ & _ & _ & _ & H);
      [intros _; exact Hlive|apply Coalesced_initial|].
    apply H. reflexivity.
Qed.

(** X24. A frame drains the queue.  In every state of every lifetime, a
    frame takes every callback that was queued when it started out of the
    queue: what is queued after the frame was requested during it; and the
    frame leaves the queue no longer than it found it, so retries and
    deferred scroll work never pile up. *)
Theorem frame_drains_the_queue {E : Engine}
  (script : list (Env * Action)) (env : Env) :
  let w := run script initial in
  (forall f, In f (frames (step env Frame w)) -> (nextFrame w <= fst f)%nat)
  /\ (List.length (frames (step env Frame w)) <= List.length (frames w))%nat.
Proof.
  intro w.
  assert (Hw : Coalesced false w).
  { apply Coalesced_run; [discriminate|apply Coalesced_initial]. }
  cbn [step]. unfold animationFrame.
  destruct (runFrame_drains false env (frames w) w Hw
              (batchOk_frames false w Hw)) as [Hdrain Hshort].
  split; [|exact Hshort].
  intros f Hf. destruct (Hdrain f Hf) as [[Hold Hout]|Hnew]; [|exact Hnew].
  exfalso. apply Hout. apply in_map. exact Hold.
Qed.

(** ** The gateway's states and its other exports *)

Section GatewayStates.

Import Gateway.

Ltac gnorm :=
  cbn [wasmModule wasmStatus wasmError initializationPromise
       performanceStats promises tasks loads setStatus
       set_initializationPromise set_wasmModule set_performanceStats
       set_promises set_tasks set_loads fst snd] in *.

Lemma find_settle_other (ps : list (nat * PromiseState)) p q st :
  q <> p ->
  find (fun e => Nat.eqb (fst e) q)
    (map (fun e => if Nat.eqb (fst e) p then (p, st) else e) ps)
  = find (fun e => Nat.eqb (fst e) q) ps.
Proof.
  intro Hne. induction ps as [|e ps IH]; [reflexivity|]. cbn [find map].
  destruct (Nat.eqb (fst e) p) eqn:He.
  - apply Nat.eqb_eq in He. cbn [fst].
    replace (Nat.eqb p q) with false
      by (symmetry; apply Nat.eqb_neq; congruence).
    replace (Nat.eqb (fst e) q) with false
      by (symmetry; apply Nat.eqb_neq; congruence).
    exact IH.
  - destruct (Nat.eqb (fst e) q); [reflexivity|exact IH].
Qed.

Lemma find_app_other (ps : list (nat * PromiseState)) q x :
  fst x <> q ->
  find (fun e => Nat.eqb (fst e) q) (ps ++ [x])
  = find (fun e => Nat.eqb (fst e) q) ps.
Proof.
  intro Hne. induction ps as [|e ps IH].
  - cbn. apply Nat.eqb_neq in Hne. rewrite Hne. reflexivity.
  - cbn [app find]. destruct (Nat.eqb (fst e) q); [reflexivity|exact IH].
Qed.

Lemma find_app_old (ps xs : list (nat * PromiseState)) q e :
  find (fun e => Nat.eqb (fst e) q) ps = Some e ->
  find (fun e => Nat.eqb (fst e) q) (ps ++ xs) = Some e.
Proof.
  induction ps as [|e' ps IH]; [discriminate|]. cbn [app find].
  destruct (Nat.eqb (fst e') q); [intro H; exact H|exact IH].
Qed.

(** Settling a pending promise fulfils or rejects that promise and no
    other. *)
Lemma promiseState_settle p q st g :
  promiseState p g = Some Pending ->
  promiseState q (settle p st g)
  = if Nat.eqb q p then Some st else promiseState q g.
Proof.
  intro Hp. destruct (pending_found p g Hp) as [e He].
  unfold promiseState, settle. gnorm.
  destruct (Nat.eqb q p) eqn:Hq.
  - apply Nat.eqb_eq in Hq. subst q.
    rewrite (find_settle _ _ _ _ He). reflexivity.
  - apply Nat.eqb_neq in Hq. rewrite (find_settle_other _ _ _ _ Hq).
    reflexivity.
Qed.

(** While a load is in flight no promise is fulfilled. *)
Lemma in_flight_unfulfilled g p :
  Exports.Sound g -> initializationPromise g = Some p ->
  forall q, promiseState q g <> Some Fulfilled.
Proof.
  intros ([_ Hc] & _ & _ & Hful & _) Hp q Hq. rewrite Hp in Hc.
  destruct Hc as [Hs _]. specialize (Hful q Hq). congruence.
Qed.

Lemma Sound_failed p err g t :
  Exports.Sound g -> initializationPromise g = Some p -> tasks g = [t] ->
  t_promise t = p -> Exports.Sound (failed p err g).
Proof.
  intros Hg Hp Ht Htp. pose proof Hg as (Hc & He & Hr & Hful & Hidle).
  destruct (failed_spec p err g t Hc Hp Ht Htp) as [(Hs & Herr & _) Hc'].
  pose proof Hc as [_ Hcc]. rewrite Hp in Hcc. destruct Hcc as (_ & Hpend & _).
  split; [exact Hc'|]. rewrite Herr, Hs.
  split; [reflexivity|]. split; [discriminate|]. split; [|discriminate].
  intros q Hq. exfalso.
  assert (Hq' : promiseState q (settle p (Rejected err) g) = Some Fulfilled)
    by exact Hq.
  rewrite (promiseState_settle p q _ g Hpend) in Hq'.
  destruct (Nat.eqb q p); [discriminate|].
  exact (in_flight_unfulfilled g p Hg Hp q Hq').
Qed.

Lemma Sound_step i g : Exports.Sound g -> Exports.Sound (step i g).
Proof.
  intro Hg. pose proof Hg as (Hc & He & Hr & Hful & Hidle).
  pose proof (Consistent_step i g Hc) as Hc'.
  destruct i as [now|p r|p r now]; cbn [step] in *.
  - unfold initializeWasm in *.
    destruct (initializationPromise g) as [p|] eqn:Hp; [exact Hg|].
    destruct (status_eqb (wasmStatus g) ready) eqn:Hs.
    + assert (Hready : wasmStatus g = ready).
      { destruct (wasmStatus g); try discriminate. reflexivity. }
      split; [exact Hc'|]. unfold newPromise in *. gnorm.
      split; [exact He|]. split; [exact Hr|]. split; [|exact Hidle].
      intros _ _. exact Hready.
    + assert (Hnr : wasmStatus g <> ready).
      { intro H. rewrite H in Hs. discriminate. }
      split; [exact Hc'|]. unfold newPromise in *. gnorm.
      split; [discriminate|]. split; [discriminate|].
      split; [|discriminate].
      intros q Hq. exfalso. unfold promiseState in Hq. gnorm.
      destruct Hc as [Hwf _].
      destruct (Nat.eq_dec q (List.length (promises g))) as [->|Hne].
      * rewrite (find_app_new _ _ _
                   (find_fresh _ _ Hwf (Nat.le_refl _))) in Hq.
        discriminate.
      * rewrite find_app_other in Hq by (cbn [fst]; congruence).
        apply Hnr. apply (Hful q). exact Hq.
  - destruct (taskOf p g) as [t|] eqn:Ht; [|exact Hg].
    destruct (t_await t) eqn:Ha; [|exact Hg].
    pose proof Hc as [_ Hcc].
    destruct (initializationPromise g) as [q|] eqn:Hq.
    2:{ destruct Hcc as [_ Hnone]. rewrite (taskOf_none p g Hnone) in Ht.
        discriminate. }
    destruct Hcc as (Hst & _ & t' & Ht' & Hq').
    assert (t = t' /\ p = q) as [<- <-].
    { unfold taskOf in Ht. rewrite Ht' in Ht. cbn [find] in Ht.
      destruct (Nat.eqb (t_promise t') p) eqn:Heq; [|discriminate].
      apply Nat.eqb_eq in Heq. inversion Ht. subst. split; reflexivity. }
    destruct r as [err|m].
    + apply (Sound_failed (t_promise t) err g t); try assumption.
      * rewrite Hq, Hq'. reflexivity.
      * reflexivity.
    + split; [exact Hc'|]. unfold importSettled in *. gnorm.
      split; [exact He|]. rewrite Hst.
      split; [discriminate|]. split; [|discriminate].
      intros q' Hq''. exfalso.
      apply (in_flight_unfulfilled g p Hg Hq q'). exact Hq''.
  - destruct (taskOf p g) as [t|] eqn:Ht; [|exact Hg].
    destruct (t_await t) eqn:Ha; [exact Hg|].
    pose proof Hc as [_ Hcc].
    destruct (initializationPromise g) as [q|] eqn:Hq.
    2:{ destruct Hcc as [_ Hnone]. rewrite (taskOf_none p g Hnone) in Ht.
        discriminate. }
    destruct Hcc as (Hst & Hpend & t' & Ht' & Hq').
    assert (t = t' /\ p = q) as [<- <-].
    { unfold taskOf in Ht. rewrite Ht' in Ht. cbn [find] in Ht.
      destruct (Nat.eqb (t_promise t') p) eqn:Heq; [|discriminate].
      apply Nat.eqb_eq in Heq. inversion Ht. subst. split; reflexivity. }
    assert (Hp : initializationPromise g = Some (t_promise t))
      by (rewrite Hq, Hq'; reflexivity).
    unfold initSettled in *. destruct r as [err|].
    + apply (Sound_failed (t_promise t) err g t); try assumption. reflexivity.
    + match goal with
      | |- context [set_performanceStats ?st g] =>
          set (g1 := set_performanceStats st g) in *
      end.
      assert (Hg1 : Exports.Sound g1).
      { split; [exact Hc|]. split; [exact He|].
        split; [intro H; change (wasmStatus g1) with (wasmStatus g) in H;
                congruence|].
        split; [exact Hful|].
        intro H. change (wasmStatus g1) with (wasmStatus g) in H. congruence. }
      change (wasmModule g1) with (wasmModule g) in *.
      destruct (wasmModule g) as [m|] eqn:Hm.
      2:{ apply (Sound_failed (t_promise t) _ g1 t); try assumption.
          reflexivity. }
      destruct (get_version m) as [err|v] eqn:Hv.
      { apply (Sound_failed (t_promise t) _ g1 t); try assumption.
        reflexivity. }
      split; [exact Hc'|]. unfold dropTask, settle. gnorm.
      split; [discriminate|].
      split; [intros _; exists m, v; subst g1; gnorm; cbn;
              repeat split; assumption|].
      split; [intros; reflexivity|discriminate].
Qed.

Lemma Sound_run script :
  forall g, Exports.Sound g -> Exports.Sound (run script g).
Proof.
  induction script as [|i rest IH]; intros g Hg; [exact Hg|].
  cbn [run]. apply IH. apply Sound_step. exact Hg.
Qed.

Lemma Sound_initial : Exports.Sound initial.
Proof.
  split; [apply Consistent_initial|]. cbn.
  split; [discriminate|]. split; [discriminate|].
  split; [intros p Hp; discriminate|]. intros _. repeat split.
Qed.

(** Once the status is [ready] nothing but the list of promises changes. *)
Lemma ready_step i g :
  Consistent g -> wasmStatus g = ready ->
  let g' := step i g in
  wasmStatus g' = ready /\ wasmModule g' = wasmModule g
  /\ performanceStats g' = performanceStats g /\ loads g' = loads g
  /\ wasmError g' = wasmError g
  /\ forall p, promiseState p g = Some Fulfilled ->
               promiseState p g' = Some Fulfilled.
Proof.
  intros Hc Hs.
  assert (Hp : initializationPromise g = None /\ tasks g = []).
  { destruct Hc as [_ Hcc].
    destruct (initializationPromise g) as [p|].
    - destruct Hcc as [Hi _]. congruence.
    - split; [reflexivity|apply Hcc]. }
  destruct Hp as [Hp Ht].
  destruct i as [now|p r|p r now]; cbn [step].
  - unfold initializeWasm. rewrite Hp, Hs. cbn [status_eqb].
    unfold newPromise. gnorm. repeat (split; [first [assumption|reflexivity]|]).
    intros p Hful. unfold promiseState in *. gnorm.
    destruct (find _ (promises g)) as [e|] eqn:Hf; [|discriminate].
    rewrite (find_app_old _ _ _ _ Hf). exact Hful.
  - rewrite (taskOf_none p g Ht). repeat split; try assumption. auto.
  - rewrite (taskOf_none p g Ht). repeat split; try assumption. auto.
Qed.

Lemma ready_run script :
  forall g, Consistent g -> wasmStatus g = ready ->
  let g' := run script g in
  wasmStatus g' = ready /\ wasmModule g' = wasmModule g
  /\ performanceStats g' = performanceStats g /\ loads g' = loads g
  /\ wasmError g' = wasmError g
  /\ forall p, promiseState p g = Some Fulfilled ->
               promiseState p g' = Some Fulfilled.
Proof.
  induction script as [|i rest IH]; intros g Hc Hs.
  - cbn [run]. split; [exact Hs|]. repeat (split; [reflexivity|]).
    intros p Hp. exact Hp.
  - cbn [run].
    destruct (ready_step i g Hc Hs) as (H1 & H2 & H3 & H4 & H5 & H6).
    destruct (IH (step i g) (Consistent_step i g Hc) H1)
      as (K1 & K2 & K3 & K4 & K5 & K6).
    split; [exact K1|]. split; [congruence|]. split; [congruence|].
    split; [congruence|]. split; [congruence|].
    intros p Hp. apply K6. apply H6. exact Hp.
Qed.

End GatewayStates.

(** X14. In every state the gateway can reach, [getWasmStatus] reports an
    error exactly when it reports the status [error]; and as long as the
    status is [idle] nothing was loaded: the statistics are the initial
    ones and every factory throws. *)
Theorem status_and_error_agree (script : list Gateway.Input) :
  let info := Exports.getWasmStatus (Gateway.run script Gateway.initial) in
  (Exports.status info = Gateway.error <-> Exports.error info <> None)
  /\ (Exports.status info = Gateway.idle ->
      Exports.version info = "0.0.0"%string
      /\ Exports.isOptimized info = false
      /\ Gateway.loads (Gateway.run script Gateway.initial) = O
      /\ Gateway.getWasmModule (Gateway.run script Gateway.initial)
         = inl "WASM not initialized. Call initializeWasm() first."%string).
Proof.
  intro info. subst info. cbn [Exports.getWasmStatus Exports.status
    Exports.error Exports.version Exports.isOptimized].
  destruct (Sound_run script Gateway.initial Sound_initial)
    as (_ & He & _ & _ & Hidle).
  split.
  - destruct (Gateway.wasmError _); split; intro H;
      try assumption; try discriminate; congruence.
  - intro Hs. destruct (Hidle Hs) as (Hl & Hm & Hst).
    rewrite Hst. unfold Gateway.getWasmModule. rewrite Hm.
    repeat split. exact Hl.
Qed.

(** X15. The status [ready] is final.  Once the gateway is ready, whatever
    calls and settlements follow, it stays ready with the same bindings and
    the same statistics, starts no further load, has no error, and the
    promises it has fulfilled stay fulfilled. *)
Theorem ready_is_final (script more : list Gateway.Input) :
  let g := Gateway.run script Gateway.initial in
  Gateway.wasmStatus g = Gateway.ready ->
  let g' := Gateway.run more g in
  Gateway.wasmStatus g' = Gateway.ready
  /\ Gateway.wasmModule g' = Gateway.wasmModule g
  /\ Gateway.performanceStats g' = Gateway.performanceStats g
  /\ Gateway.loads g' = Gateway.loads g
  /\ Gateway.wasmError g' = None
  /\ forall p, Gateway.promiseState p g = Some Gateway.Fulfilled ->
               Gateway.promiseState p g' = Some Gateway.Fulfilled.
Proof.
  intros g Hs g'.
  destruct (Sound_run script Gateway.initial Sound_initial)
    as (Hc & He & _).
  fold g in Hc, He.
  destruct (ready_run more g Hc Hs) as (H1 & H2 & H3 & H4 & H5 & H6).
  repeat (split; [assumption|]). split; [|exact H6].
  fold g' in H5. rewrite H5. destruct (Gateway.wasmError g); [|reflexivity].
  rewrite Hs in He. discriminate.
Qed.

(** X16. A fulfilled promise means a usable engine.  In every state the
    gateway can reach, if any promise it handed out is fulfilled then
    [getWasmModule] does not throw: the two factories return a new engine
    object and [get_version] returns the version recorded in the
    statistics. *)
Theorem fulfilled_means_usable {E : Engine} (script : list Gateway.Input)
  (p : nat) :
  let g := Gateway.run script Gateway.initial in
  Gateway.promiseState p g = Some Gateway.Fulfilled ->
  (exists m, Gateway.getWasmModule g = inr m)
  /\ (forall szs, Exports.createVirtualizer szs g = inr (variable_new szs))
  /\ (forall count size,
        Exports.createUniformVirtualizer count size g
        = inr (uniform_new count size))
  /\ Exports.get_version g
     = inr (Exports.version (Exports.getWasmStatus g)).
Proof.
  intros g Hp.
  destruct (Sound_run script Gateway.initial Sound_initial)
    as (_ & _ & Hr & Hful & _).
  fold g in Hr, Hful. pose proof (Hful p Hp) as Hs.
  destruct (Hr Hs) as (m & v & Hm & Hv & Hver & _).
  assert (Hget : Gateway.getWasmModule g = inr m).
  { unfold Gateway.getWasmModule. rewrite Hm, Hs. reflexivity. }
  unfold Exports.createVirtualizer, Exports.createUniformVirtualizer,
    Exports.get_version. rewrite Hget.
  split; [exists m; reflexivity|]. split; [reflexivity|].
  split; [reflexivity|]. cbn [Exports.getWasmStatus Exports.version].
  rewrite Hver. exact Hv.
Qed.

(** X17. The factories and [get_version] work exactly with the status
    [ready]: in every state the gateway can reach, [getWasmModule] returns
    the bindings if and only if the status is [ready], and otherwise all
    three throw the same error. *)
Theorem exports_need_ready {E : Engine} (script : list Gateway.Input) :
  let g := Gateway.run script Gateway.initial in
  ((exists m, Gateway.getWasmModule g = inr m)
   <-> Gateway.wasmStatus g = Gateway.ready)
  /\ (Gateway.wasmStatus g <> Gateway.ready ->
      (forall szs,
         Exports.createVirtualizer szs g
         = inl "WASM not initialized. Call initializeWasm() first."%string)
      /\ (forall count size,
            Exports.createUniformVirtualizer count size g
            = inl "WASM not initialized. Call initializeWasm() first."%string)
      /\ Exports.get_version g
         = inl "WASM not initialized. Call initializeWasm() first."%string).
Proof.
  intro g.
  destruct (Sound_run script Gateway.initial Sound_initial)
    as (_ & _ & Hr & _).
  fold g in Hr.
  assert (Hthrow : Gateway.wasmStatus g <> Gateway.ready ->
            Gateway.getWasmModule g
            = inl "WASM not initialized. Call initializeWasm() first."%string).
  { intro Hs. unfold Gateway.getWasmModule.
    destruct (Gateway.wasmModule g); [|reflexivity].
    destruct (Gateway.wasmStatus g); try reflexivity. congruence. }
  split; [split|].
  - intros [m Hm].
    destruct (Gateway.wasmStatus g) eqn:Hs; try reflexivity;
      rewrite Hthrow in Hm; try discriminate; congruence.
  - intro Hs. destruct (Hr Hs) as (m & _ & Hm & _). exists m.
    unfold Gateway.getWasmModule. rewrite Hm, Hs. reflexivity.
  - intro Hs. unfold Exports.createVirtualizer,
      Exports.createUniformVirtualizer, Exports.get_version.
    rewrite (Hthrow Hs). repeat split.
Qed.

(** ** Rendering the range *)

Section RenderedRows.

Context {E : Engine}.
Context {T : Type}.

Lemma map_fst_combine_seq {A : Type} (l : list A) k :
  map fst (combine (seq k (List.length l)) l) = seq k (List.length l).
Proof.
  revert k. induction l as [|x l IH]; intro k; [reflexivity|].
  cbn [List.length seq combine map fst]. rewrite IH. reflexivity.
Qed.

Lemma map_snd_combine_seq {A : Type} (l : list A) k :
  map snd (combine (seq k (List.length l)) l) = l.
Proof.
  revert k. induction l as [|x l IH]; intro k; [reflexivity|].
  cbn [List.length seq combine map snd]. rewrite IH. reflexivity.
Qed.

(** Reading a list entry by entry, with a fallback for missing entries,
    gives the list back. *)
Lemma map_nullish_nth_error (l pre : list Q) :
  map (fun i => JS.nullish (nth_error (pre ++ l) i) 0%Q)
    (seq (List.length pre) (List.length l)) = l.
Proof.
  revert pre. induction l as [|x l IH]; intro pre; [reflexivity|].
  cbn [List.length seq map]. f_equal.
  - rewrite nth_error_app2 by apply Nat.le_refl.
    rewrite Nat.sub_diag. reflexivity.
  - specialize (IH (pre ++ [x])). rewrite <- app_assoc in IH.
    rewrite length_app in IH. cbn [List.length app] in IH.
    rewrite Nat.add_1_r in IH. exact IH.
Qed.

Lemma rows_of_range (r : VirtualRange) (items : option (list T)) count :
  rangeOk count r -> consecutive r ->
  List.length (Rendering.rows r items)
  = Z.to_nat (endIndex r - startIndex r)
  /\ map (fun row => Rendering.translateY (fst (fst row)))
       (Rendering.rows r items) = offsets r
  /\ map (fun row => Rendering.height (fst (fst row)))
       (Rendering.rows r items) = sizes r
  /\ map snd (Rendering.rows r items)
     = map (fun i => startIndex r + i)
         (JS.indices (Z.to_nat (endIndex r - startIndex r))).
Proof.
  intros (H0 & H1 & H2 & Hi & Ho & Hs) Hcons.
  unfold Rendering.rows.
  assert (Hstyle : forall l : list Q,
            List.length l = List.length (Controller.items r) ->
            map (fun p : nat * Z => JS.nullish (nth_error l (fst p)) 0%Q)
              (combine (seq 0 (List.length (Controller.items r)))
                 (Controller.items r))
            = l).
  { intros l Hl.
    rewrite <- (map_map fst (fun i => JS.nullish (nth_error l i) 0%Q)).
    rewrite map_fst_combine_seq, <- Hl.
    exact (map_nullish_nth_error l []). }
  split; [|split; [|split]].
  - rewrite length_map, length_combine, length_seq. lia.
  - rewrite map_map. cbn [fst Rendering.translateY Rendering.rowStyleAt].
    apply Hstyle. lia.
  - rewrite map_map. cbn [fst Rendering.height Rendering.rowStyleAt].
    apply Hstyle. lia.
  - rewrite map_map. cbn [snd]. rewrite <- Hcons.
    apply (map_snd_combine_seq (Controller.items r) 0).
Qed.

End RenderedRows.

(** X18. What is rendered for a published range is exactly the visible
    window: there is one row for each index from [startIndex] to
    [endIndex - 1], its style carries the offset and the size the range
    holds for it (never the fallback 0 of a missing entry); in items mode,
    when the item count is the length of the [items] array, every row
    yields an element of the array, namely the one at its index; without
    [items] every row yields its index. *)
Theorem rendered_rows_are_the_window {E : Engine} {T : Type}
  (script : list (Controller.Env * Controller.Action))
  (items : option (list T)) :
  Forall (Controller.publishes (fun r count =>
            map snd (Rendering.rows r items)
            = map (fun i => Controller.startIndex r + i)
                (JS.indices (Z.to_nat (Controller.endIndex r
                                       - Controller.startIndex r)))
            /\ map (fun row => Rendering.translateY (fst (fst row)))
                 (Rendering.rows r items) = Controller.offsets r
            /\ map (fun row => Rendering.height (fst (fst row)))
                 (Rendering.rows r items) = Controller.sizes r
            /\ match items with
               | Some its =>
                   count = Rendering.itemCount None items ->
                   Forall (fun row =>
                             exists x,
                               snd (fst row) = Rendering.Item (Some x)
                               /\ nth_error its (Z.to_nat (snd row)) = Some x)
                     (Rendering.rows r items)
               | None =>
                   Forall (fun row =>
                             snd (fst row) = Rendering.Index (snd row))
                     (Rendering.rows r items)
               end))
    (Controller.trace (Controller.run script Controller.initial)).
Proof.
  destruct (range_held consecutive) with (script := script) as [_ Hpub].
  - reflexivity.
  - apply consecutive_calculateRange.
  - assert (Hok : Forall (publishes (fun r n => rangeOk n r))
                    (trace (run script initial))).
    { apply publishes_run. intros env w e. destruct e; cbn; tauto. }
    rewrite Forall_forall in *. intros e He.
    specialize (Hpub e He). specialize (Hok e He).
    destruct e; try exact I. cbn [publishes] in *.
    destruct (rows_of_range r items count Hok Hpub)
      as (Hlen & Hoffs & Hszs & Hidx).
    split; [exact Hidx|]. split; [exact Hoffs|]. split; [exact Hszs|].
    destruct items as [its|].
    + intro Hcount. unfold Rendering.itemCount in Hcount. cbn in Hcount.
      apply Forall_forall. intros row Hrow.
      assert (Hin : In (snd row) (map snd (Rendering.rows r (Some its))))
        by (apply in_map; exact Hrow).
      rewrite Hidx in Hin. apply in_map_iff in Hin.
      destruct Hin as (k & Hk & Hkin). unfold JS.indices in Hkin.
      apply in_map_iff in Hkin. destruct Hkin as (j & <- & Hj).
      apply in_seq in Hj. destruct Hok as (H0 & H1 & H2 & _).
      unfold Rendering.rows in Hrow. apply in_map_iff in Hrow.
      destruct Hrow as (p & <- & _). cbn [fst snd] in *.
      unfold Rendering.getItem, Rendering.at_index.
      cbn [Rendering.isItemsMode JS.nullish].
      assert (Hlt : (Z.to_nat (snd p) < List.length its)%nat) by lia.
      destruct (Z.ltb_spec (snd p) 0); [lia|].
      destruct (nth_error its (Z.to_nat (snd p))) as [x|] eqn:Hx;
        [|apply nth_error_None in Hx; lia].
      exists x. split; reflexivity.
    + apply Forall_forall. intros row Hrow.
      unfold Rendering.rows in Hrow. apply in_map_iff in Hrow.
      destruct Hrow as (p & <- & _). reflexivity.
Qed.

Section Views.

Context {E : Engine}.

Lemma calculateRange_error env (w : World) :
  error (self (fst (calculateRange env w))) = error (self w).
Proof.
  unfold calculateRange. norm.
  destruct (element (self w)) as [el|]; [|reflexivity].
  destruct (readViewport _ _) as [sp vp].
  destruct (Qle_bool vp 0); [reflexivity|].
  destruct (candidate _ _ _ _) as [c|]; [|reflexivity].
  destruct (unchanged _ _); [reflexivity|].
  destruct (JS.new_Array _) as [n|]; [|reflexivity].
  destruct (visibleItems _ _ _ _) as [[[its offs] szs] fills].
  destruct (contentHeight _ _) as [th look]. reflexivity.
Qed.

Lemma handleItemCountChange_error env (w : World) :
  error (self (fst (handleItemCountChange env w))) = error (self w).
Proof.
  unfold handleItemCountChange.
  destruct (negb (wasmReady (self w)) || isLoading (self w)); [reflexivity|].
  destruct (if isUniform (self w) then uniformVirtualizer (self w) else None)
    as [[h u]|].
  - rewrite calculateRange_error. reflexivity.
  - destruct (virtualizer (self w)) as [[h v]|]; [|reflexivity].
    destruct (JS.new_Array _) as [n|]; [|reflexivity].
    rewrite calculateRange_error. reflexivity.
Qed.

(** An error is reported only by a component that is not loading. *)
Lemma error_not_loading script :
  error (self (run script initial)) <> None ->
  isLoading (self (run script initial)) = false.
Proof.
  apply (Inv_run (fun w => error (self w) <> None ->
                           isLoading (self w) = false) (fun _ => True)).
  - intros env w _ Hw. rewrite calculateRange_error.
    destruct (calculateRange_static env w)
      as (_ & _ & _ & _ & _ & _ & -> & _).
    exact Hw.
  - intros env w _ Hw. rewrite handleItemCountChange_error.
    destruct (handleItemCountChange_flags env w) as [-> _]. exact Hw.
  - intros env w _ _ _.
    destruct (initialize_fulfilled_flags env w) as [Hl _]. exact Hl.
  - intros err w _ _. reflexivity.
  - intros w Hw. rewrite willDestroy_self. exact Hw.
  - intros el w Hw. exact Hw.
  - intros b w Hw. exact Hw.
  - intros id w Hw. exact Hw.
  - intros fs w Hw. exact Hw.
  - intros cb w Hw. exact Hw.
  - intros env act _. exact I.
  - intro H. exfalso. apply H. reflexivity.
Qed.

(** Once loading has ended, it has ended for good and the error reported,
    if any, stays. *)
Lemma settled_run script (w : World) :
  isLoading (self w) = false ->
  isLoading (self (run script w)) = false
  /\ error (self (run script w)) = error (self w).
Proof.
  intro Hl.
  apply (Inv_run_guarded
           (fun w' => isLoading (self w') = false
                      /\ error (self w') = error (self w)));
    [| | | | | | | | | |split; [exact Hl|reflexivity]]; clear Hl.
  - intros env w' [Hl He]. rewrite calculateRange_error.
    destruct (calculateRange_static env w')
      as (_ & _ & _ & _ & _ & _ & -> & _).
    split; assumption.
  - intros env w' [Hl He]. rewrite handleItemCountChange_error.
    destruct (handleItemCountChange_flags env w') as [-> _].
    split; assumption.
  - intros env w' Hl [Hl' _]. congruence.
  - intros err w' Hl [Hl' _]. congruence.
  - intros w' H. rewrite willDestroy_self. exact H.
  - intros el w' H. exact H.
  - intros b w' H. exact H.
  - intros id w' H. exact H.
  - intros fs w' H. exact H.
  - intros cb w' H. exact H.
Qed.

End Views.

(** X19. What [WarperComponent] shows only moves forward.  Once it shows
    the error block it shows that error for the rest of the component's
    life, and once it shows the rows it never goes back to the loading or
    to the error block, whatever happens to the component. *)
Theorem view_only_moves_forward {E : Engine}
  (script more : list (Env * Action)) :
  match Rendering.view (self (run script initial)) with
  | Rendering.ErrorBlock err =>
      Rendering.view (self (run (script ++ more) initial))
      = Rendering.ErrorBlock err
  | Rendering.Rows _ =>
      Rendering.view (self (run (script ++ more) initial))
      = Rendering.Rows (range (self (run (script ++ more) initial)))
  | Rendering.LoadingBlock => True
  end.
Proof.
  rewrite run_app. unfold Rendering.view.
  pose proof (error_not_loading script) as Hk.
  destruct (error (self (run script initial))) as [err|] eqn:He.
  - assert (Hl : isLoading (self (run script initial)) = false)
      by (apply Hk; discriminate).
    destruct (settled_run more (run script initial) Hl) as [_ He'].
    rewrite He', He. reflexivity.
  - destruct (isLoading (self (run script initial))) eqn:Hl; [exact I|].
    destruct (settled_run more (run script initial) Hl) as [Hl' He'].
    rewrite He', He, Hl'. reflexivity.
Qed.

(** ** Where the rows are placed *)

Section Placement.

Context {E : Engine}.





Lemma handleItemCountChange_path env (w : World) :
  isUniform (self (fst (handleItemCountChange env w))) = isUniform (self w)
  /\ uniformSize (self (fst (handleItemCountChange env w)))
     = uniformSize (self w).
Proof.
  unfold handleItemCountChange.
  destruct (negb (wasmReady (self w)) || isLoading (self w));
    [split; reflexivity|].
  destruct (if isUniform (self w) then uniformVirtualizer (self w) else None)
    as [[h u]|].
  - match goal with
    | |- context [calculateRange ?e ?x] =>
        destruct (calculateRange_static e x) as (_ & _ & -> & -> & _)
    end.
    split; reflexivity.
  - destruct (virtualizer (self w)) as [[h v]|]; [|split; reflexivity].
    destruct (JS.new_Array _) as [n|]; [|split; reflexivity].
    match goal with
    | |- context [calculateRange ?e ?x] =>
        destruct (calculateRange_static e x) as (_ & _ & -> & -> & _)
    end.
    split; reflexivity.
Qed.

(** Once loading has ended the path and the uniform size stay as they
    are. *)
Lemma path_run script (w : World) :
  isLoading (self w) = false ->
  isUniform (self (run script w)) = isUniform (self w)
  /\ uniformSize (self (run script w)) = uniformSize (self w).
Proof.
  intro Hl.
  assert (H : isLoading (self (run script w)) = false
              /\ isUniform (self (run script w)) = isUniform (self w)
              /\ uniformSize (self (run script w)) = uniformSize (self w)).
  { apply (Inv_run_guarded
             (fun w' => isLoading (self w') = false
                        /\ isUniform (self w') = isUniform (self w)
                        /\ uniformSize (self w') = uniformSize (self w)));
      [| | | | | | | | | |split; [exact Hl|split; reflexivity]]; clear Hl.
    - intros env w' (Hl & Hu & Hs).
      destruct (calculateRange_static env w')
        as (_ & _ & -> & -> & _ & _ & -> & _).
      split; [exact Hl|split; assumption].
    - intros env w' (Hl & Hu & Hs).
      destruct (handleItemCountChange_path env w') as [-> ->].
      destruct (handleItemCountChange_flags env w') as [-> _].
      split; [exact Hl|split; assumption].
    - intros env w' Hl [Hl' _]. congruence.
    - intros err w' Hl [Hl' _]. congruence.
    - intros w' H. rewrite willDestroy_self. exact H.
    - intros el w' H. exact H.
    - intros b w' H. exact H.
    - intros id w' H. exact H.
    - intros fs w' H. exact H.
    - intros cb w' H. exact H. }
  destruct H as (_ & Hu & Hs). split; assumption.
Qed.

Lemma held_handleItemCountChange env (w : World) :
  (exists h, holds (self w) h) ->
  exists h, holds (self (fst (handleItemCountChange env w))) h.
Proof.
  intros [h0 Hh]. unfold handleItemCountChange.
  destruct (negb (wasmReady (self w)) || isLoading (self w));
    [exists h0; exact Hh|].
  destruct (if isUniform (self w) then uniformVirtualizer (self w) else None)
    as [[h u]|].
  - match goal with
    | |- context [calculateRange ?e ?x] =>
        destruct (calculateRange_static e x) as (_ & Hu & _)
    end.
    exists h. right. eexists. rewrite Hu. reflexivity.
  - destruct (virtualizer (self w)) as [[h v]|]; [|exists h0; exact Hh].
    destruct (JS.new_Array _) as [n|]; [|exists h0; exact Hh].
    match goal with
    | |- context [calculateRange ?e ?x] =>
        destruct (calculateRange_static e x) as (Hv & _)
    end.
    eexists. left. eexists. rewrite Hv. reflexivity.
Qed.

(** Without a teardown a component that holds a handle goes on holding
    one. *)
Lemma held_run script (w : World) :
  (forall env, ~ In (env, Destroy) script) ->
  isLoading (self w) = false -> (exists h, holds (self w) h) ->
  exists h, holds (self (run script w)) h.
Proof.
  intros Hs Hl Hh.
  assert (H : isLoading (self (run script w)) = false
              /\ exists h, holds (self (run script w)) h).
  { apply (Inv_run_alive
             (fun w' => isLoading (self w') = false
                        /\ exists h, holds (self w') h));
      [| | | | | | | | |exact Hs|split; assumption]; clear.
    - intros env w' [Hl [h Hh]].
      destruct (calculateRange_static env w')
        as (Hv & Hu & _ & _ & _ & _ & -> & _).
      split; [exact Hl|]. exists h. unfold holds. rewrite Hv, Hu. exact Hh.
    - intros env w' [Hl Hh].
      destruct (handleItemCountChange_flags env w') as [-> _].
      split; [exact Hl|]. apply held_handleItemCountChange. exact Hh.
    - intros env w' Hl [Hl' _]. congruence.
    - intros err w' Hl [Hl' _]. congruence.
    - intros el w' H. exact H.
    - intros b w' H. exact H.
    - intros id w' H. exact H.
    - intros fs w' H. exact H.
    - intros cb w' H. exact H. }
  apply H.
Qed.

Lemma setupVirtualizer_holds env (w : World) :
  itemCount (args env) < 2 ^ 32 ->
  holds (self (initialize_fulfilled env w)) (nextHandle w)
  /\ isLoading (self (initialize_fulfilled env w)) = false.
Proof.
  intro Hc. unfold initialize_fulfilled, setupVirtualizer.
  destruct (sampleSizes _ _ _ _) as [uniform called] eqn:Hs.
  destruct uniform.
  - split; [right; eexists; reflexivity|reflexivity].
  - unfold JS.new_Array.
    destruct ((0 <=? itemCount (args env)) && (itemCount (args env) <? 2 ^ 32))
      eqn:Hn.
    + split; [left; eexists; reflexivity|reflexivity].
    + exfalso. apply andb_false_iff in Hn. destruct Hn as [Hn|Hn];
        [apply Z.leb_gt in Hn|apply Z.ltb_ge in Hn; lia].
      destruct (Z.to_nat (Z.min 10 (itemCount (args env)) - 1)) eqn:Hk;
        [cbn in Hs; discriminate|lia].
Qed.

End Placement.


(** X22. The path is chosen once.  Whether the component is on the uniform
    or on the variable path, and the uniform item size, are decided by the
    setup and never change afterwards, whatever the estimator returns
    later and however the item count changes. *)
Theorem path_is_chosen_once {E : Engine}
  (script more : list (Env * Action)) :
  isLoading (self (run script initial)) = false ->
  isUniform (self (run (script ++ more) initial))
  = isUniform (self (run script initial))
  /\ uniformSize (self (run (script ++ more) initial))
     = uniformSize (self (run script initial)).
Proof.
  intro Hl. rewrite run_app. apply path_run. exact Hl.
Qed.

(** X23. A teardown that comes while the engine is still loading does not
    stop the setup.  When the load completes afterwards the setup creates a
    handle all the same, and unless the component is torn down once more
    that handle, or the one that replaced it, is held and never freed. *)
Theorem teardown_while_loading_leaks {E : Engine}
  (before after : list (Env * Action)) (e env : Env) :
  isLoading (self (run before initial)) = true ->
  itemCount (args env) < 2 ^ 32 ->
  (forall env', ~ In (env', Destroy) after) ->
  let w := run (before ++ (e, Destroy) :: (env, WasmFulfilled) :: after)
             initial in
  In EvDestroy (trace w)
  /\ exists h, holds (self w) h /\ frees h (trace w) = O.
Proof.
  intros Hl Hc Hafter w.
  pose proof (Alive_run (before ++ (e, Destroy) :: (env, WasmFulfilled)
                         :: after)) as Halive.
  fold w in Halive.
  assert (Hw : w = run after
                     (initialize_fulfilled env
                        (willDestroy (run before initial)))).
  { subst w. rewrite run_app. cbn [run step]. rewrite willDestroy_self.
    norm. rewrite Hl. reflexivity. }
  clearbody w. subst w.
  destruct (setupVirtualizer_holds env (willDestroy (run before initial)) Hc)
    as [Hh Hl'].
  split.
  - destruct (run_extends after
                (initialize_fulfilled env (willDestroy (run before initial))))
      as [evs ->].
    apply in_or_app. left.
    assert (Hd : In EvDestroy (trace (willDestroy (run before initial)))).
    { rewrite willDestroy_trace. apply in_or_app. right. left. reflexivity. }
    unfold initialize_fulfilled, setupVirtualizer.
    destruct (sampleSizes _ _ _ _) as [uniform called].
    destruct uniform.
    + unfold createUniformVirtualizer, finishSetup. norm.
      repeat (apply in_or_app; left). exact Hd.
    + destruct (JS.new_Array _) as [n|].
      * unfold createVirtualizer, finishSetup. norm.
        repeat (apply in_or_app; left). exact Hd.
      * norm. repeat (apply in_or_app; left). exact Hd.
  - destruct (held_run after _ Hafter Hl' (ex_intro _ _ Hh)) as [h Hheld].
    exists h. split; [exact Hheld|].
    destruct Halive as (_ & _ & Hnot & _).
    apply frees_zero. apply (Hnot h Hheld).
Qed.

(** ** The identity of published ranges *)

Section Identity.

Context {E : Engine}.

Lemma publications_app t1 t2 :
  publications (t1 ++ t2) = publications t1 ++ publications t2.
Proof. unfold publications. apply flat_map_app. Qed.

Lemma publications_none t :
  (forall o r n, ~ In (EvPublish o r n) t) -> publications t = [].
Proof.
  induction t as [|e t IH]; intro H; [reflexivity|].
  cbn [publications flat_map].
  change (flat_map _ t) with (publications t).
  rewrite IH by (intros o r n Hin; apply (H o r n); right; exact Hin).
  destruct e; try reflexivity.
  exfalso. apply (H obj r count). left. reflexivity.
Qed.

Lemma publications_estimates l : publications (map EvEstimate l) = [].
Proof.
  apply publications_none. intros o r n Hin. apply in_map_iff in Hin.
  destruct Hin as (i & Hi & _). discriminate.
Qed.

Lemma visibleItems_quiet (this : Virtualizer) start n off its offs szs fills :
  visibleItems this start n off = (its, offs, szs, fills) ->
  forall o r k, ~ In (EvPublish o r k) fills.
Proof.
  unfold visibleItems.
  destruct (isUniform this); [|destruct (virtualizer this) as [[h v]|]];
    intro H; inversion H; intros o r k Hin; try exact Hin.
  apply in_flat_map in Hin. destruct Hin as (i & _ & [Hi|[Hi|[]]]);
    discriminate.
Qed.

Lemma contentHeight_quiet (this : Virtualizer) n :
  forall o r k, ~ In (EvPublish o r k) (snd (contentHeight this n)).
Proof.
  unfold contentHeight.
  destruct (isUniform this); [|destruct (virtualizer this) as [[h v]|]];
    intros o r k Hin; try exact Hin.
  destruct Hin as [Hin|[]]. discriminate.
Qed.

(** A recomputation publishes nothing, or one range in the next range
    object, which the component then holds. *)
Lemma calculateRange_publications env (w : World) :
  let w' := fst (calculateRange env w) in
  (publications (trace w') = publications (trace w)
   /\ nextObj w' = nextObj w
   /\ rangeObj (self w') = rangeObj (self w)
   /\ range (self w') = range (self w))
  \/ (publications (trace w')
      = publications (trace w) ++ [(nextObj w, range (self w'))]
      /\ nextObj w' = S (nextObj w)
      /\ rangeObj (self w') = nextObj w).
Proof.
  unfold calculateRange. norm.
  assert (Hone : publications [EvRecompute] = []) by reflexivity.
  destruct (element (self w)) as [el|].
  2:{ left. norm. rewrite publications_app, Hone, app_nil_r.
      repeat split. }
  destruct (readViewport _ _) as [sp vp].
  destruct (Qle_bool vp 0).
  { left. norm. rewrite !publications_app, Hone. cbn.
    rewrite !app_nil_r. repeat split. }
  destruct (candidate _ _ _ _) as [c|] eqn:Hc.
  2:{ left. norm. rewrite publications_app, Hone, app_nil_r.
      repeat split. }
  pose proof (publications_none _ (candidate_calls_quiet _ _ _ _ _ Hc))
    as Hcalls.
  destruct (unchanged _ _).
  { left. norm. rewrite !publications_app, Hone, Hcalls, !app_nil_r.
    repeat split. }
  destruct (JS.new_Array _) as [n|].
  - destruct (visibleItems _ _ _ _) as [[[its offs] szs] fills] eqn:Hv.
    pose proof (publications_none _ (visibleItems_quiet _ _ _ _ _ _ _ _ Hv))
      as Hfills.
    pose proof (publications_none _
                  (contentHeight_quiet (self w) (itemCount (args env))))
      as Hlook.
    destruct (contentHeight _ _) as [th look]. cbn [snd] in Hlook.
    right. norm.
    rewrite !publications_app, Hone, Hcalls, Hfills, Hlook. cbn.
    rewrite !app_nil_r. repeat split.
  - left. norm. rewrite !publications_app, Hone, Hcalls. cbn.
    rewrite !app_nil_r. repeat split.
Qed.

Lemma increasingFrom_weaken lo lo' l :
  (lo' <= lo)%nat -> increasingFrom lo l -> increasingFrom lo' l.
Proof.
  destruct l as [|x l]; [intros; exact I|].
  cbn. intros Hle [Hx Hl]. split; [lia|exact Hl].
Qed.

Lemma increasingFrom_snoc l :
  forall lo y,
    increasingFrom lo l -> Forall (fun x => (x < y)%nat) l -> (lo <= y)%nat ->
    increasingFrom lo (l ++ [y]).
Proof.
  induction l as [|x l IH]; intros lo y Hl Hall Hlo.
  - cbn. split; [exact Hlo|exact I].
  - cbn in *. destruct Hl as [Hx Hl]. inversion Hall as [|a b Ha Hb]. subst.
    split; [exact Hx|]. apply IH; [exact Hl|exact Hb|lia].
Qed.

Lemma Fresh_same (w w' : World) :
  Fresh w ->
  publications (trace w') = publications (trace w) ->
  nextObj w' = nextObj w -> rangeObj (self w') = rangeObj (self w) ->
  range (self w') = range (self w) ->
  Fresh w'.
Proof.
  intros (H1 & H2 & H3 & H4) Hp Hn Ho Hr. unfold Fresh.
  rewrite Hp, Hn, Ho, Hr. repeat split; assumption.
Qed.

Lemma Fresh_calculateRange env (w : World) :
  Fresh w -> Fresh (fst (calculateRange env w)).
Proof.
  intros Hw.
  destruct (calculateRange_publications env w)
    as [(Hp & Hn & Ho & Hr)|(Hp & Hn & Ho)].
  - apply (Fresh_same w); assumption.
  - destruct Hw as (H1 & H2 & H3 & H4). unfold Fresh.
    rewrite Hp, Hn, Ho, map_app, last_last. cbn [map fst].
    split; [|split; [|split; [lia|reflexivity]]].
    + apply increasingFrom_snoc; [exact H1|exact H2|exact H3].
    + apply Forall_app. split.
      * eapply Forall_impl; [|exact H2]. cbn. intros a Ha. lia.
      * apply Forall_cons; [lia|apply Forall_nil].
Qed.

Lemma Fresh_via (w0 w : World) :
  Fresh w0 ->
  publications (trace w) = publications (trace w0) ->
  nextObj w = nextObj w0 -> rangeObj (self w) = rangeObj (self w0) ->
  range (self w) = range (self w0) ->
  forall env, Fresh (fst (calculateRange env w)).
Proof.
  intros H0 Hp Hn Ho Hr env. apply Fresh_calculateRange.
  apply (Fresh_same w0); assumption.
Qed.

Lemma Fresh_run script : Fresh (run script initial).
Proof.
  apply (Inv_run Fresh (fun _ => True)).
  - intros env w _. apply Fresh_calculateRange.
  - intros env w _ Hw. unfold handleItemCountChange.
    destruct (negb (wasmReady (self w)) || isLoading (self w)); [exact Hw|].
    destruct (if isUniform (self w) then uniformVirtualizer (self w)
              else None) as [[h u]|].
    + apply (Fresh_via w); try reflexivity; [exact Hw|].
      unfold resetTracking, setCount. norm.
      rewrite publications_app. apply app_nil_r.
    + destruct (virtualizer (self w)) as [[h v]|]; [|exact Hw].
      destruct (JS.new_Array _) as [n|].
      * apply (Fresh_via w); try reflexivity; [exact Hw|].
        unfold resetTracking, rebuild, createVirtualizer. norm.
        rewrite !publications_app, publications_estimates. cbn.
        rewrite !app_nil_r. reflexivity.
      * apply (Fresh_same w); try reflexivity; [exact Hw|].
        norm. rewrite publications_app. apply app_nil_r.
  - intros env w _ Hw. unfold initialize_fulfilled, setupVirtualizer.
    destruct (sampleSizes _ _ _ _) as [uniform called].
    destruct uniform.
    + apply (Fresh_same w); try reflexivity; [exact Hw|].
      unfold createUniformVirtualizer, finishSetup. norm.
      rewrite !publications_app, publications_estimates. cbn.
      rewrite !app_nil_r. reflexivity.
    + destruct (JS.new_Array _) as [n|].
      * apply (Fresh_same w); try reflexivity; [exact Hw|].
        unfold createVirtualizer, finishSetup. norm.
        rewrite !publications_app, !publications_estimates. cbn.
        rewrite !app_nil_r. reflexivity.
      * apply (Fresh_same w); try reflexivity; [exact Hw|].
        norm. rewrite !publications_app, publications_estimates. cbn.
        rewrite !app_nil_r. reflexivity.
  - intros err w Hw. exact Hw.
  - intros w Hw. apply (Fresh_same w); [exact Hw| | | |].
    + rewrite willDestroy_trace, publications_app.
      rewrite <- (app_nil_r (publications (trace w))) at 2. f_equal.
      destruct (Nat.eqb (rafId (self w)) 0);
        destruct (virtualizer (self w)) as [[hv v]|];
        destruct (uniformVirtualizer (self w)) as [[hu u]|]; reflexivity.
    + unfold willDestroy. norm.
      destruct (Nat.eqb (rafId (self w)) 0); norm;
        destruct (virtualizer (self w)) as [[hv v]|]; norm;
        destruct (uniformVirtualizer (self w)) as [[hu u]|]; reflexivity.
    + rewrite willDestroy_self. reflexivity.
    + rewrite willDestroy_self. reflexivity.
  - intros el w Hw. exact Hw.
  - intros b w Hw. exact Hw.
  - intros id w Hw. exact Hw.
  - intros fs w Hw. exact Hw.
  - intros cb w Hw. apply (Fresh_same w); try reflexivity; [exact Hw|].
    norm. rewrite publications_app. apply app_nil_r.
  - intros env act _. exact I.
  - split; [exact I|]. split; [apply Forall_nil|].
    split; [apply Nat.le_refl|reflexivity].
Qed.

End Identity.

(** X25. Every publication is a new object, and the component holds the
    latest.  In every state of every lifetime the identities of the range
    objects published so far increase strictly in the order of publication
    (so no two publications share an object, and none is the initial
    object), and the range object and range the component holds are the
    last ones published, or the initial ones when nothing was published. *)
Theorem publications_are_fresh {E : Engine} (script : list (Env * Action)) :
  increasingFrom 1 (map fst (publications (trace (run script initial))))
  /\ (rangeObj (self (run script initial)), range (self (run script initial)))
     = last (publications (trace (run script initial))) (O, emptyRange).
Proof.
  destruct (Fresh_run script) as (H1 & _ & _ & H4). split; assumption.
Qed.

(** X20. The inner element of the rendered list always has a height the
    browser can lay out: at every moment of every lifetime the height
    written for the range held is not 0 and is at most 15,000,000. *)
Theorem inner_height_is_usable {E : Engine} (script : list (Env * Action)) :
  ~ (Rendering.innerHeight (range (self (run script initial))) == 0)%Q
  /\ (Rendering.innerHeight (range (self (run script initial)))
      <= MAX_SAFE_SCROLL_HEIGHT)%Q.
Proof.
  destruct (range_held capped) with (script := script) as [Hheld _].
  - unfold capped. cbn. discriminate.
  - apply capped_calculateRange.
  - unfold Rendering.innerHeight.
    destruct (Qeq_bool (totalHeight (range (self (run script initial)))) 0)
      eqn:Hz.
    + split; discriminate.
    + split; [|exact Hheld]. intro H0. apply Qeq_bool_iff in H0. congruence.
Qed.

(** ** The further properties at work *)

Import Trial.

Lemma waiting_component_is_quiet :
  isLoading (self (run (E := engine) waiting initial)) = true
  /\ Forall quietEvent (trace (run (E := engine) waiting initial))
  /\ range (self (run (E := engine) waiting initial)) = emptyRange.
Proof.
  assert (Hl : isLoading (self (run (E := engine) waiting initial)) = true)
    by reflexivity.
  split; [exact Hl|].
  exact (loading_is_quiet (E := engine) waiting Hl).
Defined.

Lemma network_failure_is_reported :
  isLoading (self (run (E := engine) [(e1000, Install 7%nat)] initial)) = true
  /\ error (self (run (E := engine)
                    ([(e1000, Install 7%nat)]
                     ++ (e1000, WasmRejected "network") :: afterwards)
                    initial))
     = Some "network"%string
  /\ range (self (run (E := engine)
                    ([(e1000, Install 7%nat)]
                     ++ (e1000, WasmRejected "network") :: afterwards)
                    initial))
     = emptyRange.
Proof.
  assert (Hl : isLoading (self (run (E := engine) [(e1000, Install 7%nat)]
                                  initial)) = true) by reflexivity.
  split; [exact Hl|].
  destruct (load_failure_is_final (E := engine) [(e1000, Install 7%nat)]
              afterwards e1000 "network" Hl) as (He & _ & Hr & _).
  split; [exact He|exact Hr].
Defined.

Lemma mounted_scroll_is_served :
  element (self mountedWorld) = Some 7%nat
  /\ rafPending (self mountedWorld) = false
  /\ frames mountedWorld = []
  /\ step e1000 ScrollEvent (step e1000 ScrollEvent mountedWorld)
     = step e1000 ScrollEvent mountedWorld
  /\ rafPending
       (self (step e1000 Frame
                (step e1000 Frame (step e1000 ScrollEvent mountedWorld))))
     = false.
Proof.
  assert (He : element (self mountedWorld) = Some 7%nat) by reflexivity.
  assert (Hp : rafPending (self mountedWorld) = false) by reflexivity.
  assert (Hf : frames mountedWorld = []) by reflexivity.
  split; [exact He|]. split; [exact Hp|]. split; [exact Hf|].
  destruct (scroll_served_on_second_frame (E := engine) e1000 e1000 e1000
              e1000 mountedWorld 7%nat He Hp Hf)
    as (H1 & _ & _ & _ & _ & H6).
  split; [exact H1|exact H6].
Defined.

Lemma stripes_are_rebuilt :
  virtualizer (self (run (E := engine) mountedStripes initial))
  = Some (O, allSizes alternating 20)
  /\ (O < nextHandle (run (E := engine) mountedStripes initial))%nat
  /\ snd (handleItemCountChange eStripes30
            (run (E := engine) mountedStripes initial)) <> Skipped.
Proof.
  assert (Hv : virtualizer (self (run (E := engine) mountedStripes initial))
               = Some (O, allSizes alternating 20))
    by (vm_compute; reflexivity).
  split; [exact Hv|].
  destruct (variable_count_change_rebuilds (E := engine) mountedStripes
              eStripes30 O (allSizes alternating 20)
              eq_refl eq_refl eq_refl Hv) as [Hvalid _].
  destruct Hvalid as (_ & _ & Hlt & _ & Hns & _).
  - cbn. lia.
  - split; [exact Hlt|exact Hns].
Defined.

Lemma huge_striped_list_fails :
  isLoading (self (run (E := engine) [(eHuge, Install 7%nat)] initial)) = true
  /\ error (self (run (E := engine)
                    ([(eHuge, Install 7%nat)]
                     ++ (eHuge, WasmFulfilled) :: afterwards) initial))
     = Some "Invalid array length"%string
  /\ virtualizer (self (run (E := engine)
                          ([(eHuge, Install 7%nat)]
                           ++ (eHuge, WasmFulfilled) :: afterwards) initial))
     = None.
Proof.
  assert (Hl : isLoading (self (run (E := engine) [(eHuge, Install 7%nat)]
                                  initial)) = true) by reflexivity.
  split; [exact Hl|].
  destruct (setup_failure_is_final (E := engine) [(eHuge, Install 7%nat)]
              afterwards eHuge Hl) as (He & _ & _ & Hv & _).
  - vm_compute. reflexivity.
  - vm_compute. discriminate.
  - split; [exact He|exact Hv].
Defined.

Lemma thousand_rows_sampled_ten_times :
  isUniform (self (run (E := engine) mounted initial)) = true
  /\ (List.length (estimatedAt (trace (run (E := engine) mounted initial)))
      <= 10)%nat.
Proof.
  assert (Hu : isUniform (self (run (E := engine) mounted initial)) = true)
    by reflexivity.
  split; [exact Hu|].
  exact (uniform_path_samples_at_most_ten (E := engine) mounted Hu).
Defined.

Lemma loaded_gateway_stays_ready :
  Gateway.wasmStatus (Gateway.run loaded Gateway.initial) = Gateway.ready
  /\ Gateway.wasmStatus
       (Gateway.run lateInputs (Gateway.run loaded Gateway.initial))
     = Gateway.ready
  /\ Gateway.loads
       (Gateway.run lateInputs (Gateway.run loaded Gateway.initial))
     = Gateway.loads (Gateway.run loaded Gateway.initial).
Proof.
  assert (Hs : Gateway.wasmStatus (Gateway.run loaded Gateway.initial)
               = Gateway.ready) by reflexivity.
  split; [exact Hs|].
  destruct (ready_is_final loaded lateInputs Hs) as (H1 & _ & _ & H4 & _).
  split; [exact H1|exact H4].
Defined.

Lemma loaded_gateway_is_usable :
  Gateway.promiseState O (Gateway.run loaded Gateway.initial)
  = Some Gateway.Fulfilled
  /\ Exports.createUniformVirtualizer (E := engine) 1000 50
       (Gateway.run loaded Gateway.initial)
     = inr (uniform_new (Engine := engine) 1000 50)
  /\ Exports.get_version (Gateway.run loaded Gateway.initial)
     = inr (Exports.version
              (Exports.getWasmStatus (Gateway.run loaded Gateway.initial))).
Proof.
  assert (Hp : Gateway.promiseState O (Gateway.run loaded Gateway.initial)
               = Some Gateway.Fulfilled) by reflexivity.
  split; [exact Hp|].
  destruct (fulfilled_means_usable (E := engine) loaded O Hp)
    as (_ & _ & Hu & Hv).
  split; [apply Hu|exact Hv].
Defined.

Lemma scrolled_component_has_one_callback :
  rafPending (self (run (E := engine) scrolled initial)) = true
  /\ scheduled (frames (run (E := engine) scrolled initial)) = 1%nat.
Proof.
  assert (Hp : rafPending (self (run (E := engine) scrolled initial)) = true)
    by reflexivity.
  split; [exact Hp|].
  destruct (scroll_callbacks_coalesced (E := engine) scrolled) as (_ & _ & H).
  apply H; [|exact Hp].
  intros env Hin. cbn in Hin.
  repeat (destruct Hin as [Hin|Hin]; [inversion Hin|]). exact Hin.
Defined.

Lemma mounted_rows_yield_items :
  In (EvPublish 1 firstRange 1000) (trace (run (E := engine) mounted initial))
  /\ 1000 = Rendering.itemCount None (Some thousandItems)
  /\ Forall (fun row =>
               exists x,
                 snd (fst row) = Rendering.Item (Some x)
                 /\ nth_error thousandItems (Z.to_nat (snd row)) = Some x)
       (Rendering.rows firstRange (Some thousandItems)).
Proof.
  assert (Hin : In (EvPublish 1 firstRange 1000)
                  (trace (run (E := engine) mounted initial)))
    by find_in_trace.
  assert (Hc : 1000 = Rendering.itemCount None (Some thousandItems))
    by reflexivity.
  split; [exact Hin|]. split; [exact Hc|].
  pose proof (rendered_rows_are_the_window (E := engine) mounted
                (Some thousandItems)) as H.
  rewrite Forall_forall in H. specialize (H _ Hin). cbn [publishes] in H.
  destruct H as (_ & _ & _ & H). exact (H Hc).
Defined.


Lemma mounted_list_stays_uniform :
  isLoading (self (run (E := engine) mounted initial)) = false
  /\ isUniform (self (run (E := engine) (mounted ++ afterwards) initial))
     = isUniform (self (run (E := engine) mounted initial)).
Proof.
  assert (Hl : isLoading (self (run (E := engine) mounted initial)) = false)
    by reflexivity.
  split; [exact Hl|].
  destruct (path_is_chosen_once (E := engine) mounted afterwards Hl)
    as [H _].
  exact H.
Defined.

Lemma early_teardown_leaks :
  isLoading (self (run (E := engine) [(e1000, Install 7%nat)] initial)) = true
  /\ In EvDestroy
       (trace (run (E := engine)
                 ([(e1000, Install 7%nat)]
                  ++ (e1000, Destroy) :: (e1000, WasmFulfilled) :: afterwards)
                 initial))
  /\ exists h,
       holds (self (run (E := engine)
                      ([(e1000, Install 7%nat)]
                       ++ (e1000, Destroy) :: (e1000, WasmFulfilled)
                          :: afterwards) initial)) h
       /\ frees h
            (trace (run (E := engine)
                      ([(e1000, Install 7%nat)]
                       ++ (e1000, Destroy) :: (e1000, WasmFulfilled)
                          :: afterwards) initial)) = O.
Proof.
  assert (Hl : isLoading (self (run (E := engine) [(e1000, Install 7%nat)]
                                  initial)) = true) by reflexivity.
  split; [exact Hl|].
  apply (teardown_while_loading_leaks (E := engine) [(e1000, Install 7%nat)]
           afterwards e1000 e1000 Hl).
  - cbn. lia.
  - intros env Hin. cbn in Hin.
    repeat (destruct Hin as [Hin|Hin]; [inversion Hin|]). exact Hin.
Defined.

Lemma first_range_is_capped :
  In (EvPublish 1 firstRange 1000) (trace (run (E := engine) mounted initial))
  /\ (totalHeight firstRange <= MAX_SAFE_SCROLL_HEIGHT)%Q.
Proof.
  assert (Hin : In (EvPublish 1 firstRange 1000)
                  (trace (run (E := engine) mounted initial)))
    by find_in_trace.
  split; [exact Hin|].
  destruct (totalHeight_capped (E := engine) mounted) as [_ H].
  rewrite Forall_forall in H. exact (H _ Hin).
Defined.

Lemma first_range_lists_its_indices :
  In (EvPublish 1 firstRange 1000) (trace (run (E := engine) mounted initial))
  /\ items firstRange
     = map (fun i => startIndex firstRange + i)
         (JS.indices (Z.to_nat (endIndex firstRange - startIndex firstRange)))
  /\ Forall (fun i => 0 <= i < 1000) (items firstRange).
Proof.
  assert (Hin : In (EvPublish 1 firstRange 1000)
                  (trace (run (E := engine) mounted initial)))
    by find_in_trace.
  split; [exact Hin|].
  destruct (items_are_the_indices (E := engine) mounted) as [_ H].
  rewrite Forall_forall in H. exact (H _ Hin).
Defined.

Lemma first_range_starts_at_zero :
  In (EvPublish 1 firstRange 1000) (trace (run (E := engine) mounted initial))
  /\ nth_error (offsets firstRange) 0 = Some 0%Q
  /\ (0 == 0)%Q.
Proof.
  assert (Hin : In (EvPublish 1 firstRange 1000)
                  (trace (run (E := engine) mounted initial)))
    by find_in_trace.
  assert (Ho : nth_error (offsets firstRange) 0 = Some 0%Q) by reflexivity.
  split; [exact Hin|]. split; [exact Ho|].
  destruct (first_offset_is_zero (E := engine) mounted) as [_ H].
  rewrite Forall_forall in H. exact (H _ Hin 0%Q Ho).
Defined.

Lemma failed_gateway_reports_error :
  Exports.status
    (Exports.getWasmStatus (Gateway.run failing Gateway.initial))
  = Gateway.error
  /\ Exports.error
       (Exports.getWasmStatus (Gateway.run failing Gateway.initial))
     <> None.
Proof.
  assert (Hs : Exports.status
                 (Exports.getWasmStatus (Gateway.run failing Gateway.initial))
               = Gateway.error) by reflexivity.
  split; [exact Hs|].
  destruct (status_and_error_agree failing) as [[H _] _]. exact (H Hs).
Defined.

Lemma calling_gateway_throws :
  Gateway.wasmStatus (Gateway.run calling Gateway.initial) <> Gateway.ready
  /\ Exports.get_version (Gateway.run calling Gateway.initial)
     = inl "WASM not initialized. Call initializeWasm() first."%string.
Proof.
  assert (Hs : Gateway.wasmStatus (Gateway.run calling Gateway.initial)
               <> Gateway.ready) by discriminate.
  split; [exact Hs|].
  destruct (exports_need_ready (E := engine) calling) as [_ H].
  destruct (H Hs) as (_ & _ & Hv). exact Hv.
Defined.

Lemma mounted_component_keeps_its_rows :
  Rendering.view (self (run (E := engine) mounted initial))
  = Rendering.Rows firstRange
  /\ Rendering.view (self (run (E := engine) (mounted ++ afterwards) initial))
     = Rendering.Rows
         (range (self (run (E := engine) (mounted ++ afterwards) initial))).
Proof.
  assert (Hv : Rendering.view (self (run (E := engine) mounted initial))
               = Rendering.Rows firstRange) by (vm_compute; reflexivity).
  split; [exact Hv|].
  pose proof (view_only_moves_forward (E := engine) mounted afterwards) as H.
  rewrite Hv in H. exact H.
Defined.
